(** * pi-automem: the session-to-memory extraction pipeline

    A shallow embedding of [scripts/compound-review.js] (the nightly batch
    reviewer) and of the session-shutdown half of the AutoMem extension
    (the live hook), followed by the properties the specification states
    about them.

    Layout: Part I holds the definitions (JavaScript strings and values,
    [JSON.parse], the batch script, the live hook and the tools of the
    extension); Part II holds the lemmas and the theorems about the
    specification's claims; Part III holds further properties of the
    code. *)

From Stdlib Require Import List ZArith NArith String Ascii Bool Lia.
From Stdlib Require Import Permutation Sorted.
Import ListNotations.

Set Implicit Arguments.
Set Warnings "-register-all,-abstract-large-number".

(* ================================================================= *)
(** * Part I.  Definitions *)
(* ================================================================= *)

(** ** JavaScript strings

    A JavaScript string is a finite sequence of 16-bit code units;
    [length], [slice], [split], [trim] and the regular expressions of the
    scripts all work on code units.  *)

Module Js.

Definition jsstring := list N.

(** A literal of the source, written with one-byte characters. *)
Definition str (s : string) : jsstring :=
  map N_of_ascii (list_ascii_of_string s).

Definition streq (a b : jsstring) : bool :=
  if list_eq_dec N.eq_dec a b then true else false.

(** Code units that [String.prototype.trim] and the class [\s] remove:
    WhiteSpace and LineTerminator of ECMAScript. *)
Definition is_space (c : N) : bool :=
  ((9 <=? c) && (c <=? 13) || (c =? 32) || (c =? 160) || (c =? 5760)
   || (8192 <=? c) && (c <=? 8202) || (c =? 8232) || (c =? 8233)
   || (c =? 8239) || (c =? 8287) || (c =? 12288) || (c =? 65279))%N.

Fixpoint trimStart (s : jsstring) : jsstring :=
  match s with
  | c :: r => if is_space c then trimStart r else s
  | [] => []
  end.

Definition trimEnd (s : jsstring) : jsstring := rev (trimStart (rev s)).

Definition trim (s : jsstring) : jsstring := trimEnd (trimStart s).

(** [s.slice(0, n)] for a non-negative [n]. *)
Definition slice0 (n : nat) (s : jsstring) : jsstring := firstn n s.

Fixpoint startsWith (p s : jsstring) : bool :=
  match p, s with
  | [], _ => true
  | a :: p', b :: s' => (a =? b)%N && startsWith p' s'
  | _ :: _, [] => false
  end.

Definition endsWith (p s : jsstring) : bool := startsWith (rev p) (rev s).

(** [s.split(sep)] for a one-unit separator: never empty, [""] gives [[""]]. *)
Fixpoint split (sep : N) (s : jsstring) : list jsstring :=
  match s with
  | [] => [[]]
  | c :: r =>
      if (c =? sep)%N then [] :: split sep r
      else match split sep r with
           | l :: ls => (c :: l) :: ls
           | [] => [[c]]
           end
  end.

Definition nonempty (s : jsstring) : bool :=
  match s with [] => false | _ :: _ => true end.

(** [a.join(sep)] on strings. *)
Fixpoint join (sep : jsstring) (l : list jsstring) : jsstring :=
  match l with
  | [] => []
  | [a] => a
  | a :: r => a ++ sep ++ join sep r
  end.

Definition LF : N := 10.
Definition DQ : N := 34.
Definition nl : jsstring := [LF].

(** ** JavaScript values

    The values [JSON.parse] can return, together with [undefined], which
    reading an absent property produces.  A number is carried by its JSON
    literal: the scripts never compute with numbers read from JSON, they
    only test them for truth and forward them. *)

Inductive value : Type :=
| VUndefined
| VNull
| VBool (b : bool)
| VNum (literal : jsstring)
| VStr (s : jsstring)
| VArr (elems : list value)
| VObj (fields : list (jsstring * value)).

(** What a JavaScript function call ends in: a returned value or a thrown
    error (the error's message is kept for the log lines that print it). *)
Inductive error : Type :=
| TypeError (what : jsstring)
| SyntaxError
| Error (message : jsstring)
| SystemError (message : jsstring) (killed : bool).

Inductive result (A : Type) : Type :=
| Ok (a : A)
| Throw (e : error).
Arguments Throw {A} e.

Definition is_digit (c : N) : bool := ((48 <=? c) && (c <=? 57))%N.

(** A JSON number literal denotes zero when its mantissa has no non-zero
    digit (literals so small that they round to zero are not tracked). *)
Fixpoint mantissa_zero (lit : jsstring) : bool :=
  match lit with
  | [] => true
  | c :: r =>
      if ((c =? 101) || (c =? 69))%N then true
      else if is_digit c && negb (c =? 48)%N then false
      else mantissa_zero r
  end.

(** ToBoolean. *)
Definition truthy (v : value) : bool :=
  match v with
  | VUndefined | VNull => false
  | VBool b => b
  | VNum lit => negb (mantissa_zero lit)
  | VStr s => nonempty s
  | VArr _ | VObj _ => true
  end.

(** Own property of an object built by [JSON.parse]: with a repeated key
    the last occurrence wins. *)
Definition lookup (k : jsstring) (fs : list (jsstring * value)) : value :=
  match find (fun kv => streq k (fst kv)) (rev fs) with
  | Some (_, v) => v
  | None => VUndefined
  end.

(** [v.k] for the property names the scripts read ([type], [message],
    [role], [content], [text], [tags], [importance], [candidates], [parts]):
    none of them is defined on a built-in prototype, so only an object's own
    fields answer, and reading from [null] or [undefined] throws. *)
Definition prop (v : value) (k : string) : result value :=
  match v with
  | VUndefined | VNull => Throw (TypeError (str k))
  | VObj fs => Ok (lookup (str k) fs)
  | _ => Ok VUndefined
  end.

(** [v?.k] and [v?.[0]]: [undefined] on a nullish base, no throw. *)
Definition optProp (v : value) (k : string) : value :=
  match v with
  | VObj fs => lookup (str k) fs
  | _ => VUndefined
  end.

Definition optFirst (v : value) : value :=
  match v with
  | VArr (x :: _) => x
  | VStr (c :: _) => VStr [c]
  | VObj fs => lookup (str "0") fs
  | _ => VUndefined
  end.

(** ToString of a value, as [Array.prototype.join] applies it to the
    elements: [null] and [undefined] give the empty string inside a join,
    an array joins its elements with a comma, an object prints as
    [[object Object]] (the case in which printing throws is [printable]
    below).  A number is printed as its literal, which is what JavaScript
    prints for literals in canonical form ([5], [0.8]); the rounding to a
    double is not modelled. *)
Fixpoint joinElem (v : value) : jsstring :=
  match v with
  | VUndefined | VNull => []
  | VBool true => str "true"
  | VBool false => str "false"
  | VNum lit => lit
  | VStr s => s
  | VArr l =>
      (fix commas (l : list value) : jsstring :=
         match l with
         | [] => []
         | [a] => joinElem a
         | a :: r => joinElem a ++ str "," ++ commas r
         end) l
  | VObj _ => str "[object Object]"
  end.

Definition joinValues (sep : jsstring) (l : list value) : jsstring :=
  join sep (map joinElem l).

(** ToString of a value built by [JSON.parse] throws exactly on an object
    that has an own property [toString]: the property holds a JSON value,
    which is not callable, and the inherited [valueOf] returns the object
    itself, so no primitive is obtained.  An array prints its elements. *)
Fixpoint printable (v : value) : bool :=
  match v with
  | VObj fs => negb (existsb (fun kv => streq (str "toString") (fst kv)) fs)
  | VArr l =>
      (fix all (l : list value) : bool :=
         match l with
         | [] => true
         | a :: r => printable a && all r
         end) l
  | _ => true
  end.

Definition notPrimitive : error :=
  TypeError (str "Cannot convert object to primitive value").

(** The ToString that a template literal applies to a substitution. *)
Definition toStringCheck (v : value) : result unit :=
  if printable v then Ok tt else Throw notPrimitive.

(** [l.join(sep)] on values. *)
Definition joinR (sep : jsstring) (l : list value) : result jsstring :=
  if forallb printable l then Ok (joinValues sep l) else Throw notPrimitive.

(** [new Set(l)], as the list of its elements: the distinct elements of
    [l] in the order of their first occurrence. *)
Definition newSet (l : list jsstring) : list jsstring :=
  fold_left (fun seen x => if existsb (streq x) seen then seen else seen ++ [x])
            l [].

Definition andThen {A B} (r : result A) (f : A -> result B) : result B :=
  match r with
  | Ok a => f a
  | Throw e => Throw e
  end.

(** [xs.filter(f)] and [xs.map(f)] with a callback that may throw. *)
Fixpoint filterR {A} (f : A -> result bool) (l : list A) : result (list A) :=
  match l with
  | [] => Ok []
  | a :: r =>
      andThen (f a) (fun keep =>
      andThen (filterR f r) (fun r' =>
      Ok (if keep then a :: r' else r')))
  end.

Fixpoint mapR {A B} (f : A -> result B) (l : list A) : result (list B) :=
  match l with
  | [] => Ok []
  | a :: r =>
      andThen (f a) (fun b =>
      andThen (mapR f r) (fun r' => Ok (b :: r')))
  end.

(** [v === "literal"]. *)
Definition strictEq (v : value) (s : string) : bool :=
  match v with
  | VStr x => streq x (str s)
  | _ => false
  end.

End Js.

(** ** [JSON.parse]

    The JSON grammar of ECMA-404, read in one pass over the code units: a
    lexer automaton that emits tokens, and a pushdown automaton over the
    tokens.  Both are folds over the input, so parsing is total; [None] is
    the [SyntaxError] of [JSON.parse]. *)

Module Json.
Import Js.

Inductive token : Type :=
| TLBrace | TRBrace | TLBracket | TRBracket | TColon | TComma
| TString (s : jsstring)
| TNumber (literal : jsstring)
| TTrue | TFalse | TNull.

(** Where the lexer stands inside a number literal. *)
Inductive numstate : Type :=
| NMinus | NZero | NInt | NDot | NFrac | NExp | NExpSign | NExpDigits.

Definition num_accepting (st : numstate) : bool :=
  match st with
  | NZero | NInt | NFrac | NExpDigits => true
  | NMinus | NDot | NExp | NExpSign => false
  end.

Definition num_next (st : numstate) (c : N) : option numstate :=
  let e := ((c =? 101) || (c =? 69))%N in
  match st with
  | NMinus => if (c =? 48)%N then Some NZero
              else if is_digit c then Some NInt else None
  | NZero => if (c =? 46)%N then Some NDot
             else if e then Some NExp else None
  | NInt => if is_digit c then Some NInt
            else if (c =? 46)%N then Some NDot
            else if e then Some NExp else None
  | NDot => if is_digit c then Some NFrac else None
  | NFrac => if is_digit c then Some NFrac
             else if e then Some NExp else None
  | NExp => if ((c =? 43) || (c =? 45))%N then Some NExpSign
            else if is_digit c then Some NExpDigits else None
  | NExpSign => if is_digit c then Some NExpDigits else None
  | NExpDigits => if is_digit c then Some NExpDigits else None
  end.

Inductive lexmode : Type :=
| LDefault
| LString (acc : jsstring)                 (* reversed contents so far *)
| LEscape (acc : jsstring)                 (* just after a backslash *)
| LUnicode (acc : jsstring) (hex : list N) (* after \u, digits read so far *)
| LNumber (st : numstate) (lit : jsstring) (* reversed literal so far *)
| LWord (rest : jsstring) (t : token).     (* inside true, false or null *)

Definition hex_value (c : N) : option N :=
  if is_digit c then Some (c - 48)%N
  else if ((97 <=? c) && (c <=? 102))%N then Some (c - 87)%N
  else if ((65 <=? c) && (c <=? 70))%N then Some (c - 55)%N
  else None.

Definition json_space (c : N) : bool :=
  ((c =? 32) || (c =? 9) || (c =? 10) || (c =? 13))%N.

(** One code unit read outside any token. *)
Definition lex_default (toks : list token) (c : N)
  : option (lexmode * list token) :=
  if json_space c then Some (LDefault, toks)
  else if (c =? 123)%N then Some (LDefault, TLBrace :: toks)
  else if (c =? 125)%N then Some (LDefault, TRBrace :: toks)
  else if (c =? 91)%N then Some (LDefault, TLBracket :: toks)
  else if (c =? 93)%N then Some (LDefault, TRBracket :: toks)
  else if (c =? 58)%N then Some (LDefault, TColon :: toks)
  else if (c =? 44)%N then Some (LDefault, TComma :: toks)
  else if (c =? DQ)%N then Some (LString [], toks)
  else if (c =? 45)%N then Some (LNumber NMinus [c], toks)
  else if (c =? 48)%N then Some (LNumber NZero [c], toks)
  else if is_digit c then Some (LNumber NInt [c], toks)
  else if (c =? 116)%N then Some (LWord (str "rue") TTrue, toks)
  else if (c =? 102)%N then Some (LWord (str "alse") TFalse, toks)
  else if (c =? 110)%N then Some (LWord (str "ull") TNull, toks)
  else None.

(** Tokens are accumulated in reverse. *)
Definition lex_step (st : lexmode * list token) (c : N)
  : option (lexmode * list token) :=
  let '(mode, toks) := st in
  match mode with
  | LDefault => lex_default toks c
  | LString acc =>
      if (c =? DQ)%N then Some (LDefault, TString (rev acc) :: toks)
      else if (c =? 92)%N then Some (LEscape acc, toks)
      else if (c <? 32)%N then None
      else Some (LString (c :: acc), toks)
  | LEscape acc =>
      if ((c =? DQ) || (c =? 92) || (c =? 47))%N
      then Some (LString (c :: acc), toks)
      else if (c =? 98)%N then Some (LString (8%N :: acc), toks)
      else if (c =? 102)%N then Some (LString (12%N :: acc), toks)
      else if (c =? 110)%N then Some (LString (10%N :: acc), toks)
      else if (c =? 114)%N then Some (LString (13%N :: acc), toks)
      else if (c =? 116)%N then Some (LString (9%N :: acc), toks)
      else if (c =? 117)%N then Some (LUnicode acc [], toks)
      else None
  | LUnicode acc hex =>
      match hex_value c with
      | None => None
      | Some d =>
          match hex with
          | [a; b; c'] =>
              Some (LString ((((a * 16 + b) * 16 + c') * 16 + d)%N :: acc),
                    toks)
          | _ => Some (LUnicode acc (hex ++ [d]), toks)
          end
      end
  | LNumber ns lit =>
      match num_next ns c with
      | Some ns' => Some (LNumber ns' (c :: lit), toks)
      | None =>
          if num_accepting ns
          then lex_default (TNumber (rev lit) :: toks) c
          else None
      end
  | LWord rest t =>
      match rest with
      | [] => None
      | x :: rest' =>
          if (c =? x)%N
          then match rest' with
               | [] => Some (LDefault, t :: toks)
               | _ => Some (LWord rest' t, toks)
               end
          else None
      end
  end.

Fixpoint lex_run (st : lexmode * list token) (s : jsstring)
  : option (lexmode * list token) :=
  match s with
  | [] => Some st
  | c :: r =>
      match lex_step st c with
      | Some st' => lex_run st' r
      | None => None
      end
  end.

Definition lex (s : jsstring) : option (list token) :=
  match lex_run (LDefault, []) s with
  | Some (LDefault, toks) => Some (rev toks)
  | Some (LNumber ns lit, toks) =>
      if num_accepting ns then Some (rev (TNumber (rev lit) :: toks))
      else None
  | _ => None
  end.

(** An array or an object whose closing bracket has not been read yet;
    an object frame also holds the key whose value is being read. *)
Inductive frame : Type :=
| FArr (elems : list value)
| FObj (fields : list (jsstring * value)) (key : jsstring).

Inductive pmode : Type :=
| MValue                                   (* a value must start here *)
| MArrStart                                (* after '[': a value or ']' *)
| MObjStart                                (* after '{': a key or '}' *)
| MObjKey (fields : list (jsstring * value))       (* after ',': a key *)
| MObjColon (fields : list (jsstring * value)) (key : jsstring)
| MDone (v : value).                       (* a value has just ended *)

Definition scalar (t : token) : option value :=
  match t with
  | TString s => Some (VStr s)
  | TNumber l => Some (VNum l)
  | TTrue => Some (VBool true)
  | TFalse => Some (VBool false)
  | TNull => Some VNull
  | _ => None
  end.

Definition parse_step (st : list frame * pmode) (t : token)
  : option (list frame * pmode) :=
  let '(stack, mode) := st in
  match mode with
  | MValue | MArrStart =>
      match t with
      | TLBracket => Some (FArr [] :: stack, MArrStart)
      | TLBrace => Some (stack, MObjStart)
      | TRBracket =>
          match mode, stack with
          | MArrStart, FArr [] :: stack' => Some (stack', MDone (VArr []))
          | _, _ => None
          end
      | _ => match scalar t with
             | Some v => Some (stack, MDone v)
             | None => None
             end
      end
  | MObjStart =>
      match t with
      | TString k => Some (stack, MObjColon [] k)
      | TRBrace => Some (stack, MDone (VObj []))
      | _ => None
      end
  | MObjKey fs =>
      match t with
      | TString k => Some (stack, MObjColon fs k)
      | _ => None
      end
  | MObjColon fs k =>
      match t with
      | TColon => Some (FObj fs k :: stack, MValue)
      | _ => None
      end
  | MDone v =>
      match stack, t with
      | FArr elems :: stack', TComma =>
          Some (FArr (v :: elems) :: stack', MValue)
      | FArr elems :: stack', TRBracket =>
          Some (stack', MDone (VArr (rev (v :: elems))))
      | FObj fs k :: stack', TComma =>
          Some (stack', MObjKey ((k, v) :: fs))
      | FObj fs k :: stack', TRBrace =>
          Some (stack', MDone (VObj (rev ((k, v) :: fs))))
      | _, _ => None
      end
  end.

Fixpoint parse_run (st : list frame * pmode) (ts : list token)
  : option (list frame * pmode) :=
  match ts with
  | [] => Some st
  | t :: r =>
      match parse_step st t with
      | Some st' => parse_run st' r
      | None => None
      end
  end.

(** [JSON.parse(text)]: the value, or [None] where it throws. *)
Definition parse (text : jsstring) : option value :=
  match lex text with
  | None => None
  | Some ts =>
      match parse_run ([], MValue) ts with
      | Some ([], MDone v) => Some v
      | _ => None
      end
  end.

Definition JSON_parse (text : jsstring) : result value :=
  match parse text with
  | Some v => Ok v
  | None => Throw SyntaxError
  end.

End Json.

(** ** The world outside the scripts

    The memory store, the model, the file system and the console are
    external.  Their replies are oracles: a reply may depend on how many
    calls of the same kind came before, so that a store can fail on its
    second call and a model can answer differently each time.  What the
    scripts do to the outside is recorded in the [world]. *)

Module Host.
Import Js Json.

(** The JSON body of [POST /memory], field by field, before
    [JSON.stringify]; [metadata.extracted_at] (the wall clock) is left out. *)
Record request : Type := {
  r_content : value;
  r_type : value;
  r_importance : value;
  r_tags : list value;
  r_metadata : list (jsstring * value)
}.

(** What [await fetch(...)] gives: a rejected promise, or a response with
    its [ok] flag and its body as [response.text()] returns it, that is
    UTF-8 decoded with a leading byte order mark removed; [response.json()]
    is [JSON.parse] of that text. *)
Inductive fetched : Type :=
| Rejected (e : error)
| Response (ok : bool) (body : jsstring).

(** Lines written with [log], [debug], [console.error] and [ui.notify],
    with the values they print rather than the rendered text. *)
Inductive logline : Type :=
| LogBanner
| LogHealth (status memory_count : value)
| LogFound (n : nat) (hours : option Z)
| LogNotYetProcessed (n : nat)
| LogNothingToProcess
| LogProcessing (name : jsstring)
| LogDebugSkipping (turnCount : nat)
| LogDebugLength (chars : nat)
| LogDebugExtracted (n : nat)
| LogDryRunHeader
| LogDryRunMemory (type content : value)
| LogDryRunDetail (importance : value) (tags : jsstring)
| LogFailedToStore (e : error)
| LogErrorProcessing (name : jsstring) (e : error)
| LogSummary (sessions memories : nat) (stored : option nat)
| ErrTokenNotSet
| ErrPiNotFound
| ErrCannotConnect
| ErrNoGeminiKey
| ErrGeminiApi (body : jsstring)
| ErrExtractionFailed (e : error)
| ErrFatal (e : error).

Record world : Type := {
  ledger : option jsstring;   (* automem-processed-sessions.log; None: absent *)
  posts : list request;       (* every POST /memory issued so far *)
  prompts : list jsstring;    (* every prompt handed to a model so far *)
  console : list logline
}.

(** A directory entry as [readdirSync(dir, {withFileTypes: true})] lists
    it.  [listing = None]: reading the directory throws.  [mtimeMs = None]:
    [statSync] throws on the entry. *)
Inductive dirent : Type :=
| Directory (name : jsstring) (listing : option (list dirent))
| File (name : jsstring) (mtimeMs : option Z).

Record env : Type := {
  now : Z;                                     (* Date.now() *)
  homedir : jsstring;
  sessionsListing : option (list dirent);      (* ~/.pi/agent/sessions *)
  readFileSync : jsstring -> result jsstring;
  piVersion : bool;                            (* pi --version succeeds *)
  pi : nat -> jsstring -> result jsstring;     (* execSync(pi ... -p @file) *)
  fetchHealth : fetched;                       (* GET /health *)
  fetchMemory : nat -> request -> fetched;     (* POST /memory *)
  fetchGemini : nat -> jsstring -> fetched;    (* POST ...:generateContent *)
  ledgerUnreadable : option error;
    (* what readFileSync throws on the ledger file, when it does *)
  appendFileSync : option jsstring -> jsstring -> option error
    (* what appending a text to the ledger file in a given state throws,
       when it does *)
}.

(** State and exceptions. *)
Definition M (A : Type) : Type := world -> result A * world.

Definition ret {A} (a : A) : M A := fun w => (Ok a, w).

Definition bind {A B} (m : M A) (f : A -> M B) : M B :=
  fun w =>
    match m w with
    | (Ok a, w') => f a w'
    | (Throw e, w') => (Throw e, w')
    end.

Definition throw {A} (e : error) : M A := fun w => (Throw e, w).

Definition lift {A} (r : result A) : M A := fun w => (r, w).

(** [try { m } catch (e) { h e }]. *)
Definition try_catch {A} (m : M A) (h : error -> M A) : M A :=
  fun w =>
    match m w with
    | (Ok a, w') => (Ok a, w')
    | (Throw e, w') => h e w'
    end.

Definition log (l : logline) : M unit :=
  fun w => (Ok tt, {| ledger := ledger w; posts := posts w;
                      prompts := prompts w; console := console w ++ [l] |}).

(** [await fetch(AUTOMEM_URL + "/memory", {method: "POST", body})]. *)
Definition postMemory (e : env) (r : request) : M fetched :=
  fun w => (Ok (fetchMemory e (List.length (posts w)) r),
            {| ledger := ledger w; posts := posts w ++ [r];
               prompts := prompts w; console := console w |}).

Definition askModel (oracle : nat -> jsstring -> fetched) (prompt : jsstring)
  : M fetched :=
  fun w => (Ok (oracle (List.length (prompts w)) prompt),
            {| ledger := ledger w; posts := posts w;
               prompts := prompts w ++ [prompt]; console := console w |}).

(** [appendFileSync(PROCESSED_FILE, text)]: creates the file when absent;
    when it throws, the file is as it was. *)
Definition appendLedger (e : env) (text : jsstring) : M unit :=
  fun w =>
    match appendFileSync e (ledger w) text with
    | Some err => (Throw err, w)
    | None =>
        (Ok tt,
         {| ledger := Some (match ledger w with
                            | Some old => old ++ text
                            | None => text
                            end);
            posts := posts w; prompts := prompts w;
            console := console w |})
    end.

(** [existsSync(PROCESSED_FILE)] followed, when the file exists, by
    [readFileSync(PROCESSED_FILE, "utf-8")]. *)
Definition readLedger (e : env) : M (option jsstring) :=
  fun w =>
    match ledger w with
    | None => (Ok None, w)
    | Some c =>
        match ledgerUnreadable e with
        | Some err => (Throw err, w)
        | None => (Ok (Some c), w)
        end
    end.

(** [for (const a of l) { f(a) }]: the first throw ends the loop. *)
Definition mapM_ {A} (f : A -> M unit) : list A -> M unit :=
  fix go (l : list A) : M unit :=
    match l with
    | [] => ret tt
    | a :: r => bind (f a) (fun _ => go r)
    end.

Definition high_surrogate (c : N) : bool := ((55296 <=? c) && (c <=? 56319))%N.
Definition low_surrogate (c : N) : bool := ((56320 <=? c) && (c <=? 57343))%N.

Fixpoint codePoints (s : jsstring) : list value :=
  match s with
  | [] => []
  | a :: r =>
      match r with
      | b :: r' =>
          if high_surrogate a && low_surrogate b
          then VStr [a; b] :: codePoints r'
          else VStr [a] :: codePoints r
      | [] => [VStr [a]]
      end
  end.

(** Spread of an iterable, [[...x]]: the elements of an array, the code
    points of a string (a surrogate pair is one element); anything else is
    not iterable. *)
Definition spread (v : value) : result (list value) :=
  match v with
  | VArr l => Ok l
  | VStr s => Ok (codePoints s)
  | _ => Throw (TypeError (str "not iterable"))
  end.

End Host.

Declare Scope js_scope.
Delimit Scope js_scope with js.
Notation "x <- m ;; k" := (Host.bind m (fun x => k))
  (at level 61, m at next level, right associativity) : js_scope.
Notation "m ;;; k" := (Host.bind m (fun _ => k))
  (at level 61, right associativity) : js_scope.

(** ** The batch reviewer, [scripts/compound-review.js] *)

Module Batch.
Import Js Json Host.
Local Open Scope js_scope.

(** The script's globals read from the command line and the environment;
    [hours = None] is the [NaN] that [parseInt] gives on a missing or
    non-numeric argument. *)
Record config : Type := {
  AUTOMEM_TOKEN : option jsstring;
  hours : option Z;
  dryRun : bool;
  specificSession : option jsstring;
  verbose : bool
}.

(** [{ path, mtime, name }]; the session named on the command line has no
    [mtime]. *)
Record session : Type := {
  path : jsstring;
  mtime : option Z;
  name : jsstring
}.

Inductive Role : Type := user | assistant.

Record entry : Type := {
  role : Role;
  text : jsstring
}.

(** [{ skipped: true, reason }], [{ skipped: false, memories: 0 }],
    [{ ..., dryRun: true }] and [{ ..., stored, failed }]. *)
Inductive sessionResult : Type :=
| TooShort
| NoMemories
| DryRunPreview (memories : nat)
| Stored (memories stored failed : nat).

Definition skipped (r : sessionResult) : bool :=
  match r with TooShort => true | _ => false end.

(** [result.memories || 0] and [result.stored || 0]. *)
Definition memoriesOf (r : sessionResult) : nat :=
  match r with
  | TooShort | NoMemories => 0
  | DryRunPreview n => n
  | Stored n _ _ => n
  end.

Definition storedOf (r : sessionResult) : nat :=
  match r with
  | Stored _ s _ => s
  | _ => 0
  end.

Inductive exit : Type :=
| Exit (code : Z)     (* process.exit(code) *)
| Returned.

(** [path.join(dir, name)] where [name] is a single component listed by
    [readdirSync] and [dir] is already normalised. *)
Definition pathJoin (dir name : jsstring) : jsstring := dir ++ str "/" ++ name.

Definition is_slash (c : N) : bool := (c =? 47)%N.

Fixpoint dropWhile (f : N -> bool) (s : jsstring) : jsstring :=
  match s with
  | c :: r => if f c then dropWhile f r else s
  | [] => []
  end.

Fixpoint takeWhile (f : N -> bool) (s : jsstring) : jsstring :=
  match s with
  | c :: r => if f c then c :: takeWhile f r else []
  | [] => []
  end.

(** [path.basename]: the last component, trailing separators ignored. *)
Definition basename (p : jsstring) : jsstring :=
  rev (takeWhile (fun c => negb (is_slash c)) (dropWhile is_slash (rev p))).

(** *** The ledger *)

Definition getProcessedSessions (e : env) : M (list jsstring) :=
  content <- readLedger e ;;
  match content with
  | None => ret []
  | Some c => ret (newSet (filter nonempty (split LF c)))
  end.

(** [processed.has(p)]. *)
Definition has (processed : list jsstring) (p : jsstring) : bool :=
  existsb (streq p) processed.

(** *** Response parsing of [extractMemories] *)

Definition fence : jsstring := str "```".

(** [.replace(/^```(?:json)?\n?/, "")] on a text that starts with the fence. *)
Definition stripFenceStart (t : jsstring) : jsstring :=
  let t1 := skipn 3 t in
  let t2 := if startsWith (str "json") t1 then skipn 4 t1 else t1 in
  if startsWith nl t2 then skipn 1 t2 else t2.

(** [.replace(/\n?```$/, "")]. *)
Definition stripFenceEnd (t : jsstring) : jsstring :=
  if endsWith (nl ++ fence) t then firstn (List.length t - 4) t
  else if endsWith fence t then firstn (List.length t - 3) t
  else t.

Definition stripFences (jsonText : jsstring) : jsstring :=
  if startsWith fence jsonText
  then stripFenceEnd (stripFenceStart jsonText)
  else jsonText.

Fixpoint fromFirst (c : N) (s : jsstring) : option jsstring :=
  match s with
  | [] => None
  | x :: r => if (x =? c)%N then Some s else fromFirst c r
  end.

Definition uptoLast (c : N) (s : jsstring) : option jsstring :=
  option_map (@rev N) (fromFirst c (rev s)).

(** [jsonText.match(/\[[\s\S]*\]/)]: from the first opening bracket to the
    last closing bracket after it. *)
Definition matchArray (jsonText : jsstring) : option jsstring :=
  match fromFirst 91 jsonText with
  | Some (open :: rest) =>
      match uptoLast 93 rest with
      | Some body => Some (open :: body)
      | None => None
      end
  | _ => None
  end.

(** Lines 193-206: what [extractMemories] makes of the model's output. *)
Definition parseResponse (stdout : jsstring) : result (list value) :=
  let jsonText := stripFences (trim stdout) in
  match matchArray jsonText with
  | None => Ok []
  | Some m =>
      andThen (JSON_parse m) (fun memories =>
      Ok (match memories with VArr l => l | _ => [] end))
  end.

(** *** The parser *)

Definition isTextBlock (c : value) : result bool :=
  andThen (prop c "type") (fun t =>
  if strictEq t "text"
  then andThen (prop c "text") (fun x => Ok (truthy x))
  else Ok false).

Definition messageText (msg : value) : result jsstring :=
  andThen (prop msg "content") (fun content =>
  match content with
  | VStr s => Ok s
  | VArr blocks =>
      andThen (filterR isTextBlock blocks) (fun kept =>
      andThen (mapR (fun c => prop c "text") kept) (fun texts =>
      joinR nl texts))
  | _ => Ok []
  end).

(** The body of the [try] for one line: the entry it pushes, if any. *)
Definition parseLine (line : jsstring) : result (option entry) :=
  andThen (JSON_parse line) (fun ent =>
  andThen (prop ent "type") (fun ty =>
  if strictEq ty "message" then
    andThen (prop ent "message") (fun msg =>
    if truthy msg then
      andThen (messageText msg) (fun t =>
      andThen (prop msg "role") (fun r =>
      if nonempty (trim t) && (strictEq r "user" || strictEq r "assistant")
      then Ok (Some {| role := if strictEq r "user" then user else assistant;
                       text := slice0 2000 t |})
      else Ok None))
    else Ok None)
  else Ok None)).

Definition isUser (r : Role) : bool :=
  match r with user => true | assistant => false end.

Fixpoint parseLines (lines : list jsstring) (entries : list entry)
  (turnCount : nat) : list entry * nat :=
  match lines with
  | [] => (entries, turnCount)
  | line :: rest =>
      match parseLine line with
      | Ok (Some en) =>
          parseLines rest (entries ++ [en])
                     (if isUser (role en) then S turnCount else turnCount)
      | Ok None | Throw _ => parseLines rest entries turnCount
      end
  end.

Definition parseContent (content : jsstring) : list entry * nat :=
  parseLines (filter nonempty (split LF content)) [] 0.

Definition upper (r : Role) : jsstring :=
  match r with user => str "USER" | assistant => str "ASSISTANT" end.

Definition formatConversation (entries : list entry) : jsstring :=
  join (nl ++ nl) (map (fun en => upper (role en) ++ str ": " ++ text en) entries).

Definition quoted (s : string) : jsstring := DQ :: str s ++ [DQ].

Definition extractionPrompt (truncatedConversation : jsstring) : jsstring :=
  str "Analyze this coding session and extract important learnings.

Extract ONLY:
- Decisions (architecture, tools, approaches)
- Insights (gotchas, bugs, findings)
- Patterns (preferences, style, habits)
- Context (project structure, constraints)

Skip routine tool usage and file reads.

For each memory provide: content (1-2 sentences), type (Decision/Insight/Pattern/Preference/Context), importance (0.5-1.0), tags (array).

<conversation>
" ++ truncatedConversation ++ str "
</conversation>

Respond with ONLY a JSON array. Example: [{" ++ quoted "content" ++ str ": "
  ++ quoted "Chose PostgreSQL" ++ str ", " ++ quoted "type" ++ str ": "
  ++ quoted "Decision" ++ str ", " ++ quoted "importance" ++ str ": 0.8, "
  ++ quoted "tags" ++ str ": [" ++ quoted "db" ++ str "]}]
If nothing worth remembering, respond with []".

Definition killed (err : error) : bool :=
  match err with
  | SystemError _ k => k
  | _ => false
  end.

Section Script.

Variable cfg : config.
Variable e : env.

Definition debug (l : logline) : M unit :=
  if verbose cfg then log l else ret tt.

Definition markSessionProcessed (sessionPath : jsstring) : M unit :=
  if negb (dryRun cfg) then appendLedger e (sessionPath ++ nl) else ret tt.

(** *** Discovery *)

(** The [for] loop of [scanDir]; [true] in an entry's result means that
    handling the entry threw, which ends the loop: the [catch] of the
    enclosing [scanDir] swallows the error and the sessions pushed so far
    stay in the shared array. *)
Definition scanLoop (scanEntry : dirent -> list session -> list session * bool)
  : list dirent -> list session -> list session :=
  fix loop (entries : list dirent) (sessions : list session) : list session :=
    match entries with
    | [] => sessions
    | d :: rest =>
        let '(sessions', threw) := scanEntry d sessions in
        if threw then sessions' else loop rest sessions'
    end.

(** [stat.mtimeMs >= cutoff]; a comparison with [NaN] is false. *)
Definition recent (cutoff : option Z) (m : Z) : bool :=
  match cutoff with
  | Some c => (c <=? m)%Z
  | None => false
  end.

Fixpoint scanEntry (cutoff : option Z) (dir : jsstring) (d : dirent)
  (sessions : list session) {struct d} : list session * bool :=
  match d with
  | Directory nm listing =>
      if negb (streq nm (str "subagent-artifacts")) then
        (* scanDir(fullPath): its own try/catch, never throws *)
        (match listing with
         | Some entries =>
             scanLoop (scanEntry cutoff (pathJoin dir nm)) entries sessions
         | None => sessions
         end, false)
      else
        (* the reserved name does not end in ".jsonl" *)
        (sessions, false)
  | File nm stat =>
      if endsWith (str ".jsonl") nm then
        match stat with
        | None => (sessions, true)
        | Some m =>
            if recent cutoff m
            then (sessions ++ [{| path := pathJoin dir nm; mtime := Some m;
                                  name := nm |}], false)
            else (sessions, false)
        end
      else (sessions, false)
  end.

Definition scanDir (cutoff : option Z) (dir : jsstring)
  (listing : option (list dirent)) (sessions : list session) : list session :=
  match listing with
  | Some entries => scanLoop (scanEntry cutoff dir) entries sessions
  | None => sessions
  end.

(** [(a, b) => b.mtime - a.mtime] is positive: [b] goes first. *)
Definition newer (b a : session) : bool :=
  match mtime b, mtime a with
  | Some mb, Some ma => (ma <? mb)%Z
  | _, _ => false
  end.

(** [Array.prototype.sort] is stable; insertion from the right gives the
    one stable arrangement. *)
Fixpoint insertSession (a : session) (l : list session) : list session :=
  match l with
  | [] => [a]
  | b :: r => if newer b a then b :: insertSession a r else a :: l
  end.

Definition sortSessions (l : list session) : list session :=
  fold_right insertSession [] l.

Definition findRecentSessions (baseDir : jsstring) (hoursAgo : option Z)
  : list session :=
  let cutoff := option_map (fun h => now e - h * 60 * 60 * 1000)%Z hoursAgo in
  sortSessions (scanDir cutoff baseDir (sessionsListing e) []).

(** *** Parse, extract, store *)

Definition parseSession (sessionPath : jsstring) : M (list entry * nat) :=
  content <- lift (readFileSync e sessionPath) ;;
  ret (parseContent content).

(** [execSync] of pi with the prompt (delivered through a temporary file
    that the [finally] removes; the file itself is not modelled). *)
Definition execPi (prompt : jsstring) : M jsstring :=
  fun w =>
    (pi e (List.length (prompts w)) prompt,
     {| ledger := ledger w; posts := posts w;
        prompts := prompts w ++ [prompt]; console := console w |}).

Definition extractMemories (conversationText : jsstring) : M (list value) :=
  let truncatedConversation := slice0 15000 conversationText in
  try_catch
    (stdout <- execPi (extractionPrompt truncatedConversation) ;;
     lift (parseResponse stdout))
    (fun err =>
       if killed err
       then throw (Error (str "Extraction timed out after 90s"))
       else throw err).

Definition orEmpty (tags : value) : value :=
  if truthy tags then tags else VArr [].

Definition batchRequest (content type importance : value) (tags : list value)
  (sessionPath : jsstring) : request :=
  {| r_content := content; r_type := type; r_importance := importance;
     r_tags := tags ++ [VStr (str "auto-extracted");
                        VStr (str "compound-review")];
     r_metadata := [(str "source", VStr (str "compound-review"));
                    (str "session_file", VStr sessionPath)] |}.

Definition storeMemory (memory : value) (sessionPath : jsstring) : M value :=
  content <- lift (prop memory "content") ;;
  type <- lift (prop memory "type") ;;
  importance <- lift (prop memory "importance") ;;
  tags <- lift (prop memory "tags") ;;
  tags' <- lift (spread (orEmpty tags)) ;;
  response <- postMemory e
    (batchRequest content type importance tags' sessionPath) ;;
  match response with
  | Rejected err => throw err
  | Response ok body =>
      if negb ok then throw (Error (str "AutoMem error: " ++ body))
      else lift (JSON_parse body)
  end.

(** The dry-run listing of one memory. *)
Definition previewMemory (m : value) : M unit :=
  type <- lift (prop m "type") ;;
  lift (toStringCheck type) ;;;
  content <- lift (prop m "content") ;;
  lift (toStringCheck content) ;;;
  log (LogDryRunMemory type content) ;;;
  importance <- lift (prop m "importance") ;;
  lift (toStringCheck importance) ;;;
  tags <- lift (prop m "tags") ;;
  match orEmpty tags with
  | VArr l =>
      joined <- lift (joinR (str ", ") l) ;;
      log (LogDryRunDetail importance joined)
  | _ => throw (TypeError (str "join is not a function"))
  end.

(** Lines 279-290: one [try]/[catch] around each store call. *)
Fixpoint storeAll (memories : list value) (sessionPath : jsstring)
  (stored failed : nat) : M (nat * nat) :=
  match memories with
  | [] => ret (stored, failed)
  | memory :: rest =>
      counts <- try_catch
        (storeMemory memory sessionPath ;;; ret (S stored, failed))
        (fun err => log (LogFailedToStore err) ;;; ret (stored, S failed)) ;;
      storeAll rest sessionPath (fst counts) (snd counts)
  end.

Definition processSession (sessionPath : jsstring) : M sessionResult :=
  log (LogProcessing (basename sessionPath)) ;;;
  parsed <- parseSession sessionPath ;;
  let '(entries, turnCount) := parsed in
  if turnCount <? 3 then
    debug (LogDebugSkipping turnCount) ;;; ret TooShort
  else
    let conversationText := formatConversation entries in
    debug (LogDebugLength (List.length conversationText)) ;;;
    memories <- extractMemories conversationText ;;
    debug (LogDebugExtracted (List.length memories)) ;;;
    if List.length memories =? 0 then ret NoMemories
    else if dryRun cfg then
      log LogDryRunHeader ;;;
      mapM_ previewMemory memories ;;;
      ret (DryRunPreview (List.length memories))
    else
      counts <- storeAll memories sessionPath 0 0 ;;
      ret (Stored (List.length memories) (fst counts) (snd counts)).

(** *** Main *)

Definition truthyArg (a : option jsstring) : option jsstring :=
  match a with
  | Some s => if nonempty s then Some s else None
  | None => None
  end.

Definition sessionsDir : jsstring := pathJoin (homedir e) (str ".pi/agent/sessions").

(** Lines 327-335. *)
Definition selectSessions : M (list session) :=
  match truthyArg (specificSession cfg) with
  | Some p => ret [{| path := p; mtime := None; name := basename p |}]
  | None =>
      let sessions := findRecentSessions sessionsDir (hours cfg) in
      log (LogFound (List.length sessions) (hours cfg)) ;;;
      ret sessions
  end.

(** Lines 337-339. *)
Definition toProcess (processed : list jsstring) (sessions : list session)
  : list session :=
  filter (fun s => negb (has processed (path s))) sessions.

(** Lines 351-363: one iteration. *)
Definition reviewSession (s : session) (totals : nat * nat) : M (nat * nat) :=
  try_catch
    (result <- processSession (path s) ;;
     if negb (skipped result) then
       markSessionProcessed (path s) ;;;
       ret (fst totals + memoriesOf result, snd totals + storedOf result)
     else ret totals)
    (fun err => log (LogErrorProcessing (name s) err) ;;; ret totals).

Fixpoint reviewAll (sessions : list session) (totals : nat * nat)
  : M (nat * nat) :=
  match sessions with
  | [] => ret totals
  | s :: rest =>
      totals' <- reviewSession s totals ;;
      reviewAll rest totals'
  end.

(** Lines 314-325: [true] when the store answers the liveness probe. *)
Definition checkHealth : M bool :=
  try_catch
    (match fetchHealth e with
     | Rejected err => throw err
     | Response ok body =>
         if negb ok then throw (Error (str "unhealthy"))
         else
           data <- lift (JSON_parse body) ;;
           status <- lift (prop data "status") ;;
           lift (toStringCheck status) ;;;
           count <- lift (prop data "memory_count") ;;
           lift (toStringCheck count) ;;;
           log (LogHealth status count) ;;; ret true
     end)
    (fun _ => log ErrCannotConnect ;;; ret false).

Definition main : M exit :=
  log LogBanner ;;;
  match truthyArg (AUTOMEM_TOKEN cfg) with
  | None => log ErrTokenNotSet ;;; ret (Exit 1)
  | Some _ =>
      if negb (piVersion e) then log ErrPiNotFound ;;; ret (Exit 1)
      else
        healthy <- checkHealth ;;
        if negb healthy then ret (Exit 1)
        else
          sessions <- selectSessions ;;
          processed <- getProcessedSessions e ;;
          let todo := toProcess processed sessions in
          log (LogNotYetProcessed (List.length todo)) ;;;
          match todo with
          | [] => log LogNothingToProcess ;;; ret Returned
          | _ :: _ =>
              totals <- reviewAll todo (0, 0) ;;
              log (LogSummary (List.length todo) (fst totals)
                     (if dryRun cfg then None else Some (snd totals))) ;;;
              ret Returned
          end
  end.

(** Lines 373-376: [main().catch(...)]. *)
Definition run : M exit :=
  try_catch main (fun err => log (ErrFatal err) ;;; ret (Exit 1)).

End Script.

End Batch.

(** ** The live hook: the session-shutdown half of the AutoMem extension

    TypeScript's annotations are erased at run time: [data?: unknown] and
    the cast of [JSON.parse]'s result to [ExtractedMemory[]] check nothing,
    so both are plain values here. *)

Module Live.
Import Js Json Host.
Local Open Scope js_scope.

Record config : Type := {
  AUTOMEM_TOKEN : option jsstring;
  GEMINI_API_KEY : option jsstring
}.

(** An element of [ctx.sessionManager.getEntries()]:
    [{ type: string; data?: unknown }]. *)
Record sessionEntry : Type := {
  type : jsstring;
  data : value
}.

Definition falsyArg (a : option jsstring) : bool :=
  match a with
  | Some s => negb (nonempty s)
  | None => true
  end.

(** Lines 125-133: the text of a message content. *)
Definition contentText (content : value) : result jsstring :=
  match content with
  | VStr s => Ok s
  | VArr blocks =>
      andThen (filterR Batch.isTextBlock blocks) (fun kept =>
      andThen (mapR (fun c => prop c "text") kept) (fun texts =>
      joinR nl texts))
  | _ => Ok []
  end.

(** [text.length > 2000 ? text.slice(0, 2000) + "..." : text]. *)
Definition truncateAssistant (t : jsstring) : jsstring :=
  if 2000 <? List.length t then slice0 2000 t ++ str "..." else t.

(** One iteration of the loop of [extractConversationText]: the line it
    pushes, if any, and whether it counts a turn. *)
Definition conversationLine (en : sessionEntry) : result (option (jsstring * bool)) :=
  if negb (streq (type en) (str "message")) || negb (truthy (data en))
  then Ok None
  else
    let msg := data en in
    andThen (prop msg "role") (fun r =>
    andThen (prop msg "content") (fun content =>
    if negb (truthy r) || negb (truthy content) then Ok None
    else
      andThen (contentText content) (fun t =>
      if negb (nonempty (trim t)) then Ok None
      else if strictEq r "user" then Ok (Some (str "USER: " ++ t, true))
      else if strictEq r "assistant"
           then Ok (Some (str "ASSISTANT: " ++ truncateAssistant t, false))
      else Ok None))).

Fixpoint conversationLines (entries : list sessionEntry)
  (lines : list jsstring) (turnCount : nat) : result (list jsstring * nat) :=
  match entries with
  | [] => Ok (lines, turnCount)
  | en :: rest =>
      andThen (conversationLine en) (fun pushed =>
      match pushed with
      | Some (line, turn) =>
          conversationLines rest (lines ++ [line])
                            (if turn then S turnCount else turnCount)
      | None => conversationLines rest lines turnCount
      end)
  end.

(** Returns [{ text, turnCount }]. *)
Definition extractConversationText (entries : list sessionEntry)
  : result (jsstring * nat) :=
  andThen (conversationLines entries [] 0) (fun r =>
  Ok (join (nl ++ nl) (fst r), snd r)).

Definition extractionPrompt (conversation : jsstring) : jsstring :=
  str "Analyze this coding session conversation and extract important learnings that should persist across sessions.

Extract ONLY items that are:
- Decisions made (architecture, tools, approaches chosen)
- Insights discovered (gotchas, bugs found, performance findings)
- Patterns identified (user preferences, coding style, workflow habits)
- Important context (project structure, constraints, requirements)

Skip routine tool usage, file reads, and implementation details unless they reveal something reusable.

For each memory, provide:
- content: A clear, self-contained statement (1-2 sentences)
- type: One of Decision, Insight, Pattern, Preference, Context
- importance: 0.5-1.0 (1.0 = critical to remember, 0.5 = nice to have)
- tags: Relevant tags for filtering (e.g., " ++ Batch.quoted "typescript"
  ++ str ", " ++ Batch.quoted "testing" ++ str ", "
  ++ Batch.quoted "architecture" ++ str ")

<conversation>
" ++ conversation ++ str "
</conversation>

Respond ONLY with a valid JSON array of memories. If nothing worth remembering, respond with [].
Example: [{" ++ Batch.quoted "content" ++ str ": "
  ++ Batch.quoted "User prefers dark mode" ++ str ", "
  ++ Batch.quoted "type" ++ str ": " ++ Batch.quoted "Preference" ++ str ", "
  ++ Batch.quoted "importance" ++ str ": 0.6, " ++ Batch.quoted "tags"
  ++ str ": [" ++ Batch.quoted "ui" ++ str ", " ++ Batch.quoted "preferences"
  ++ str "]}]".

(** [data.candidates?.[0]?.content?.parts?.[0]?.text || ""]. *)
Definition candidateText (data : value) : result value :=
  andThen (prop data "candidates") (fun candidates =>
  let t := optProp (optFirst (optProp (optProp (optFirst candidates)
                                                "content") "parts")) "text" in
  Ok (if truthy t then t else VStr [])).

(** [text.trim()]: only a string has the method. *)
Definition trimValue (t : value) : result jsstring :=
  match t with
  | VStr s => Ok (trim s)
  | _ => Throw (TypeError (str "trim is not a function"))
  end.

(** Lines 206-216: from the decoded reply to the memories. *)
Definition parseReply (data : value) : result (list value) :=
  andThen (candidateText data) (fun t =>
  andThen (trimValue t) (fun trimmed =>
  andThen (JSON_parse (Batch.stripFences trimmed)) (fun memories =>
  Ok (match memories with VArr l => l | _ => [] end)))).

Section Extension.

Variable cfg : config.
Variable e : env.

Definition callGeminiForExtraction (conversationText : jsstring)
  : M (list value) :=
  if falsyArg (GEMINI_API_KEY cfg) then log ErrNoGeminiKey ;;; ret []
  else
    try_catch
      (response <- askModel (fetchGemini e)
                     (extractionPrompt (slice0 30000 conversationText)) ;;
       match response with
       | Rejected err => throw err
       | Response ok body =>
           if negb ok then log (ErrGeminiApi body) ;;; ret []
           else
             data <- lift (JSON_parse body) ;;
             lift (parseReply data)
       end)
      (fun err => log (ErrExtractionFailed err) ;;; ret []).

Definition liveRequest (content type importance : value) (tags : list value)
  (sessionId sessionFile : value) (cwd : jsstring) : request :=
  {| r_content := content; r_type := type; r_importance := importance;
     r_tags := tags ++ [VStr (str "auto-extracted")];
     r_metadata := [(str "source", VStr (str "session-extraction"));
                    (str "session_id", sessionId);
                    (str "session_file", sessionFile);
                    (str "cwd", VStr cwd)] |}.

(** [automemRequest("/memory", { method: "POST", body })]. *)
Definition automemRequest (r : request) : M fetched :=
  if falsyArg (AUTOMEM_TOKEN cfg)
  then throw (Error (str "AUTOMEM_TOKEN environment variable is required"))
  else postMemory e r.

(** The body of the [try] for one memory: [true] when [response.ok]. *)
Definition storeOne (memory : value) (sessionId sessionFile : value)
  (cwd : jsstring) : M bool :=
  content <- lift (prop memory "content") ;;
  type <- lift (prop memory "type") ;;
  importance <- lift (prop memory "importance") ;;
  tags <- lift (prop memory "tags") ;;
  tags' <- lift (spread tags) ;;
  response <- automemRequest
    (liveRequest content type importance tags' sessionId sessionFile cwd) ;;
  match response with
  | Rejected err => throw err
  | Response ok _ => ret ok
  end.

Fixpoint storeLoop (memories : list value) (sessionId sessionFile : value)
  (cwd : jsstring) (stored failed : nat) : M (nat * nat) :=
  match memories with
  | [] => ret (stored, failed)
  | memory :: rest =>
      counts <- try_catch
        (ok <- storeOne memory sessionId sessionFile cwd ;;
         ret (if ok then (S stored, failed) else (stored, S failed)))
        (fun _ => ret (stored, S failed)) ;;
      storeLoop rest sessionId sessionFile cwd (fst counts) (snd counts)
  end.

(** Returns [{ stored, failed }]. *)
Definition storeExtractedMemories (memories : list value)
  (sessionId sessionFile : value) (cwd : jsstring) : M (nat * nat) :=
  storeLoop memories sessionId sessionFile cwd 0 0.

End Extension.

End Live.

(** ** Vocabulary of the properties *)

Module Spec.
Import Js Json Host.

(** The non-empty lines of a text. *)
Definition textLines (c : jsstring) : list jsstring :=
  filter nonempty (split LF c).

(** What [getProcessedSessions] reads from a world. *)
Definition ledgerLines (w : world) : list jsstring :=
  match ledger w with
  | Some c => textLines c
  | None => []
  end.

Definition inLedger (w : world) (p : jsstring) : bool :=
  Batch.has (ledgerLines w) p.

(** A ledger file as the script leaves it: absent, empty, or ending in a
    line feed. *)
Definition closedText (c : jsstring) : Prop :=
  c = [] \/ exists c', c = c' ++ [LF].

Definition closed (w : world) : Prop :=
  match ledger w with
  | Some c => closedText c
  | None => True
  end.

(** A path that fits on one ledger line. *)
Definition singleLine (p : jsstring) : Prop := p <> [] /\ ~ In LF p.

Definition marked (p : jsstring) (w : world) : Prop :=
  closed w /\ inLedger w p = true.

(** The sessions [main] starts from (lines 327-335), without the log line. *)
Definition selected (cfg : Batch.config) (e : env) : list Batch.session :=
  match Batch.truthyArg (Batch.specificSession cfg) with
  | Some p => [{| Batch.path := p; Batch.mtime := None;
                  Batch.name := Batch.basename p |}]
  | None => Batch.findRecentSessions e (Batch.sessionsDir e) (Batch.hours cfg)
  end.

(** The sessions [main] goes on to process: [toProcess] of line 339. *)
Definition planned (cfg : Batch.config) (e : env) (w : world)
  : list Batch.session :=
  Batch.toProcess (ledgerLines w) (selected cfg e).

(** The world after one more console line. *)
Definition say (w : world) (l : logline) : world :=
  {| ledger := ledger w; posts := posts w; prompts := prompts w;
     console := console w ++ [l] |}.

(** Only the console differs. *)
Definition quiet (w w' : world) : Prop :=
  ledger w' = ledger w /\ posts w' = posts w /\ prompts w' = prompts w.

(** A computation whose every run relates the world before to the world
    after by [R], whether it returns or throws. *)
Definition keeps {A} (R : world -> world -> Prop) (m : M A) : Prop :=
  forall w, R w (snd (m w)).

(** What the store calls and the ledger write of one session must obey for
    [R] to hold across the session. *)
Definition postsKeep (R : world -> world -> Prop) (e : env) (sp : jsstring)
  : Prop :=
  forall c t i tags, keeps R (postMemory e (Batch.batchRequest c t i tags sp)).

Definition markKeeps (R : world -> world -> Prop) (e : env) (sp : jsstring)
  : Prop :=
  keeps R (appendLedger e (sp ++ nl)).

(** A store request issued for the session file [p]. *)
Definition fromSession (p : jsstring) (r : request) : Prop :=
  In (str "session_file", VStr p) (r_metadata r).


(** The transcript entries that a scan of [entries], listed in directory
    [dir], is expected to report: every non-directory entry named
    [*.jsonl] that is recent enough, here and in every readable
    subdirectory other than [subagent-artifacts]. *)
Inductive Listed (cutoff : option Z) : jsstring -> list dirent ->
  Batch.session -> Prop :=
| Listed_here : forall dir entries nm m,
    In (File nm (Some m)) entries ->
    endsWith (str ".jsonl") nm = true ->
    Batch.recent cutoff m = true ->
    Listed cutoff dir entries
      {| Batch.path := Batch.pathJoin dir nm; Batch.mtime := Some m;
         Batch.name := nm |}
| Listed_below : forall dir entries nm sub s,
    In (Directory nm (Some sub)) entries ->
    streq nm (str "subagent-artifacts") = false ->
    Listed cutoff (Batch.pathJoin dir nm) sub s ->
    Listed cutoff dir entries s.

(** Every [statSync] of the tree succeeds. *)
Fixpoint statsOk (d : dirent) : Prop :=
  match d with
  | File _ stat => stat <> None
  | Directory _ (Some entries) =>
      (fix all (l : list dirent) : Prop :=
         match l with
         | [] => True
         | d' :: r => statsOk d' /\ all r
         end) entries
  | Directory _ None => True
  end.

(** A session that carries a modification time. *)
Definition dated (s : Batch.session) : Prop := Batch.mtime s <> None.

(** [a.mtime >= b.mtime], both present. *)
Definition notOlder (a b : Batch.session) : Prop :=
  match Batch.mtime a, Batch.mtime b with
  | Some ma, Some mb => (mb <= ma)%Z
  | _, _ => False
  end.

(** The session [main] builds for [--session p]. *)
Definition named (p : jsstring) : Batch.session :=
  {| Batch.path := p; Batch.mtime := None; Batch.name := Batch.basename p |}.

(** Across a step, a path that is in the ledger stays in it, and no store
    request is issued for it. *)
Definition settled (p : jsstring) (w w' : world) : Prop :=
  (marked p w -> marked p w')
  /\ exists extra, posts w' = posts w ++ extra
                   /\ Forall (fun r => ~ fromSession p r) extra.

(** The world after one more prompt has gone to a model. *)
Definition asked (w : world) (prompt : jsstring) : world :=
  {| ledger := ledger w; posts := posts w;
     prompts := prompts w ++ [prompt]; console := console w |}.

(** What [extractMemories] ends in, given pi's outcome. *)
Definition extraction (piOutcome : result jsstring) : result (list value) :=
  match piOutcome with
  | Ok stdout => Batch.parseResponse stdout
  | Throw err =>
      Throw (if Batch.killed err
             then Error (str "Extraction timed out after 90s") else err)
  end.

(** One iteration of the store loop of [processSession]: whether the
    memory was stored, and the world afterwards. *)
Definition storeStep (e : env) (memory : value) (sp : jsstring) (w : world)
  : bool * world :=
  match Batch.storeMemory e memory sp w with
  | (Ok _, w') => (true, w')
  | (Throw err, w') => (false, say w' (LogFailedToStore err))
  end.

Fixpoint storeOutcomes (e : env) (memories : list value) (sp : jsstring)
  (w : world) : list bool :=
  match memories with
  | [] => []
  | m :: rest =>
      let '(ok, w') := storeStep e m sp w in
      ok :: storeOutcomes e rest sp w'
  end.

(** The same for the loop of [storeExtractedMemories]. *)
Definition liveStep (cfg : Live.config) (e : env) (memory : value)
  (sessionId sessionFile : value) (cwd : jsstring) (w : world)
  : bool * world :=
  match Live.storeOne cfg e memory sessionId sessionFile cwd w with
  | (Ok ok, w') => (ok, w')
  | (Throw _, w') => (false, w')
  end.

Fixpoint liveOutcomes (cfg : Live.config) (e : env) (memories : list value)
  (sessionId sessionFile : value) (cwd : jsstring) (w : world) : list bool :=
  match memories with
  | [] => []
  | m :: rest =>
      let '(ok, w') := liveStep cfg e m sessionId sessionFile cwd w in
      ok :: liveOutcomes cfg e rest sessionId sessionFile cwd w'
  end.

(** The request [storeMemory] sends for a memory, when it gets as far as
    sending one: reading a property of [null] or [undefined] throws before
    the call, and so does spreading tags that are not iterable. *)
Definition batchBody (sp : jsstring) (m : value) : option request :=
  match m with
  | VUndefined | VNull => None
  | VObj fs =>
      match spread (Batch.orEmpty (lookup (str "tags") fs)) with
      | Ok tags =>
          Some (Batch.batchRequest (lookup (str "content") fs)
                  (lookup (str "type") fs) (lookup (str "importance") fs)
                  tags sp)
      | Throw _ => None
      end
  | _ => Some (Batch.batchRequest VUndefined VUndefined VUndefined [] sp)
  end.

(** The same for [storeExtractedMemories], which spreads the tags without
    a default and refuses to call without a token. *)
Definition liveBody (cfg : Live.config) (sessionId sessionFile : value)
  (cwd : jsstring) (m : value) : option request :=
  if Live.falsyArg (Live.AUTOMEM_TOKEN cfg) then None
  else
    match m with
    | VObj fs =>
        match spread (lookup (str "tags") fs) with
        | Ok tags =>
            Some (Live.liveRequest (lookup (str "content") fs)
                    (lookup (str "type") fs) (lookup (str "importance") fs)
                    tags sessionId sessionFile cwd)
        | Throw _ => None
        end
    | _ => None
    end.

(** The requests of a sequence of memories, in order. *)
Definition bodies (body : value -> option request) (ms : list value)
  : list request :=
  flat_map (fun m => match body m with Some r => [r] | None => [] end) ms.

(** The answers that make a store call count as stored: on the batch path
    an ok response whose body is JSON ([storeMemory] returns
    [response.json()]), on the live path an ok response. *)
Definition batchStored (f : fetched) : bool :=
  match f with
  | Response true body =>
      match JSON_parse body with Ok _ => true | Throw _ => false end
  | _ => false
  end.

Definition liveStored (f : fetched) : bool :=
  match f with
  | Response ok _ => ok
  | Rejected _ => false
  end.

Definition successes (l : list bool) : nat := count_occ bool_dec l true.
Definition failures (l : list bool) : nat := count_occ bool_dec l false.

(** Neither the ledger nor the store is touched. *)
Definition untouched (w w' : world) : Prop :=
  ledger w' = ledger w /\ posts w' = posts w.

End Spec.

(** ** Concrete scenarios, used to exercise the properties *)

Module Scenario.
Import Js Json Host.

Definition q := Batch.quoted.

(** One transcript record of kind [message] with a plain-string content. *)
Definition messageLine (role content : jsstring) : jsstring :=
  str "{" ++ q "type" ++ str ":" ++ q "message" ++ str ","
  ++ q "message" ++ str ":{" ++ q "role" ++ str ":" ++ [DQ] ++ role ++ [DQ]
  ++ str "," ++ q "content" ++ str ":" ++ [DQ] ++ content ++ [DQ] ++ str "}}".

(** Four user turns and four assistant turns. *)
Definition transcript : jsstring :=
  join nl
    [messageLine (str "user") (str "use postgres for the new service");
     messageLine (str "assistant") (str "ok, adding a postgres container");
     messageLine (str "user") (str "prefer tabs over spaces here");
     messageLine (str "assistant") (str "switched the formatter to tabs");
     messageLine (str "user") (str "run the tests");
     messageLine (str "assistant") (str "all tests pass");
     messageLine (str "user") (str "commit it");
     messageLine (str "assistant") (str "committed");
     []].

(** A transcript with two user turns only. *)
Definition shortTranscript : jsstring :=
  join nl
    [messageLine (str "user") (str "hello");
     messageLine (str "assistant") (str "hi");
     messageLine (str "user") (str "bye");
     []].

(** A model reply with two well-formed memories, fenced. *)
Definition twoMemories : jsstring :=
  str "```json
[{" ++ q "content" ++ str ": " ++ q "Chose PostgreSQL" ++ str ", "
  ++ q "type" ++ str ": " ++ q "Decision" ++ str ", "
  ++ q "importance" ++ str ": 0.8, " ++ q "tags" ++ str ": [" ++ q "db"
  ++ str "]}, {" ++ q "content" ++ str ": " ++ q "Prefers tabs" ++ str ", "
  ++ q "type" ++ str ": " ++ q "Preference" ++ str ", "
  ++ q "importance" ++ str ": 0.6, " ++ q "tags" ++ str ": []}]
```".

Definition sessionPath : jsstring :=
  str "/home/dev/.pi/agent/sessions/proj/s1.jsonl".

Definition enoent : error := SystemError (str "ENOENT") false.

(** A healthy host with one recent transcript, a model that answers
    [reply] and a store that accepts everything. *)
Definition host (content reply : jsstring) : env :=
  {| now := 1700000000000;
     homedir := str "/home/dev";
     sessionsListing :=
       Some [Directory (str "proj")
               (Some [File (str "s1.jsonl") (Some 1699999000000%Z)])];
     readFileSync := fun p => if streq p sessionPath then Ok content
                              else Throw enoent;
     piVersion := true;
     pi := fun _ _ => Ok reply;
     fetchHealth := Response true (str "{" ++ q "status" ++ str ":"
                                   ++ q "ok" ++ str "," ++ q "memory_count"
                                   ++ str ":3}");
     fetchMemory := fun _ _ => Response true (str "{" ++ q "status" ++ str ":"
                                              ++ q "success" ++ str "}");
     fetchGemini := fun _ _ => Rejected (Error (str "offline"));
     ledgerUnreadable := None;
     appendFileSync := fun _ _ => None |}.

Definition nightly (dry : bool) : Batch.config :=
  {| Batch.AUTOMEM_TOKEN := Some (str "secret");
     Batch.hours := Some 24%Z;
     Batch.dryRun := dry;
     Batch.specificSession := None;
     Batch.verbose := false |}.

Definition fresh : world :=
  {| ledger := None; posts := []; prompts := []; console := [] |}.

(** A world whose ledger file holds [text]. *)
Definition withLedger (text : jsstring) : world :=
  {| ledger := Some text; posts := []; prompts := []; console := [] |}.

(** The command line [--session <path>]. *)
Definition only (p : jsstring) : Batch.config :=
  {| Batch.AUTOMEM_TOKEN := Some (str "secret");
     Batch.hours := Some 24%Z;
     Batch.dryRun := false;
     Batch.specificSession := Some p;
     Batch.verbose := false |}.

(** A transcript whose file name holds a line feed. *)
Definition oddName : jsstring := str "a
b.jsonl".

Definition oddPath : jsstring :=
  str "/home/dev/.pi/agent/sessions/proj/" ++ oddName.

Definition oddHost (content reply : jsstring) : env :=
  {| now := 1700000000000;
     homedir := str "/home/dev";
     sessionsListing :=
       Some [Directory (str "proj")
               (Some [File oddName (Some 1699999000000%Z)])];
     readFileSync := fun p => if streq p oddPath then Ok content
                              else Throw enoent;
     piVersion := true;
     pi := fun _ _ => Ok reply;
     fetchHealth := fetchHealth (host content reply);
     fetchMemory := fetchMemory (host content reply);
     fetchGemini := fetchGemini (host content reply);
     ledgerUnreadable := None;
     appendFileSync := fun _ _ => None |}.

(** Model replies. *)
Definition notJson : jsstring := str "not json".
Definition looseArray : jsstring :=
  str "[{" ++ q "importance" ++ str ": " ++ q "high" ++ str "}]".

(** A Gemini reply body whose first candidate's first part is [text]. *)
Definition geminiData (text : jsstring) : value :=
  VObj [(str "candidates",
         VArr [VObj [(str "content",
                      VObj [(str "parts",
                             VArr [VObj [(str "text", VStr text)]])])]])].

Definition liveConfig : Live.config :=
  {| Live.AUTOMEM_TOKEN := Some (str "secret");
     Live.GEMINI_API_KEY := Some (str "key") |}.

(** A live-path entry: a message with the given role and a string content. *)
Definition liveMessage (role : string) (content : jsstring)
  : Live.sessionEntry :=
  {| Live.type := str "message";
     Live.data := VObj [(str "role", VStr (str role));
                        (str "content", VStr content)] |}.

Definition longText : jsstring := repeat 97%N 5000.

(** A transcript of one user message of 5000 characters, and the entry the
    batch parser makes of it. *)
Definition longTranscript : jsstring := messageLine (str "user") longText.

Definition cutEntry : Batch.entry :=
  {| Batch.role := Batch.user; Batch.text := repeat 97%N 2000 |}.

(** A host whose only transcript was modified one minute after [now]. *)
Definition lateHost : env :=
  {| now := 1700000000000;
     homedir := str "/home/dev";
     sessionsListing := Some [File (str "late.jsonl") (Some 1700000060000%Z)];
     readFileSync := fun _ => Throw enoent;
     piVersion := true;
     pi := fun _ _ => Ok notJson;
     fetchHealth := Rejected (Error (str "offline"));
     fetchMemory := fun _ _ => Rejected (Error (str "offline"));
     fetchGemini := fun _ _ => Rejected (Error (str "offline"));
     ledgerUnreadable := None;
     appendFileSync := fun _ _ => None |}.

Definition listing : list dirent :=
  [Directory (str "proj")
     (Some [File (str "s1.jsonl") (Some 1699999000000%Z)])].

(** A store that rejects its second request and accepts the others. *)
Definition flakyHost : env :=
  {| now := 1700000000000;
     homedir := str "/home/dev";
     sessionsListing := Some listing;
     readFileSync := fun p => if streq p sessionPath then Ok transcript
                              else Throw enoent;
     piVersion := true;
     pi := fun _ _ => Ok twoMemories;
     fetchHealth := fetchHealth (host transcript twoMemories);
     fetchMemory := fun n _ =>
       if (n =? 1)%nat then Response false (str "boom")
       else Response true (str "{}");
     fetchGemini := fun _ _ => Rejected (Error (str "offline"));
     ledgerUnreadable := None;
     appendFileSync := fun _ _ => None |}.

Definition memory (content : string) : value :=
  VObj [(str "content", VStr (str content));
        (str "type", VStr (str "Insight"));
        (str "importance", VNum (str "0.7"));
        (str "tags", VArr [VStr (str "ci")])].

Definition threeMemories : list value :=
  [memory "first"; memory "second"; memory "third"].

(** A memory as the model may well return it: no [tags]. *)
Definition untagged : value :=
  VObj [(str "content", VStr (str "Chose PostgreSQL"));
        (str "type", VStr (str "Decision"));
        (str "importance", VNum (str "0.8"))].


Definition s1 : Batch.session :=
  {| Batch.path := sessionPath; Batch.mtime := Some 1699999000000%Z;
     Batch.name := str "s1.jsonl" |}.



(** A ledger file whose last line was left without its line feed. *)
Definition unterminated : world := withLedger (str "/old/session.jsonl").

Definition unterminatedRun : world :=
  snd (Batch.main (nightly false) (host transcript twoMemories) unterminated).

(** A directory whose first transcript cannot be stat'ed. *)
Definition brokenHost : env :=
  {| now := 1700000000000;
     homedir := str "/home/dev";
     sessionsListing :=
       Some [File (str "dangling.jsonl") None;
             File (str "s1.jsonl") (Some 1699999000000%Z)];
     readFileSync := fun _ => Throw enoent;
     piVersion := true;
     pi := fun _ _ => Ok notJson;
     fetchHealth := Rejected (Error (str "offline"));
     fetchMemory := fun _ _ => Rejected (Error (str "offline"));
     fetchGemini := fun _ _ => Rejected (Error (str "offline"));
     ledgerUnreadable := None;
     appendFileSync := fun _ _ => None |}.




(** Two nightly runs, one after the other, over the odd-named transcript. *)
Definition oddRun1 : world :=
  snd (Batch.main (nightly false) (oddHost transcript twoMemories) fresh).

Definition oddRun2 : world :=
  snd (Batch.main (nightly false) (oddHost transcript twoMemories) oddRun1).

End Scenario.

(** ** The rest of the extension: the shutdown hook and two tools *)

Module Extension.
Import Js Json Host.

(** The module-level constants of the extension; [AUTOMEM_MIN_TURNS = None]
    is the [NaN] of [parseInt]. *)
Record config : Type := {
  base : Live.config;
  AUTOMEM_MIN_TURNS : option Z
}.

(** What the hook reads from [ctx.sessionManager]. *)
Record sessionManager : Type := {
  getEntries : list Live.sessionEntry;
  getSessionId : value;
  getSessionFile : value;
  getCwd : jsstring
}.

(** What the hook shows: [ctx.ui.notify] calls and the [console.error] of
    its [catch]. *)
Inductive notice : Type :=
| NotifyExtracting
| NotifyStored (stored : nat)
| NotifyFailed (failed : nat)
| ErrorSessionExtraction (err : error).

(** [turnCount < AUTOMEM_MIN_TURNS]; a comparison with [NaN] is false. *)
Definition belowMinimum (turnCount : nat) (minTurns : option Z) : bool :=
  match minTurns with
  | Some m => (Z.of_nat turnCount <? m)%Z
  | None => false
  end.

Definition storeNotices (stored failed : nat) : list notice :=
  (if 0 <? stored then [NotifyStored stored] else [])
  ++ (if 0 <? failed then [NotifyFailed failed] else []).

(** The handler of [session_shutdown] (lines 537-588): the notices it
    produces and the world it leaves. *)
Definition session_shutdown (cfg : config) (e : env) (sm : sessionManager)
  (w : world) : list notice * world :=
  match Live.extractConversationText (getEntries sm) with
  | Throw err => ([ErrorSessionExtraction err], w)
  | Ok (conversationText, turnCount) =>
      if belowMinimum turnCount (AUTOMEM_MIN_TURNS cfg) then ([], w)
      else if Live.falsyArg (Live.GEMINI_API_KEY (base cfg)) then ([], w)
      else
        match Live.callGeminiForExtraction (base cfg) e conversationText w with
        | (Throw err, w1) => ([NotifyExtracting; ErrorSessionExtraction err], w1)
        | (Ok memories, w1) =>
            if List.length memories =? 0 then ([NotifyExtracting], w1)
            else
              match Live.storeExtractedMemories (base cfg) e memories
                      (getSessionId sm) (getSessionFile sm) (getCwd sm) w1 with
              | (Throw err, w2) =>
                  ([NotifyExtracting; ErrorSessionExtraction err], w2)
              | (Ok (stored, failed), w2) =>
                  (NotifyExtracting :: storeNotices stored failed, w2)
              end
        end
  end.

(** The parameters of [automem_store]:
    [{ content: string; type?: string; importance?: number; tags?: string[] }],
    a number being carried by its literal. *)
Record storeParams : Type := {
  content : jsstring;
  type : option jsstring;
  importance : option jsstring;
  tags : option (list jsstring)
}.

(** The body the tool sends: [type || undefined], [importance ?? 0.7],
    [tags || []], and no [metadata]. *)
Definition toolRequest (p : storeParams) : request :=
  {| r_content := VStr (content p);
     r_type := match type p with
               | Some t => if nonempty t then VStr t else VUndefined
               | None => VUndefined
               end;
     r_importance := match importance p with
                     | Some n => VNum n
                     | None => VNum (str "0.7")
                     end;
     r_tags := match tags p with
               | Some l => map VStr l
               | None => []
               end;
     r_metadata := [] |}.

(** The three shapes of the tool's result. *)
Inductive storeResult : Type :=
| MemoryStored (memory_id type : value)
| FailedToStore (body : jsstring)
| ErrorConnecting (err : error).

(** [execute] of [automem_store] (lines 309-358). *)
Definition automem_store (cfg : Live.config) (e : env) (p : storeParams)
  (w : world) : storeResult * world :=
  match Live.automemRequest cfg e (toolRequest p) w with
  | (Throw err, w1) => (ErrorConnecting err, w1)
  | (Ok (Rejected err), w1) => (ErrorConnecting err, w1)
  | (Ok (Response ok body), w1) =>
      if negb ok then (FailedToStore body, w1)
      else
        match andThen (JSON_parse body) (fun data =>
              andThen (prop data "memory_id") (fun id =>
              andThen (toStringCheck id) (fun _ =>
              andThen (prop data "type") (fun ty =>
              andThen (toStringCheck ty) (fun _ => Ok (id, ty)))))) with
        | Ok (id, ty) => (MemoryStored id ty, w1)
        | Throw err => (ErrorConnecting err, w1)
        end
  end.

Inductive healthResult : Type :=
| Healthy (data : value)
| NotHealthy
| CannotReach (err : error).

(** [execute] of [automem_health] (lines 487-516); [GET /health] leaves
    the world as it is. *)
Definition automem_health (cfg : Live.config) (e : env) : healthResult :=
  if Live.falsyArg (Live.AUTOMEM_TOKEN cfg)
  then CannotReach (Error (str "AUTOMEM_TOKEN environment variable is required"))
  else
    match fetchHealth e with
    | Rejected err => CannotReach err
    | Response ok body =>
        if negb ok then NotHealthy
        else
          match andThen (JSON_parse body) (fun data =>
                andThen (prop data "status") (fun status =>
                andThen (toStringCheck status) (fun _ =>
                andThen (prop data "memory_count") (fun count =>
                andThen (toStringCheck count) (fun _ =>
                andThen (prop data "falkordb") (fun falkordb =>
                andThen (toStringCheck falkordb) (fun _ =>
                andThen (prop data "qdrant") (fun qdrant =>
                andThen (toStringCheck qdrant) (fun _ => Ok data))))))))) with
          | Ok data => Healthy data
          | Throw err => CannotReach err
          end
    end.

End Extension.

(** ** Further vocabulary *)

Module Facts.
Import Js Json Host Spec.

(** The ledger after the paths [marks] have been appended, one per line. *)
Definition appendMarks (l : option jsstring) (marks : list jsstring)
  : option jsstring :=
  fold_left (fun acc p => Some (match acc with
                                | Some old => old ++ p ++ nl
                                | None => p ++ nl
                                end)) marks l.


(** The store answers the liveness probe of [main] (lines 314-325): an ok
    response whose body is JSON other than [null], with a [status] and a
    [memory_count] that can be printed. *)
Definition storeHealthy (e : env) : bool :=
  match fetchHealth e with
  | Rejected _ => false
  | Response ok body =>
      ok && match JSON_parse body with
            | Ok (VObj fs) =>
                printable (lookup (str "status") fs)
                && printable (lookup (str "memory_count") fs)
            | Ok VNull | Ok VUndefined | Throw _ => false
            | Ok _ => true
            end
  end.

(** The two further fields that the health tool of the extension prints
    can be printed. *)
Definition enginesPrintable (e : env) : bool :=
  match fetchHealth e with
  | Rejected _ => true
  | Response _ body =>
      match JSON_parse body with
      | Ok (VObj fs) =>
          printable (lookup (str "falkordb") fs)
          && printable (lookup (str "qdrant") fs)
      | _ => true
      end
  end.

(** What reading the ledger file throws, when the file exists and cannot
    be read. *)
Definition ledgerFault (e : env) (w : world) : option error :=
  match ledger w with
  | Some _ => ledgerUnreadable e
  | None => None
  end.

(** The three checks [main] makes before it looks at any session. *)
Definition preflight (cfg : Batch.config) (e : env) : bool :=
  match Batch.truthyArg (Batch.AUTOMEM_TOKEN cfg) with
  | Some _ => piVersion e && storeHealthy e
  | None => false
  end.

(** The provenance every batch request carries. *)
Definition batchProvenance (sp : jsstring) (r : request) : Prop :=
  r_metadata r = [(str "source", VStr (str "compound-review"));
                  (str "session_file", VStr sp)]
  /\ exists tags,
       r_tags r = tags ++ [VStr (str "auto-extracted");
                           VStr (str "compound-review")].

(** The provenance every live request carries. *)
Definition liveProvenance (sid sf : value) (cwd : jsstring) (r : request)
  : Prop :=
  r_metadata r = [(str "source", VStr (str "session-extraction"));
                  (str "session_id", sid);
                  (str "session_file", sf);
                  (str "cwd", VStr cwd)]
  /\ exists tags, r_tags r = tags ++ [VStr (str "auto-extracted")].

(** Sessions modified at the instant [m]. *)
Definition modifiedAt (m : Z) (s : Batch.session) : bool :=
  match Batch.mtime s with
  | Some x => (x =? m)%Z
  | None => false
  end.

(** The prompt [extractMemories] builds for a conversation. *)
Definition batchPrompt (conversationText : jsstring) : jsstring :=
  Batch.extractionPrompt (slice0 15000 conversationText).

Definition isUserEntry (en : Batch.entry) : bool :=
  Batch.isUser (Batch.role en).

End Facts.

(** ** More scenarios *)

Module Scenario2.
Import Js Json Host.

Definition params : Extension.storeParams :=
  {| Extension.content := str "Uses PostgreSQL";
     Extension.type := Some (str "Decision");
     Extension.importance := None;
     Extension.tags := Some [str "db"] |}.

Definition hookConfig : Extension.config :=
  {| Extension.base := Scenario.liveConfig;
     Extension.AUTOMEM_MIN_TURNS := Some 3%Z |}.

(** A live session with two user turns. *)
Definition shortSession : Extension.sessionManager :=
  {| Extension.getEntries :=
       [Scenario.liveMessage "user" (str "hello");
        Scenario.liveMessage "assistant" (str "hi");
        Scenario.liveMessage "user" (str "bye")];
     Extension.getSessionId := VStr (str "abc");
     Extension.getSessionFile := VStr Scenario.sessionPath;
     Extension.getCwd := str "/home/dev/proj" |}.

(** The conversation text the extension makes of it. *)
Definition shortConversation : jsstring :=
  join (nl ++ nl) [str "USER: hello"; str "ASSISTANT: hi"; str "USER: bye"].

End Scenario2.

(* ================================================================= *)
(** * Part II.  Properties *)
(* ================================================================= *)

Import Js Json Host Spec.

Unset Implicit Arguments.

(** ** The embedding at work *)

Example parse_array_of_objects :
  parse (str "[{" ++ Scenario.q "tags" ++ str ": [1, true, null]}, -0.5e3]")
  = Some (VArr [VObj [(str "tags",
                       VArr [VNum (str "1"); VBool true; VNull])];
                VNum (str "-0.5e3")]).
Proof. vm_compute. reflexivity. Qed.

Example parse_rejects_trailing_comma : parse (str "[1,]") = None.
Proof. reflexivity. Qed.

Example parse_rejects_leading_zero : parse (str "[01]") = None.
Proof. reflexivity. Qed.

Example stripFences_fenced_reply :
  Batch.stripFences (trim Scenario.twoMemories)
  = skipn 8 (firstn (List.length Scenario.twoMemories - 4) Scenario.twoMemories).
Proof. vm_compute. reflexivity. Qed.

Example matchArray_is_greedy :
  Batch.matchArray (str "first [1] then [2] done") = Some (str "[1] then [2]").
Proof. reflexivity. Qed.

Example parseContent_counts_user_turns :
  snd (Batch.parseContent Scenario.transcript) = 4
  /\ List.length (fst (Batch.parseContent Scenario.transcript)) = 8.
Proof. vm_compute. split; reflexivity. Qed.

(** The end-to-end scenario of the specification: four user turns, a
    model that returns two memories; both are stored, the ledger gains the
    transcript's path, and the summary counts two memories. *)
Example nightly_run_end_to_end :
  let w := snd (Batch.main (Scenario.nightly false)
                  (Scenario.host Scenario.transcript Scenario.twoMemories)
                  Scenario.fresh) in
  ledger w = Some (Scenario.sessionPath ++ nl)
  /\ List.length (posts w) = 2
  /\ last (console w) LogBanner = LogSummary 1 2 (Some 2).
Proof. vm_compute. repeat split. Qed.

(** ** Strings and ledger lines *)

Lemma streq_refl : forall a, streq a a = true.
Proof.
  intros a. unfold streq. destruct (list_eq_dec N.eq_dec a a); congruence.
Qed.

Lemma streq_true : forall a b, streq a b = true <-> a = b.
Proof.
  intros a b. unfold streq.
  destruct (list_eq_dec N.eq_dec a b); split; congruence.
Qed.

Lemma streq_false : forall a b, streq a b = false <-> a <> b.
Proof.
  intros a b. unfold streq.
  destruct (list_eq_dec N.eq_dec a b); split; congruence.
Qed.

Lemma split_nonnil : forall sep s, split sep s <> [].
Proof.
  intros sep s. destruct s as [|c r]; simpl; [discriminate|].
  destruct (c =? sep)%N; [discriminate|].
  destruct (split sep r); discriminate.
Qed.

(** Splitting distributes over a separator. *)
Lemma split_sep : forall sep a b,
  split sep (a ++ sep :: b) = split sep a ++ split sep b.
Proof.
  intros sep a b. induction a as [|c a IH]; simpl.
  - rewrite N.eqb_refl. reflexivity.
  - destruct (c =? sep)%N.
    + rewrite IH. reflexivity.
    + rewrite IH. destruct (split sep a) as [|l ls] eqn:E.
      * exfalso. exact (split_nonnil _ _ E).
      * reflexivity.
Qed.

Lemma split_line : forall sep p, ~ In sep p -> split sep p = [p].
Proof.
  intros sep p. induction p as [|c p IH]; intros H; simpl; [reflexivity|].
  destruct (N.eqb_spec c sep) as [->|_].
  - exfalso. apply H. now left.
  - rewrite IH; [reflexivity|]. intros Hin. apply H. now right.
Qed.

Lemma has_In : forall l p, Batch.has l p = true <-> In p l.
Proof.
  intros l p. unfold Batch.has. rewrite existsb_exists. split.
  - intros [x [Hx E]]. apply streq_true in E. now subst.
  - intros H. exists p. split; [assumption | apply streq_refl].
Qed.

(** A line appended to a closed text is found again. *)
Lemma textLines_appended : forall c p,
  closedText c -> singleLine p -> In p (textLines (c ++ p ++ nl)).
Proof.
  intros c p Hc [Hne Hlf]. unfold textLines.
  assert (Hp : In p (filter nonempty (split LF (p ++ nl)))).
  { unfold nl. rewrite split_sep, split_line by assumption.
    simpl. destruct p; [congruence|]. simpl. now left. }
  destruct Hc as [->|[c' ->]]; [exact Hp|].
  rewrite <- app_assoc. simpl. rewrite split_sep, filter_app.
  apply in_or_app. now right.
Qed.

(** Appending to a closed text keeps every line that was there. *)
Lemma textLines_grow : forall c extra p,
  closedText c -> In p (textLines c) -> In p (textLines (c ++ extra)).
Proof.
  intros c extra p [->|[c' ->]] H; [contradiction|].
  unfold textLines in *. rewrite <- app_assoc. simpl.
  rewrite split_sep, filter_app. apply in_or_app. left.
  replace (c' ++ [LF]) with (c' ++ LF :: []) in H by reflexivity.
  rewrite split_sep, filter_app in H. simpl in H.
  rewrite app_nil_r in H. exact H.
Qed.

Lemma closedText_app : forall c p, closedText (c ++ p ++ nl).
Proof.
  intros c p. right. exists (c ++ p). now rewrite app_assoc.
Qed.

(** ** Effects: frame rules *)

Lemma bind_Ok : forall A B (m : M A) (f : A -> M B) w a w1,
  m w = (Ok a, w1) -> bind m f w = f a w1.
Proof. intros. unfold bind. now rewrite H. Qed.

Lemma bind_Throw : forall A B (m : M A) (f : A -> M B) w err w1,
  m w = (Throw err, w1) -> bind m f w = (Throw err, w1).
Proof. intros. unfold bind. now rewrite H. Qed.

Lemma quiet_refl : forall w, quiet w w.
Proof. intros w. repeat split. Qed.

Lemma quiet_trans : forall a b c, quiet a b -> quiet b c -> quiet a c.
Proof.
  intros a b c (H1 & H2 & H3) (H4 & H5 & H6).
  repeat split; congruence.
Qed.

Section Frames.

Variable R : world -> world -> Prop.
Hypothesis R_quiet :
  forall w w', ledger w' = ledger w -> posts w' = posts w -> R w w'.
Hypothesis R_trans : forall a b c, R a b -> R b c -> R a c.

Lemma keeps_ret : forall A (a : A), keeps R (ret a).
Proof. intros A a w. now apply R_quiet. Qed.

Lemma keeps_throw : forall A err, keeps R (@throw A err).
Proof. intros A err w. now apply R_quiet. Qed.

Lemma keeps_lift : forall A (r : result A), keeps R (lift r).
Proof. intros A r w. now apply R_quiet. Qed.

Lemma keeps_log : forall l, keeps R (log l).
Proof. intros l w. now apply R_quiet. Qed.

Lemma keeps_readLedger : forall e, keeps R (readLedger e).
Proof.
  intros e w. unfold readLedger.
  destruct (ledger w); [destruct (ledgerUnreadable e)|]; now apply R_quiet.
Qed.

Lemma keeps_execPi : forall e prompt, keeps R (Batch.execPi e prompt).
Proof. intros e prompt w. now apply R_quiet. Qed.

Lemma keeps_askModel : forall oracle prompt, keeps R (askModel oracle prompt).
Proof. intros oracle prompt w. now apply R_quiet. Qed.

Lemma keeps_bind : forall A B (m : M A) (f : A -> M B),
  keeps R m -> (forall a, keeps R (f a)) -> keeps R (bind m f).
Proof.
  intros A B m f Hm Hf w. unfold bind.
  specialize (Hm w). destruct (m w) as [[a|err] w1]; simpl in *.
  - eapply R_trans; [exact Hm | apply Hf].
  - exact Hm.
Qed.

Lemma keeps_try_catch : forall A (m : M A) h,
  keeps R m -> (forall err, keeps R (h err)) -> keeps R (try_catch m h).
Proof.
  intros A m h Hm Hh w. unfold try_catch.
  specialize (Hm w). destruct (m w) as [[a|err] w1]; simpl in *.
  - exact Hm.
  - eapply R_trans; [exact Hm | apply Hh].
Qed.

Lemma keeps_mapM_ : forall A (f : A -> M unit) l,
  (forall a, keeps R (f a)) -> keeps R (mapM_ f l).
Proof.
  intros A f l Hf. induction l as [|a l IH]; simpl.
  - apply keeps_ret.
  - apply keeps_bind; [apply Hf | intros _; exact IH].
Qed.

Ltac frame :=
  repeat (intros;
    match goal with
    | |- keeps _ (bind _ _) => apply keeps_bind
    | |- keeps _ (try_catch _ _) => apply keeps_try_catch
    | |- keeps _ (ret _) => apply keeps_ret
    | |- keeps _ (throw _) => apply keeps_throw
    | |- keeps _ (lift _) => apply keeps_lift
    | |- keeps _ (log _) => apply keeps_log
    | |- keeps _ (Batch.execPi _ _) => apply keeps_execPi
    | |- keeps _ (askModel _ _) => apply keeps_askModel
    | |- keeps _ (readLedger _) => apply keeps_readLedger
    | |- keeps _ (mapM_ _ _) => apply keeps_mapM_
    | |- keeps _ (if ?b then _ else _) => destruct b
    | |- keeps _ (match ?x with _ => _ end) => destruct x
    end).

Variable cfg : Batch.config.
Variable e : env.

Local Notation "'postsKeep'" := (Spec.postsKeep R e).
Local Notation "'markKeeps'" := (Spec.markKeeps R e).

Lemma keeps_debug : forall l, keeps R (Batch.debug cfg l).
Proof. intros l. unfold Batch.debug. frame. Qed.

Lemma keeps_parseSession : forall sp, keeps R (Batch.parseSession e sp).
Proof. intros sp. unfold Batch.parseSession. frame. Qed.

Lemma keeps_extractMemories : forall t, keeps R (Batch.extractMemories e t).
Proof. intros t. unfold Batch.extractMemories. frame. Qed.

Lemma keeps_previewMemory : forall m, keeps R (Batch.previewMemory m).
Proof. intros m. unfold Batch.previewMemory. frame. Qed.

Lemma keeps_storeMemory : forall m sp,
  postsKeep sp -> keeps R (Batch.storeMemory e m sp).
Proof. intros m sp H. unfold Batch.storeMemory. frame. apply H. Qed.

Lemma keeps_storeAll : forall ms sp s f,
  postsKeep sp -> keeps R (Batch.storeAll e ms sp s f).
Proof.
  intros ms sp s f H. revert s f.
  induction ms as [|m ms IH]; intros s f; simpl.
  - apply keeps_ret.
  - apply keeps_bind; [|intros counts; apply IH].
    apply keeps_try_catch; frame. now apply keeps_storeMemory.
Qed.

Lemma keeps_processSession : forall sp,
  (Batch.dryRun cfg = false -> postsKeep sp) ->
  keeps R (Batch.processSession cfg e sp).
Proof.
  intros sp H. unfold Batch.processSession.
  apply keeps_bind; [apply keeps_log|intros _].
  apply keeps_bind; [apply keeps_parseSession|intros [entries turnCount]].
  destruct (turnCount <? 3).
  - frame. apply keeps_debug.
  - apply keeps_bind; [apply keeps_debug|intros _].
    apply keeps_bind; [apply keeps_extractMemories|intros memories].
    apply keeps_bind; [apply keeps_debug|intros _].
    destruct (List.length memories =? 0); [apply keeps_ret|].
    destruct (Batch.dryRun cfg) eqn:D.
    + frame. apply keeps_previewMemory.
    + apply keeps_bind; [apply keeps_storeAll; auto | intros; apply keeps_ret].
Qed.

Lemma keeps_markSessionProcessed : forall sp,
  (Batch.dryRun cfg = false -> markKeeps sp) ->
  keeps R (Batch.markSessionProcessed cfg e sp).
Proof.
  intros sp H. unfold Batch.markSessionProcessed.
  destruct (Batch.dryRun cfg); simpl; [apply keeps_ret | now apply H].
Qed.

Lemma keeps_reviewSession : forall s totals,
  (Batch.dryRun cfg = false -> postsKeep (Batch.path s)) ->
  (Batch.dryRun cfg = false -> markKeeps (Batch.path s)) ->
  keeps R (Batch.reviewSession cfg e s totals).
Proof.
  intros s totals Hp Hm. unfold Batch.reviewSession.
  apply keeps_try_catch.
  - apply keeps_bind; [now apply keeps_processSession|intros r].
    destruct (negb (Batch.skipped r)); [|apply keeps_ret].
    apply keeps_bind; [now apply keeps_markSessionProcessed|intros; apply keeps_ret].
  - frame.
Qed.

Lemma keeps_reviewAll : forall sessions totals,
  (forall s, In s sessions -> Batch.dryRun cfg = false ->
             postsKeep (Batch.path s) /\ markKeeps (Batch.path s)) ->
  keeps R (Batch.reviewAll cfg e sessions totals).
Proof.
  intros sessions. induction sessions as [|s rest IH]; intros totals H; simpl.
  - apply keeps_ret.
  - apply keeps_bind.
    + apply keeps_reviewSession; intros D; apply (H s); auto; now left.
    + intros t. apply IH. intros s' Hs'. apply H. now right.
Qed.

End Frames.

(** ** How [main] runs *)

Lemma log_eq : forall l w, log l w = (Ok tt, say w l).
Proof. reflexivity. Qed.

Lemma quiet_say : forall w l, quiet w (say w l).
Proof. intros. repeat split. Qed.

Lemma ledgerLines_quiet : forall w w', quiet w w' -> ledgerLines w' = ledgerLines w.
Proof. intros w w' (H & _). unfold ledgerLines. now rewrite H. Qed.

Lemma checkHealth_quiet : forall e w,
  exists b w', Batch.checkHealth e w = (Ok b, w') /\ quiet w w'.
Proof.
  intros e w. unfold Batch.checkHealth, try_catch, bind, lift, throw, log, ret.
  destruct (fetchHealth e) as [err|[|] body]; cbn [negb];
    try (eexists _, _; split; [reflexivity | repeat split]).
  destruct (JSON_parse body) as [d|err];
    [|eexists _, _; split; [reflexivity | repeat split]].
  destruct (prop d "status") as [st|err];
    [|eexists _, _; split; [reflexivity | repeat split]].
  destruct (toStringCheck st);
    [|eexists _, _; split; [reflexivity | repeat split]].
  destruct (prop d "memory_count") as [mc|err];
    [|eexists _, _; split; [reflexivity | repeat split]].
  destruct (toStringCheck mc);
    eexists _, _; (split; [reflexivity | repeat split]).
Qed.

Lemma selectSessions_spec : forall cfg e w,
  exists w', Batch.selectSessions cfg e w = (Ok (selected cfg e), w')
             /\ quiet w w'.
Proof.
  intros cfg e w. unfold Batch.selectSessions, selected.
  destruct (Batch.truthyArg (Batch.specificSession cfg)).
  - eexists. split; [reflexivity | apply quiet_refl].
  - eexists. split; [reflexivity | apply quiet_say].
Qed.

Lemma newSet_has : forall l seen p,
  Batch.has (fold_left (fun seen x => if existsb (streq x) seen then seen
                                      else seen ++ [x]) l seen) p
  = Batch.has seen p || Batch.has l p.
Proof.
  induction l as [|x l IH]; intros seen p; simpl.
  - now rewrite orb_false_r.
  - rewrite IH. unfold Batch.has.
    destruct (existsb (streq x) seen) eqn:E.
    + destruct (streq p x) eqn:P; [|reflexivity].
      apply streq_true in P. subst x. now rewrite E.
    + rewrite existsb_app. simpl. now rewrite orb_false_r, orb_assoc.
Qed.

(** A set answers [has] as the list it was built from. *)
Lemma has_newSet : forall l p, Batch.has (newSet l) p = Batch.has l p.
Proof. intros l p. unfold newSet. now rewrite newSet_has. Qed.

Lemma toProcess_newSet : forall l sessions,
  Batch.toProcess (newSet l) sessions = Batch.toProcess l sessions.
Proof.
  intros l sessions. unfold Batch.toProcess. apply filter_ext.
  intros s. now rewrite has_newSet.
Qed.

Lemma getProcessedSessions_spec : forall e w,
  Batch.getProcessedSessions e w
  = match ledger w, ledgerUnreadable e with
    | Some _, Some err => (Throw err, w)
    | _, _ => (Ok (newSet (ledgerLines w)), w)
    end.
Proof.
  intros e w. unfold Batch.getProcessedSessions, ledgerLines, bind, readLedger.
  destruct (ledger w); [destruct (ledgerUnreadable e)|]; reflexivity.
Qed.

(** The loop body catches whatever the session throws. *)
Lemma reviewSession_returns : forall cfg e s totals w,
  exists totals' w', Batch.reviewSession cfg e s totals w = (Ok totals', w').
Proof.
  intros cfg e s totals w. unfold Batch.reviewSession, try_catch.
  destruct (bind _ _ w) as [[t|err] w1] eqn:E.
  - eauto.
  - rewrite (bind_Ok _ _ _ _ _ _ _ (log_eq _ _)). eexists _, _. reflexivity.
Qed.

Lemma reviewAll_returns : forall cfg e sessions totals w,
  exists totals' w', Batch.reviewAll cfg e sessions totals w = (Ok totals', w').
Proof.
  intros cfg e sessions. induction sessions as [|s rest IH]; intros totals w.
  - simpl. eexists _, _. reflexivity.
  - simpl. destruct (reviewSession_returns cfg e s totals w) as (t & w1 & H).
    rewrite (bind_Ok _ _ _ _ _ _ _ H). apply IH.
Qed.

(** [main] either stops before touching a session, or reviews exactly the
    planned sessions, in order; it throws when the ledger file exists and
    cannot be read. *)
Lemma main_run : forall cfg e w,
  exists w1, quiet w w1 /\
    (Batch.main cfg e w = (Ok (Batch.Exit 1), w1)
     \/ (exists err, ledger w <> None /\ ledgerUnreadable e = Some err
                     /\ Batch.main cfg e w = (Throw err, w1))
     \/ (planned cfg e w = [] /\ Batch.main cfg e w = (Ok Batch.Returned, w1))
     \/ (exists totals w2 w3,
           Batch.reviewAll cfg e (planned cfg e w) (0, 0) w1 = (Ok totals, w2)
           /\ quiet w2 w3
           /\ Batch.main cfg e w = (Ok Batch.Returned, w3))).
Proof.
  intros cfg e w. unfold Batch.main.
  rewrite (bind_Ok _ _ _ _ _ _ _ (log_eq _ _)).
  destruct (Batch.truthyArg (Batch.AUTOMEM_TOKEN cfg)) as [tok|].
  2:{ rewrite (bind_Ok _ _ _ _ _ _ _ (log_eq _ _)). eexists. split; [|left; reflexivity].
      eapply quiet_trans; apply quiet_say. }
  destruct (piVersion e); cbn [negb].
  2:{ rewrite (bind_Ok _ _ _ _ _ _ _ (log_eq _ _)). eexists. split; [|left; reflexivity].
      eapply quiet_trans; apply quiet_say. }
  destruct (checkHealth_quiet e (say w LogBanner)) as (b & wh & Hh & Hq).
  rewrite (bind_Ok _ _ _ _ _ _ _ Hh).
  assert (Q0 : quiet w wh) by (eapply quiet_trans; [apply quiet_say | exact Hq]).
  destruct b; cbn [negb].
  2:{ eexists. split; [exact Q0 | left; reflexivity]. }
  destruct (selectSessions_spec cfg e wh) as (ws & Hs & Hqs).
  rewrite (bind_Ok _ _ _ _ _ _ _ Hs).
  assert (Q1 : quiet w ws) by (eapply quiet_trans; eassumption).
  pose proof (getProcessedSessions_spec e ws) as G.
  rewrite (ledgerLines_quiet _ _ Q1) in G.
  assert (L1 : ledger ws = ledger w) by apply Q1. rewrite L1 in G.
  destruct (ledger w) as [c|] eqn:Lw;
    [destruct (ledgerUnreadable e) as [err|] eqn:U|].
  { rewrite (bind_Throw _ _ _ _ _ _ _ G). exists ws. split; [exact Q1|].
    right; left. exists err. split; [discriminate | split; reflexivity]. }
  all: rewrite (bind_Ok _ _ _ _ _ _ _ G), toProcess_newSet;
    fold (planned cfg e w);
    rewrite (bind_Ok _ _ _ _ _ _ _ (log_eq _ _));
    destruct (planned cfg e w) as [|s rest] eqn:P;
    [ rewrite (bind_Ok _ _ _ _ _ _ _ (log_eq _ _));
      eexists; split; [|right; right; left; split; reflexivity];
      eapply quiet_trans; [exact Q1|]; eapply quiet_trans; apply quiet_say
    | eexists; split; [eapply quiet_trans; [exact Q1 | apply quiet_say]|];
      right; right; right;
      destruct (reviewAll_returns cfg e (s :: rest) (0, 0)
                  (say ws (LogNotYetProcessed (List.length (s :: rest)))))
        as (t & w2 & H2);
      exists t, w2; eexists; split; [exact H2|];
      rewrite (bind_Ok _ _ _ _ _ _ _ H2);
      rewrite (bind_Ok _ _ _ _ _ _ _ (log_eq _ _));
      split; [apply quiet_say | reflexivity] ].
Qed.

(** ** Dry run *)

Lemma untouched_quiet : forall w w',
  ledger w' = ledger w -> posts w' = posts w -> untouched w w'.
Proof. intros. now split. Qed.

Lemma untouched_trans : forall a b c,
  untouched a b -> untouched b c -> untouched a c.
Proof. intros a b c [H1 H2] [H3 H4]. split; congruence. Qed.

(** C8.  With [--dry-run] a batch run issues no [POST /memory] and leaves
    the ledger file as it found it, whatever the sessions contain and
    whatever the model returns. *)
Theorem dry_run_touches_nothing : forall cfg e w,
  Batch.dryRun cfg = true ->
  ledger (snd (Batch.main cfg e w)) = ledger w
  /\ posts (snd (Batch.main cfg e w)) = posts w.
Proof.
  intros cfg e w D.
  destruct (main_run cfg e w) as (w1 & (L1 & P1 & _) & H).
  destruct H as [H | [(err & _ & _ & H) | [[_ H]
                | (t & w2 & w3 & H2 & (L3 & P3 & _) & H)]]];
    rewrite H; simpl; try (split; congruence).
  assert (K : untouched w1 w2).
  { pose proof (keeps_reviewAll untouched untouched_quiet untouched_trans
                  cfg e (planned cfg e w) (0, 0)) as K.
    specialize (K (fun s _ D' => ltac:(congruence)) w1).
    now rewrite H2 in K. }
  destruct K as [K1 K2]. split; congruence.
Qed.

Lemma dry_run_touches_nothing_witness :
  Batch.dryRun (Scenario.nightly true) = true
  /\ ledger (snd (Batch.main (Scenario.nightly true)
                    (Scenario.host Scenario.transcript Scenario.twoMemories)
                    Scenario.fresh)) = ledger Scenario.fresh
  /\ posts (snd (Batch.main (Scenario.nightly true)
                   (Scenario.host Scenario.transcript Scenario.twoMemories)
                   Scenario.fresh)) = posts Scenario.fresh.
Proof.
  split; [reflexivity|].
  apply (dry_run_touches_nothing (Scenario.nightly true)
           (Scenario.host Scenario.transcript Scenario.twoMemories)
           Scenario.fresh).
  reflexivity.
Defined.

(** ** The ledger filter *)

Lemma singleLine_check : forall p,
  nonempty p && negb (existsb (N.eqb LF) p) = true -> singleLine p.
Proof.
  intros p H. apply andb_true_iff in H. destruct H as [H1 H2]. split.
  - destruct p; [discriminate | congruence].
  - intros Hin. apply negb_true_iff in H2.
    assert (existsb (N.eqb LF) p = true); [|congruence].
    apply existsb_exists. exists LF. split; [assumption | apply N.eqb_refl].
Qed.

Lemma marked_after_mark : forall cfg e p w,
  Batch.dryRun cfg = false -> closed w -> singleLine p ->
  match appendFileSync e (ledger w) (p ++ nl) with
  | None => marked p (snd (Batch.markSessionProcessed cfg e p w))
  | Some err => Batch.markSessionProcessed cfg e p w = (Throw err, w)
  end.
Proof.
  intros cfg e p w D C S. unfold Batch.markSessionProcessed. rewrite D.
  cbn [negb]. unfold appendLedger.
  destruct (appendFileSync e (ledger w) (p ++ nl)); [reflexivity|]. simpl.
  unfold marked, closed, inLedger, ledgerLines in *. simpl.
  destruct (ledger w) as [c|].
  - split; [apply closedText_app|]. apply has_In.
    now apply textLines_appended.
  - split; [apply (closedText_app [] p)|]. apply has_In.
    apply (textLines_appended [] p (or_introl eq_refl) S).
Qed.

Lemma marked_quiet : forall p w w',
  ledger w' = ledger w -> marked p w -> marked p w'.
Proof.
  intros p w w' H. unfold marked, closed, inLedger, ledgerLines.
  now rewrite H.
Qed.

Lemma marked_grows : forall p e sp w,
  marked p w -> marked p (snd (appendLedger e (sp ++ nl) w)).
Proof.
  intros p e sp w M. unfold appendLedger.
  destruct (appendFileSync e (ledger w) (sp ++ nl)); [exact M|].
  destruct M as [C H]. unfold marked, closed, inLedger, ledgerLines in *.
  simpl. destruct (ledger w) as [c|].
  - split; [apply closedText_app|]. apply has_In. apply has_In in H.
    now apply textLines_grow.
  - discriminate.
Qed.

Lemma settled_quiet : forall p w w',
  ledger w' = ledger w -> posts w' = posts w -> settled p w w'.
Proof.
  intros p w w' L P. split; [now apply marked_quiet|].
  exists []. rewrite app_nil_r. split; [assumption | constructor].
Qed.

Lemma settled_trans : forall p a b c,
  settled p a b -> settled p b c -> settled p a c.
Proof.
  intros p a b c [M1 (x1 & P1 & F1)] [M2 (x2 & P2 & F2)]. split; [auto|].
  exists (x1 ++ x2). split.
  - rewrite P2, P1. now rewrite app_assoc.
  - apply Forall_app. now split.
Qed.

Lemma settled_post : forall p e sp,
  sp <> p -> postsKeep (settled p) e sp.
Proof.
  intros p e sp Hne c t i tags w. simpl. split.
  - now apply marked_quiet.
  - eexists. split; [reflexivity|]. constructor; [|constructor].
    unfold fromSession. simpl. intros [H|[H|[]]].
    + apply (f_equal fst) in H. discriminate H.
    + apply (f_equal snd) in H. simpl in H. congruence.
Qed.

Lemma settled_mark : forall p e sp, markKeeps (settled p) e sp.
Proof.
  intros p e sp w. split; [apply marked_grows|].
  exists []. rewrite app_nil_r. split; [|constructor].
  unfold appendLedger.
  destruct (appendFileSync e (ledger w) (sp ++ nl)); reflexivity.
Qed.

Lemma planned_not_in_ledger : forall cfg e w s,
  In s (planned cfg e w) -> inLedger w (Batch.path s) = false.
Proof.
  intros cfg e w s H. unfold planned, Batch.toProcess in H.
  apply filter_In in H. destruct H as [_ H].
  now apply negb_true_iff in H.
Qed.

Lemma main_settled : forall p cfg e w,
  (forall s, In s (planned cfg e w) -> Batch.path s <> p) ->
  settled p w (snd (Batch.main cfg e w)).
Proof.
  intros p cfg e w Hp.
  destruct (main_run cfg e w) as (w1 & (L1 & P1 & _) & H).
  destruct H as [H | [(err & _ & _ & H) | [[_ H]
                | (t & w2 & w3 & H2 & (L3 & P3 & _) & H)]]];
    rewrite H; simpl; try (now apply settled_quiet).
  apply settled_trans with w1; [now apply settled_quiet|].
  apply settled_trans with w2; [|now apply settled_quiet].
  pose proof (keeps_reviewAll (settled p) (settled_quiet p) (settled_trans p)
                cfg e (planned cfg e w) (0, 0)) as K.
  assert (K' : keeps (settled p) (Batch.reviewAll cfg e (planned cfg e w) (0, 0))).
  { apply K. intros s Hs _. split; [apply settled_post; auto | apply settled_mark]. }
  specialize (K' w1). now rewrite H2 in K'.
Qed.

(** C1, as the script has it.  Once [markSessionProcessed] of a non-dry
    run has appended a path that fits on one line to a ledger the script
    itself wrote (the call either appends or throws leaving the file as it
    was), the path stays in the ledger through the rest of that run and
    through every later run; each later run leaves the session out of the
    list it processes and issues no store request for it. *)
Theorem marked_session_is_skipped : forall p,
  singleLine p ->
  (forall cfg e w, Batch.dryRun cfg = false -> closed w ->
     match appendFileSync e (ledger w) (p ++ nl) with
     | None => marked p (snd (Batch.markSessionProcessed cfg e p w))
     | Some err => Batch.markSessionProcessed cfg e p w = (Throw err, w)
     end)
  /\ (forall cfg e s totals w, marked p w ->
        marked p (snd (Batch.reviewSession cfg e s totals w)))
  /\ (forall cfg e w, marked p w ->
        (forall s, In s (planned cfg e w) -> Batch.path s <> p)
        /\ (exists extra,
              posts (snd (Batch.main cfg e w)) = posts w ++ extra
              /\ Forall (fun r => ~ fromSession p r) extra)
        /\ marked p (snd (Batch.main cfg e w))).
Proof.
  intros p S. split; [|split].
  - intros cfg e w D C. now apply marked_after_mark.
  - intros cfg e s totals w M.
    pose proof (keeps_reviewSession (fun a b => marked p a -> marked p b)) as K.
    apply (K (fun a b L _ => marked_quiet p a b L)
             (fun a b c H1 H2 H => H2 (H1 H)) cfg e s totals); auto.
    + intros _ c t i tags w0. simpl. now apply marked_quiet.
    + intros _ w0. apply marked_grows.
  - intros cfg e w M.
    assert (Hp : forall s, In s (planned cfg e w) -> Batch.path s <> p).
    { intros s Hs E. apply planned_not_in_ledger in Hs.
      destruct M as [_ M]. congruence. }
    destruct (main_settled p cfg e w Hp) as [K1 K2]. auto.
Qed.

Lemma marked_session_is_skipped_witness :
  singleLine Scenario.sessionPath
  /\ marked Scenario.sessionPath
       (snd (Batch.markSessionProcessed (Scenario.nightly false)
               (Scenario.host Scenario.transcript Scenario.twoMemories)
               Scenario.sessionPath Scenario.fresh))
  /\ (forall s,
        In s (planned (Scenario.nightly false)
                (Scenario.host Scenario.transcript Scenario.twoMemories)
                (snd (Batch.markSessionProcessed (Scenario.nightly false)
                        (Scenario.host Scenario.transcript Scenario.twoMemories)
                        Scenario.sessionPath Scenario.fresh))) ->
        Batch.path s <> Scenario.sessionPath).
Proof.
  assert (S : singleLine Scenario.sessionPath)
    by (apply singleLine_check; reflexivity).
  destruct (marked_session_is_skipped Scenario.sessionPath S) as (A & _ & C).
  assert (M : marked Scenario.sessionPath
                (snd (Batch.markSessionProcessed (Scenario.nightly false)
                        (Scenario.host Scenario.transcript Scenario.twoMemories)
                        Scenario.sessionPath Scenario.fresh)))
    by (apply (A (Scenario.nightly false)
                 (Scenario.host Scenario.transcript Scenario.twoMemories)
                 Scenario.fresh eq_refl I)).
  split; [exact S | split; [exact M|]].
  exact (proj1 (C (Scenario.nightly false)
                  (Scenario.host Scenario.transcript Scenario.twoMemories)
                  _ M)).
Defined.

(** C1 as stated fails for a path that holds a line feed: the first run
    appends the path to the ledger, the second run reads it back as two
    lines, keeps the session in its list and stores its memories again.
    It also fails when the ledger file does not end in a line feed: the
    appended path is glued to the last line and is not found again. *)
Lemma appended_path_not_found_again :
  ledger Scenario.oddRun1 = Some (Scenario.oddPath ++ nl)
  /\ map Batch.path
       (planned (Scenario.nightly false)
          (Scenario.oddHost Scenario.transcript Scenario.twoMemories)
          Scenario.oddRun1) = [Scenario.oddPath]
  /\ List.length (posts Scenario.oddRun1) = 2
  /\ List.length (posts Scenario.oddRun2) = 4
  /\ ledger Scenario.unterminatedRun
     = Some (str "/old/session.jsonl" ++ Scenario.sessionPath ++ nl)
  /\ inLedger Scenario.unterminatedRun Scenario.sessionPath = false.
Proof. vm_compute. repeat split. Qed.

(** ** [--session] *)

Lemma toProcess_one : forall lines s,
  Batch.toProcess lines [s] =
  if Batch.has lines (Batch.path s) then [] else [s].
Proof.
  intros lines s. unfold Batch.toProcess. simpl.
  destruct (Batch.has lines (Batch.path s)); reflexivity.
Qed.

(** C2, as the script has it.  [--session p] replaces discovery by the one
    named transcript, but the ledger filter still applies to it: when [p]
    is in the ledger nothing is processed (no model call, no store call, no
    ledger write); otherwise the run reviews exactly that session, unless
    it ends before the filter (exit 1, or a ledger file that exists and
    cannot be read). *)
Theorem named_session_still_filtered : forall cfg e w p,
  Batch.truthyArg (Batch.specificSession cfg) = Some p ->
  selected cfg e = [named p]
  /\ planned cfg e w = (if inLedger w p then [] else [named p])
  /\ (inLedger w p = true -> quiet w (snd (Batch.main cfg e w)))
  /\ (inLedger w p = false ->
      exists w1, quiet w w1 /\
        (Batch.main cfg e w = (Ok (Batch.Exit 1), w1)
         \/ (exists err, ledger w <> None /\ ledgerUnreadable e = Some err
                         /\ Batch.main cfg e w = (Throw err, w1))
         \/ exists totals w2 w3,
              Batch.reviewSession cfg e (named p) (0, 0) w1 = (Ok totals, w2)
              /\ quiet w2 w3
              /\ Batch.main cfg e w = (Ok Batch.Returned, w3))).
Proof.
  intros cfg e w p H.
  assert (Sel : selected cfg e = [named p]) by (unfold selected; now rewrite H).
  assert (Pl : planned cfg e w = if inLedger w p then [] else [named p]).
  { unfold planned. rewrite Sel. apply toProcess_one. }
  split; [exact Sel | split; [exact Pl|]].
  destruct (main_run cfg e w) as (w1 & Q1 & R).
  split; intros L; rewrite L in Pl.
  - destruct R as [R | [(err & _ & _ & R) | [[_ R]
                  | (t & w2 & w3 & R2 & Q3 & R)]]];
      rewrite R; simpl; try exact Q1.
    rewrite Pl in R2. simpl in R2. injection R2 as _ <-.
    eapply quiet_trans; eassumption.
  - exists w1. split; [exact Q1|].
    destruct R as [R | [R | [[E _] | (t & w2 & w3 & R2 & Q3 & R)]]].
    + now left.
    + right; now left.
    + rewrite Pl in E. discriminate.
    + right; right. rewrite Pl in R2. simpl in R2.
      destruct (reviewSession_returns cfg e (named p) (0, 0) w1)
        as (t' & w' & Hr).
      rewrite (bind_Ok _ _ _ _ _ _ _ Hr) in R2. injection R2 as <- <-.
      exists t', w', w3. auto.
Qed.

Lemma named_session_still_filtered_witness :
  Batch.truthyArg (Batch.specificSession (Scenario.only Scenario.sessionPath))
    = Some Scenario.sessionPath
  /\ planned (Scenario.only Scenario.sessionPath)
       (Scenario.host Scenario.transcript Scenario.twoMemories)
       (Scenario.withLedger (Scenario.sessionPath ++ nl))
     = (if inLedger (Scenario.withLedger (Scenario.sessionPath ++ nl))
             Scenario.sessionPath
        then [] else [named Scenario.sessionPath]).
Proof.
  split; [reflexivity|].
  exact (proj1 (proj2 (named_session_still_filtered
                         (Scenario.only Scenario.sessionPath)
                         (Scenario.host Scenario.transcript Scenario.twoMemories)
                         (Scenario.withLedger (Scenario.sessionPath ++ nl))
                         Scenario.sessionPath eq_refl))).
Defined.

(** C2 as stated fails: with the named path already in the ledger the run
    ends at "Nothing to process", without a model call or a store call. *)
Lemma named_session_in_ledger_not_processed :
  Batch.main (Scenario.only Scenario.sessionPath)
    (Scenario.host Scenario.transcript Scenario.twoMemories)
    (Scenario.withLedger (Scenario.sessionPath ++ nl))
  = (Ok Batch.Returned,
     {| ledger := Some (Scenario.sessionPath ++ nl);
        posts := [];
        prompts := [];
        console := [LogBanner;
                    LogHealth (VStr (str "ok")) (VNum (str "3"));
                    LogNotYetProcessed 0;
                    LogNothingToProcess] |}).
Proof. vm_compute. reflexivity. Qed.

(** ** The parsing stage of the extractors *)

Lemma parseResponse_throws : forall stdout err,
  Batch.parseResponse stdout = Throw err -> err = SyntaxError.
Proof.
  intros stdout err. unfold Batch.parseResponse, JSON_parse.
  destruct (Batch.matchArray _); [|discriminate].
  destruct (parse j); simpl; congruence.
Qed.

(** The batch extractor hands the parsing outcome to its caller as it is. *)
Lemma extractMemories_parses : forall e conv w stdout,
  pi e (List.length (prompts w))
     (Batch.extractionPrompt (slice0 15000 conv)) = Ok stdout ->
  fst (Batch.extractMemories e conv w) = Batch.parseResponse stdout.
Proof.
  intros e conv w stdout H.
  unfold Batch.extractMemories. cbv zeta.
  set (prompt := Batch.extractionPrompt _) in *.
  unfold try_catch, bind, Batch.execPi, lift.
  rewrite H. destruct (Batch.parseResponse stdout) as [l|err] eqn:P.
  - reflexivity.
  - apply parseResponse_throws in P. subst err. reflexivity.
Qed.


(** What the live extractor returns once the model has answered. *)
Lemma callGemini_reply : forall cfg e text w body data,
  Live.falsyArg (Live.GEMINI_API_KEY cfg) = false ->
  fetchGemini e (List.length (prompts w))
    (Live.extractionPrompt (slice0 30000 text)) = Response true body ->
  JSON_parse body = Ok data ->
  fst (Live.callGeminiForExtraction cfg e text w) =
  Ok (match Live.parseReply data with Ok l => l | Throw _ => [] end).
Proof.
  intros cfg e text w body data K F J.
  unfold Live.callGeminiForExtraction. rewrite K.
  set (prompt := Live.extractionPrompt _) in *.
  unfold try_catch, bind, askModel, lift. rewrite F. simpl. rewrite J.
  destruct (Live.parseReply data); reflexivity.
Qed.




(** C4, as the code has it.  Neither extractor validates the elements: when
    the text parses to an array, that array is the result, element for
    element. *)
Theorem extraction_returns_array_as_is :
  (forall stdout m l,
     Batch.matchArray (Batch.stripFences (trim stdout)) = Some m ->
     parse m = Some (VArr l) ->
     Batch.parseResponse stdout = Ok l)
  /\ (forall e conv w stdout m l,
        pi e (List.length (prompts w))
           (Batch.extractionPrompt (slice0 15000 conv)) = Ok stdout ->
        Batch.matchArray (Batch.stripFences (trim stdout)) = Some m ->
        parse m = Some (VArr l) ->
        fst (Batch.extractMemories e conv w) = Ok l)
  /\ (forall data t l,
        Live.candidateText data = Ok (VStr t) ->
        parse (Batch.stripFences (trim t)) = Some (VArr l) ->
        Live.parseReply data = Ok l)
  /\ (forall cfg e text w body data t l,
        Live.falsyArg (Live.GEMINI_API_KEY cfg) = false ->
        fetchGemini e (List.length (prompts w))
          (Live.extractionPrompt (slice0 30000 text)) = Response true body ->
        JSON_parse body = Ok data ->
        Live.candidateText data = Ok (VStr t) ->
        parse (Batch.stripFences (trim t)) = Some (VArr l) ->
        fst (Live.callGeminiForExtraction cfg e text w) = Ok l).
Proof.
  assert (B : forall stdout m l,
             Batch.matchArray (Batch.stripFences (trim stdout)) = Some m ->
             parse m = Some (VArr l) -> Batch.parseResponse stdout = Ok l).
  { intros stdout m l H P. unfold Batch.parseResponse, JSON_parse.
    now rewrite H, P. }
  assert (L : forall data t l,
             Live.candidateText data = Ok (VStr t) ->
             parse (Batch.stripFences (trim t)) = Some (VArr l) ->
             Live.parseReply data = Ok l).
  { intros data t l C P. unfold Live.parseReply, JSON_parse.
    rewrite C. simpl. now rewrite P. }
  split; [exact B|]. split.
  { intros e conv w stdout m l H M P.
    rewrite (extractMemories_parses e conv w stdout H). eapply B; eassumption. }
  split; [exact L|].
  intros cfg e text w body data t l K F J C P.
  rewrite (callGemini_reply cfg e text w body data K F J).
  now rewrite (L data t l C P).
Qed.

Lemma extraction_returns_array_as_is_witness :
  Batch.matchArray (Batch.stripFences (trim Scenario.twoMemories))
  = Some (Batch.stripFences (trim Scenario.twoMemories))
  /\ Batch.parseResponse Scenario.twoMemories
     = Ok [VObj [(str "content", VStr (str "Chose PostgreSQL"));
                 (str "type", VStr (str "Decision"));
                 (str "importance", VNum (str "0.8"));
                 (str "tags", VArr [VStr (str "db")])];
           VObj [(str "content", VStr (str "Prefers tabs"));
                 (str "type", VStr (str "Preference"));
                 (str "importance", VNum (str "0.6"));
                 (str "tags", VArr [])]].
Proof.
  split; [reflexivity|].
  apply (proj1 extraction_returns_array_as_is Scenario.twoMemories
           (Batch.stripFences (trim Scenario.twoMemories)));
    reflexivity.
Defined.

(** C4 as stated fails: an element with no [content] and a non-numeric
    [importance] is accepted by both extractors. *)
Lemma malformed_element_accepted :
  Batch.parseResponse Scenario.looseArray
  = Ok [VObj [(str "importance", VStr (str "high"))]]
  /\ Live.parseReply (Scenario.geminiData Scenario.looseArray)
     = Ok [VObj [(str "importance", VStr (str "high"))]]
  /\ prop (VObj [(str "importance", VStr (str "high"))]) "content"
     = Ok VUndefined.
Proof. vm_compute. repeat split. Qed.

(** ** Truncation of entry text *)

Lemma parseLine_text : forall line en,
  Batch.parseLine line = Ok (Some en) ->
  exists ent msg t,
    JSON_parse line = Ok ent /\ prop ent "message" = Ok msg
    /\ Batch.messageText msg = Ok t /\ Batch.text en = firstn 2000 t.
Proof.
  intros line en. unfold Batch.parseLine, andThen.
  destruct (JSON_parse line) as [ent|]; [|discriminate].
  destruct (prop ent "type") as [ty|]; [|discriminate].
  destruct (strictEq ty "message"); [|discriminate].
  destruct (prop ent "message") as [msg|] eqn:Pm; [|discriminate].
  destruct (truthy msg); [|discriminate].
  destruct (Batch.messageText msg) as [t|] eqn:T; [|discriminate].
  destruct (prop msg "role") as [r|]; [|discriminate].
  destruct (_ && _); [|discriminate].
  intros H. injection H as <-. exists ent, msg, t. repeat split; assumption.
Qed.

Lemma parseLines_from : forall lines entries tc en,
  In en (fst (Batch.parseLines lines entries tc)) ->
  In en entries
  \/ exists line, In line lines /\ Batch.parseLine line = Ok (Some en).
Proof.
  induction lines as [|line rest IH]; intros entries tc en H; simpl in H.
  - now left.
  - destruct (Batch.parseLine line) as [[en'|]|err] eqn:P.
    + apply IH in H. destruct H as [H|(l & Hl & Hp)].
      * apply in_app_or in H. destruct H as [H|[<-|[]]]; [now left|].
        right. exists line. split; [now left | exact P].
      * right. exists l. split; [now right | exact Hp].
    + apply IH in H. destruct H as [H|(l & Hl & Hp)]; [now left|].
      right. exists l. split; [now right | exact Hp].
    + apply IH in H. destruct H as [H|(l & Hl & Hp)]; [now left|].
      right. exists l. split; [now right | exact Hp].
Qed.

Lemma conversationLine_text : forall en line turn,
  Live.conversationLine en = Ok (Some (line, turn)) ->
  exists content t,
    prop (Live.data en) "content" = Ok content
    /\ Live.contentText content = Ok t
    /\ line = (if turn then str "USER: " ++ t
               else str "ASSISTANT: " ++
                    (if 2000 <? List.length t
                     then firstn 2000 t ++ str "..." else t)).
Proof.
  intros en line turn. unfold Live.conversationLine, andThen.
  destruct (_ || _); [discriminate|].
  destruct (prop (Live.data en) "role") as [r|]; [|discriminate].
  destruct (prop (Live.data en) "content") as [content|] eqn:C; [|discriminate].
  destruct (_ || _); [discriminate|].
  destruct (Live.contentText content) as [t|] eqn:T; [|discriminate].
  destruct (negb _); [discriminate|].
  destruct (strictEq r "user").
  - intros H. injection H as <- <-. exists content, t.
    repeat split; assumption.
  - destruct (strictEq r "assistant"); [|discriminate].
    intros H. injection H as <- <-. exists content, t.
    repeat split; assumption.
Qed.

(** C5, as the code has it.  On the batch path the text of every parsed
    entry, user or assistant, is the first 2000 code units of the message
    text: a prefix of it, of length min(2000, length), unchanged when the
    text has at most 2000 units.  On the live path a user text is forwarded
    whole, and an assistant text longer than 2000 units is forwarded as its
    first 2000 units followed by three dots. *)
Theorem entry_truncation :
  (forall content en,
     In en (fst (Batch.parseContent content)) ->
     exists line ent msg t,
       In line (split LF content) /\ JSON_parse line = Ok ent
       /\ prop ent "message" = Ok msg /\ Batch.messageText msg = Ok t
       /\ Batch.text en = firstn 2000 t
       /\ (exists rest, t = Batch.text en ++ rest)
       /\ List.length (Batch.text en) = Nat.min 2000 (List.length t)
       /\ (List.length t <= 2000 -> Batch.text en = t))
  /\ (forall en line turn,
        Live.conversationLine en = Ok (Some (line, turn)) ->
        exists content t,
          prop (Live.data en) "content" = Ok content
          /\ Live.contentText content = Ok t
          /\ line = (if turn then str "USER: " ++ t
                     else str "ASSISTANT: " ++
                          (if 2000 <? List.length t
                           then firstn 2000 t ++ str "..." else t))).
Proof.
  split; [|exact conversationLine_text].
  intros content en H. unfold Batch.parseContent in H.
  apply parseLines_from in H. destruct H as [[]|(line & Hl & Hp)].
  apply filter_In in Hl. destruct Hl as [Hl _].
  apply parseLine_text in Hp. destruct Hp as (ent & msg & t & J & Pm & T & E).
  exists line, ent, msg, t. repeat (split; [assumption|]).
  rewrite E. split; [|split].
  - exists (skipn 2000 t). symmetry. apply firstn_skipn.
  - apply length_firstn.
  - intros L. now apply firstn_all2.
Qed.

Lemma entry_truncation_witness :
  In Scenario.cutEntry (fst (Batch.parseContent Scenario.longTranscript))
  /\ exists line ent msg t,
       In line (split LF Scenario.longTranscript) /\ JSON_parse line = Ok ent
       /\ prop ent "message" = Ok msg /\ Batch.messageText msg = Ok t
       /\ Batch.text Scenario.cutEntry = firstn 2000 t
       /\ (exists rest, t = Batch.text Scenario.cutEntry ++ rest)
       /\ List.length (Batch.text Scenario.cutEntry)
          = Nat.min 2000 (List.length t)
       /\ (List.length t <= 2000 -> Batch.text Scenario.cutEntry = t).
Proof.
  assert (H : In Scenario.cutEntry
                (fst (Batch.parseContent Scenario.longTranscript)))
    by (vm_compute; left; reflexivity).
  split; [exact H|].
  exact (proj1 entry_truncation Scenario.longTranscript Scenario.cutEntry H).
Defined.

(** C5 as stated fails on the live path: a user text of 5000 characters is
    forwarded whole, and an assistant text of 5000 characters is forwarded
    as 2003 characters. *)
Lemma live_path_truncation_differs :
  Live.extractConversationText [Scenario.liveMessage "user" Scenario.longText]
  = Ok (str "USER: " ++ repeat 97%N 5000, 1)
  /\ Live.extractConversationText
       [Scenario.liveMessage "assistant" Scenario.longText]
     = Ok (str "ASSISTANT: " ++ repeat 97%N 2000 ++ str "...", 0).
Proof. split; vm_compute; reflexivity. Qed.

(** ** Discovery *)

Lemma dirent_induction : forall P : dirent -> Prop,
  (forall nm stat, P (File nm stat)) ->
  (forall nm, P (Directory nm None)) ->
  (forall nm entries, Forall P entries -> P (Directory nm (Some entries))) ->
  forall d, P d.
Proof.
  intros P HF HN HD. fix IH 1. intros [nm [entries|]|nm stat].
  - apply HD. induction entries as [|d rest IHrest]; constructor.
    + apply IH.
    + exact IHrest.
  - apply HN.
  - apply HF.
Qed.

Lemma statsOk_dir : forall nm entries,
  statsOk (Directory nm (Some entries)) <-> Forall statsOk entries.
Proof.
  intros nm entries. simpl. induction entries as [|d rest IH].
  - split; constructor.
  - split.
    + intros [H1 H2]. constructor; [exact H1 | now apply IH].
    + intros H. inversion H; subst. split; [assumption | now apply IH].
Qed.

Lemma Listed_incl : forall cutoff dir l l' s,
  incl l l' -> Listed cutoff dir l s -> Listed cutoff dir l' s.
Proof.
  intros cutoff dir l l' s I H. destruct H.
  - apply Listed_here; auto.
  - eapply Listed_below; eauto.
Qed.

Lemma Listed_nil : forall cutoff dir s, ~ Listed cutoff dir [] s.
Proof. intros cutoff dir s H. inversion H; subst; contradiction. Qed.

Lemma Listed_cons : forall cutoff dir d rest s,
  Listed cutoff dir (d :: rest) s
  <-> Listed cutoff dir [d] s \/ Listed cutoff dir rest s.
Proof.
  intros cutoff dir d rest s. split.
  - intros H. inversion H; subst.
    + destruct H0 as [->|Hin].
      * left. apply Listed_here; auto. now left.
      * right. apply Listed_here; auto.
    + destruct H0 as [->|Hin].
      * left. eapply Listed_below; eauto. now left.
      * right. eapply Listed_below; eauto.
  - intros [H|H]; eapply Listed_incl; try exact H.
    + intros x [<-|[]]. now left.
    + intros x Hx. now right.
Qed.

Lemma Listed_file : forall cutoff dir nm stat s,
  Listed cutoff dir [File nm stat] s
  <-> exists m, stat = Some m /\ endsWith (str ".jsonl") nm = true
                /\ Batch.recent cutoff m = true
                /\ s = {| Batch.path := Batch.pathJoin dir nm;
                          Batch.mtime := Some m; Batch.name := nm |}.
Proof.
  intros cutoff dir nm stat s. split.
  - intros H. inversion H; subst.
    + destruct H0 as [E|[]]. inversion E; subst. exists m. auto.
    + destruct H0 as [E|[]]. discriminate.
  - intros (m & -> & E & R & ->). apply Listed_here; auto. now left.
Qed.

Lemma Listed_directory : forall cutoff dir nm listing s,
  Listed cutoff dir [Directory nm listing] s
  <-> exists sub, listing = Some sub
                  /\ streq nm (str "subagent-artifacts") = false
                  /\ Listed cutoff (Batch.pathJoin dir nm) sub s.
Proof.
  intros cutoff dir nm listing s. split.
  - intros H. inversion H; subst.
    + destruct H0 as [E|[]]. discriminate.
    + destruct H0 as [E|[]]. inversion E; subst. exists sub. auto.
  - intros (sub & -> & E & L). eapply Listed_below; eauto. now left.
Qed.

(** The loop over a listing in which no entry throws. *)
Lemma scanLoop_spec : forall cutoff dir entries,
  Forall (fun d => forall acc,
            snd (Batch.scanEntry cutoff dir d acc) = false
            /\ forall s, In s (fst (Batch.scanEntry cutoff dir d acc))
                         <-> In s acc \/ Listed cutoff dir [d] s) entries ->
  forall acc s,
    In s (Batch.scanLoop (Batch.scanEntry cutoff dir) entries acc)
    <-> In s acc \/ Listed cutoff dir entries s.
Proof.
  intros cutoff dir entries H.
  induction H as [|d rest Hd _ IH]; intros acc s; simpl.
  - split; [now left | intros [H|H]; [exact H | now apply Listed_nil in H]].
  - destruct (Hd acc) as [T M].
    destruct (Batch.scanEntry cutoff dir d acc) as [acc' threw].
    simpl in T, M. subst threw.
    rewrite IH, M, (Listed_cons cutoff dir d rest). tauto.
Qed.

Lemma scanEntry_spec : forall d, statsOk d -> forall cutoff dir acc,
  snd (Batch.scanEntry cutoff dir d acc) = false
  /\ forall s, In s (fst (Batch.scanEntry cutoff dir d acc))
               <-> In s acc \/ Listed cutoff dir [d] s.
Proof.
  induction d as [nm stat|nm|nm entries IH] using dirent_induction;
    intros Hok cutoff dir acc.
  - (* a file *)
    simpl in Hok. destruct stat as [m|]; [|congruence]. simpl.
    destruct (endsWith (str ".jsonl") nm) eqn:E;
      [destruct (Batch.recent cutoff m) eqn:R|]; simpl;
      (split; [reflexivity|]); intros s; rewrite Listed_file.
    + rewrite in_app_iff. simpl. split.
      * intros [H|[<-|[]]]; [now left|]. right. exists m. auto.
      * intros [H|(m' & Em & _ & _ & ->)]; [now left|].
        inversion Em; subst. right. now left.
    + split; [now left|]. intros [H|(m' & Em & _ & R' & _)]; [exact H|].
      inversion Em; subst. congruence.
    + split; [now left|]. intros [H|(m' & _ & E' & _)]; [exact H|congruence].
  - (* an unreadable directory *)
    simpl. destruct (streq nm (str "subagent-artifacts")); simpl;
      (split; [reflexivity|]); intros s; rewrite Listed_directory;
      (split; [now left|]); intros [H|(sub & Es & _)]; auto; discriminate.
  - (* a readable directory *)
    apply statsOk_dir in Hok.
    assert (Hsub : Forall (fun d => forall acc0,
               snd (Batch.scanEntry cutoff (Batch.pathJoin dir nm) d acc0) = false
               /\ forall s,
                    In s (fst (Batch.scanEntry cutoff (Batch.pathJoin dir nm) d acc0))
                    <-> In s acc0 \/ Listed cutoff (Batch.pathJoin dir nm) [d] s)
             entries).
    { rewrite Forall_forall in *. intros d Hd acc0. apply IH; auto. }
    pose proof (scanLoop_spec cutoff (Batch.pathJoin dir nm) entries Hsub acc)
      as L.
    simpl. destruct (streq nm (str "subagent-artifacts")) eqn:E; simpl;
      (split; [reflexivity|]); intros s; rewrite Listed_directory.
    + split; [now left|]. intros [H|(sub & _ & E' & _)]; [exact H|congruence].
    + rewrite L. split.
      * intros [H|H]; [now left|]. right. exists entries. auto.
      * intros [H|(sub & Es & _ & H)]; [now left|].
        inversion Es; subst. now right.
Qed.

(** An unreadable directory is passed over: the scan of its siblings goes
    on as if it were not listed. *)
Lemma scanLoop_unreadable : forall cutoff dir pre nm post acc,
  Batch.scanLoop (Batch.scanEntry cutoff dir)
    (pre ++ Directory nm None :: post) acc
  = Batch.scanLoop (Batch.scanEntry cutoff dir) (pre ++ post) acc.
Proof.
  intros cutoff dir pre nm post. induction pre as [|d pre IH]; intros acc.
  - simpl. destruct (streq nm (str "subagent-artifacts")); reflexivity.
  - simpl. destruct (Batch.scanEntry cutoff dir d acc) as [acc' threw].
    destruct threw; [reflexivity | apply IH].
Qed.

Lemma scanEntry_dated : forall d cutoff dir acc,
  Forall dated acc -> Forall dated (fst (Batch.scanEntry cutoff dir d acc)).
Proof.
  induction d as [nm stat|nm|nm entries IH] using dirent_induction;
    intros cutoff dir acc Hacc; simpl.
  - destruct (endsWith (str ".jsonl") nm); [|exact Hacc].
    destruct stat as [m|]; [|exact Hacc].
    destruct (Batch.recent cutoff m); [|exact Hacc]. simpl.
    apply Forall_app. split; [exact Hacc|]. constructor; [|constructor].
    unfold dated. simpl. discriminate.
  - destruct (streq nm (str "subagent-artifacts")); exact Hacc.
  - destruct (streq nm (str "subagent-artifacts")); simpl; [exact Hacc|].
    revert acc Hacc. induction IH as [|d rest Hd _ IHrest]; intros acc Hacc.
    + exact Hacc.
    + simpl. specialize (Hd cutoff (Batch.pathJoin dir nm) acc Hacc).
      destruct (Batch.scanEntry cutoff (Batch.pathJoin dir nm) d acc)
        as [acc' threw].
      destruct threw; [exact Hd | apply IHrest; exact Hd].
Qed.

Lemma scanDir_dated : forall cutoff dir listing,
  Forall dated (Batch.scanDir cutoff dir listing []).
Proof.
  intros cutoff dir listing.
  pose proof (scanEntry_dated (Directory [] listing) cutoff dir []
                (Forall_nil _)) as H.
  unfold Batch.scanDir. simpl in H. destruct listing as [entries|].
  - (* the same loop, under another directory name *)
    clear H. generalize (@nil Batch.session) (Forall_nil dated).
    induction entries as [|d rest IH]; intros acc Hacc; simpl; [exact Hacc|].
    pose proof (scanEntry_dated d cutoff dir acc Hacc) as Hd.
    destruct (Batch.scanEntry cutoff dir d acc) as [acc' threw].
    destruct threw; [exact Hd | apply IH; exact Hd].
  - constructor.
Qed.

Lemma insertSession_In : forall a l x,
  In x (Batch.insertSession a l) <-> x = a \/ In x l.
Proof.
  intros a l x. induction l as [|b r IH]; simpl.
  - split; intros [H|H]; auto.
  - destruct (Batch.newer b a); simpl; [rewrite IH|]; intuition.
Qed.

Lemma sortSessions_In : forall l x, In x (Batch.sortSessions l) <-> In x l.
Proof.
  intros l x. induction l as [|a l IH]; simpl; [tauto|].
  rewrite insertSession_In, IH. intuition.
Qed.

Lemma insertSession_sorted : forall a l,
  dated a -> Forall dated l ->
  StronglySorted notOlder l -> StronglySorted notOlder (Batch.insertSession a l).
Proof.
  intros a l Da Dl S. induction S as [|b r S IH Hb]; simpl.
  - constructor; constructor.
  - inversion Dl as [|? ? Db Dr]; subst.
    unfold dated in Da, Db.
    destruct (Batch.mtime a) as [ma|] eqn:Ea; [|congruence].
    destruct (Batch.mtime b) as [mb|] eqn:Eb; [|congruence].
    unfold Batch.newer. rewrite Ea, Eb.
    destruct (Z.ltb_spec ma mb) as [Lt|Ge].
    + constructor; [now apply IH|].
      apply Forall_forall. intros x Hx. rewrite insertSession_In in Hx.
      destruct Hx as [->|Hx].
      * unfold notOlder. rewrite Ea, Eb. lia.
      * rewrite Forall_forall in Hb. now apply Hb.
    + constructor; [constructor; assumption|].
      constructor.
      * unfold notOlder. rewrite Ea, Eb. lia.
      * rewrite Forall_forall in *. intros x Hx.
        specialize (Hb x Hx). unfold notOlder in *.
        rewrite Ea. rewrite Eb in Hb.
        destruct (Batch.mtime x); [lia | contradiction].
Qed.

Lemma sortSessions_sorted : forall l,
  Forall dated l -> StronglySorted notOlder (Batch.sortSessions l).
Proof.
  induction l as [|a l IH]; intros D; simpl; [constructor|].
  inversion D as [|? ? Da Dl]; subst.
  apply insertSession_sorted; [exact Da| |now apply IH].
  apply Forall_forall. intros x Hx. rewrite sortSessions_In in Hx.
  rewrite Forall_forall in Dl. now apply Dl.
Qed.

Lemma insertSession_perm : forall a l,
  Permutation (Batch.insertSession a l) (a :: l).
Proof.
  intros a l. induction l as [|b r IH]; simpl; [reflexivity|].
  destruct (Batch.newer b a); [|reflexivity].
  rewrite IH. apply perm_swap.
Qed.

Lemma sortSessions_perm : forall l, Permutation (Batch.sortSessions l) l.
Proof.
  induction l as [|a l IH]; simpl; [reflexivity|].
  rewrite insertSession_perm. now constructor.
Qed.

(** C6, as the script has it.  Discovery reports the non-directory entries
    named [*.jsonl] whose modification time is at least [now - N hours]
    (there is no upper bound: an entry modified after [now] is reported
    too), found under the root and under every readable subdirectory other
    than [subagent-artifacts]; the result is a rearrangement of what the
    scan collected, most recently modified first; an unreadable directory
    is passed over and the scan of its siblings goes on. *)
Theorem discovery_contract :
  (forall e baseDir hoursAgo entries,
     sessionsListing e = Some entries ->
     Forall statsOk entries ->
     forall s,
       In s (Batch.findRecentSessions e baseDir hoursAgo)
       <-> Listed (option_map (fun h => now e - h * 60 * 60 * 1000)%Z hoursAgo)
                  baseDir entries s)
  /\ (forall e baseDir hoursAgo,
        StronglySorted notOlder (Batch.findRecentSessions e baseDir hoursAgo)
        /\ Permutation
             (Batch.findRecentSessions e baseDir hoursAgo)
             (Batch.scanDir
                (option_map (fun h => now e - h * 60 * 60 * 1000)%Z hoursAgo)
                baseDir (sessionsListing e) []))
  /\ (forall cutoff dir pre nm post acc,
        Batch.scanLoop (Batch.scanEntry cutoff dir)
          (pre ++ Directory nm None :: post) acc
        = Batch.scanLoop (Batch.scanEntry cutoff dir) (pre ++ post) acc)
  /\ (forall e baseDir hoursAgo,
        sessionsListing e = None ->
        Batch.findRecentSessions e baseDir hoursAgo = [])
  /\ (forall c m, Batch.recent (Some c) m = true <-> (c <= m)%Z).
Proof.
  split; [|split; [|split; [|split]]].
  - intros e baseDir hoursAgo entries L Ok s.
    unfold Batch.findRecentSessions. rewrite sortSessions_In, L.
    unfold Batch.scanDir. rewrite scanLoop_spec.
    + simpl. tauto.
    + rewrite Forall_forall in *. intros d Hd acc.
      apply scanEntry_spec. now apply Ok.
  - intros e baseDir hoursAgo. unfold Batch.findRecentSessions. split.
    + apply sortSessions_sorted. apply scanDir_dated.
    + apply sortSessions_perm.
  - exact scanLoop_unreadable.
  - intros e baseDir hoursAgo L. unfold Batch.findRecentSessions.
    now rewrite L.
  - intros c m. simpl. apply Z.leb_le.
Qed.

Lemma discovery_contract_witness :
  sessionsListing (Scenario.host Scenario.transcript Scenario.twoMemories)
  = Some Scenario.listing
  /\ Forall statsOk Scenario.listing
  /\ forall s,
       In s (Batch.findRecentSessions
               (Scenario.host Scenario.transcript Scenario.twoMemories)
               (str "/home/dev/.pi/agent/sessions") (Some 24%Z))
       <-> Listed (Some (1700000000000 - 24 * 60 * 60 * 1000)%Z)
                  (str "/home/dev/.pi/agent/sessions") Scenario.listing s.
Proof.
  assert (Ok : Forall statsOk Scenario.listing).
  { repeat constructor; simpl; try discriminate. }
  split; [reflexivity | split; [exact Ok|]].
  exact (proj1 discovery_contract
           (Scenario.host Scenario.transcript Scenario.twoMemories)
           (str "/home/dev/.pi/agent/sessions") (Some 24%Z)
           Scenario.listing eq_refl Ok).
Defined.

(** C6 as stated fails: a transcript modified after [now] is reported. *)
Lemma future_file_is_reported :
  (now Scenario.lateHost < 1700000060000)%Z
  /\ Batch.findRecentSessions Scenario.lateHost
       (Batch.sessionsDir Scenario.lateHost) (Some 24%Z)
     = [{| Batch.path := str "/home/dev/.pi/agent/sessions/late.jsonl";
           Batch.mtime := Some 1700000060000%Z;
           Batch.name := str "late.jsonl" |}].
Proof. split; vm_compute; reflexivity. Qed.

(** Why every [statSync] is taken to succeed in the first part of
    [discovery_contract]: a failing one ends the scan of its directory, and
    the entries listed after it are not reported. *)
Example failed_stat_ends_directory_scan :
  Batch.findRecentSessions Scenario.brokenHost
    (Batch.sessionsDir Scenario.brokenHost) (Some 24%Z) = [].
Proof. vm_compute. reflexivity. Qed.

(** ** One session *)

Lemma debug_run : forall cfg l w,
  exists w', Batch.debug cfg l w = (Ok tt, w') /\ quiet w w'.
Proof.
  intros cfg l w. unfold Batch.debug. destruct (Batch.verbose cfg).
  - eexists. split; [reflexivity | apply quiet_say].
  - eexists. split; [reflexivity | apply quiet_refl].
Qed.

Lemma extractMemories_eq : forall e conv w,
  Batch.extractMemories e conv w
  = (extraction (pi e (List.length (prompts w))
                   (Batch.extractionPrompt (slice0 15000 conv))),
     asked w (Batch.extractionPrompt (slice0 15000 conv))).
Proof.
  intros e conv w. unfold Batch.extractMemories. cbv zeta.
  set (prompt := Batch.extractionPrompt _) in *.
  unfold try_catch, bind, Batch.execPi, lift, extraction, asked.
  destruct (pi e (List.length (prompts w)) prompt) as [stdout|err].
  - destruct (Batch.parseResponse stdout) as [l|err] eqn:P; [reflexivity|].
    apply parseResponse_throws in P. subst err. reflexivity.
  - destruct (Batch.killed err); reflexivity.
Qed.

Lemma processSession_unreadable : forall cfg e sp w err,
  readFileSync e sp = Throw err ->
  Batch.processSession cfg e sp w
  = (Throw err, say w (LogProcessing (Batch.basename sp))).
Proof.
  intros cfg e sp w err H. unfold Batch.processSession.
  rewrite (bind_Ok _ _ _ _ _ _ _ (log_eq _ _)).
  unfold Batch.parseSession, bind, lift. now rewrite H.
Qed.

Lemma processSession_short : forall cfg e sp w content,
  readFileSync e sp = Ok content ->
  snd (Batch.parseContent content) < 3 ->
  exists w1, quiet w w1
             /\ Batch.processSession cfg e sp w = (Ok Batch.TooShort, w1).
Proof.
  intros cfg e sp w content H T. unfold Batch.processSession.
  rewrite (bind_Ok _ _ _ _ _ _ _ (log_eq _ _)).
  assert (P : Batch.parseSession e sp (say w (LogProcessing (Batch.basename sp)))
              = (Ok (Batch.parseContent content),
                 say w (LogProcessing (Batch.basename sp)))).
  { unfold Batch.parseSession, bind, lift. now rewrite H. }
  rewrite (bind_Ok _ _ _ _ _ _ _ P).
  destruct (Batch.parseContent content) as [entries tc]. simpl in T.
  apply Nat.ltb_lt in T. rewrite T.
  destruct (debug_run cfg (LogDebugSkipping tc)
              (say w (LogProcessing (Batch.basename sp)))) as (w1 & D & Q).
  rewrite (bind_Ok _ _ _ _ _ _ _ D). exists w1. split; [|reflexivity].
  eapply quiet_trans; [apply quiet_say | exact Q].
Qed.

(** A session with enough turns: the model is asked once, and the outcome
    is decided by what the extraction returns. *)
Lemma processSession_long : forall cfg e sp w content,
  readFileSync e sp = Ok content ->
  3 <= snd (Batch.parseContent content) ->
  exists w1,
    ledger w1 = ledger w /\ posts w1 = posts w
    /\ match extraction
               (pi e (List.length (prompts w))
                  (Batch.extractionPrompt
                     (slice0 15000
                        (Batch.formatConversation
                           (fst (Batch.parseContent content)))))) with
       | Throw err => Batch.processSession cfg e sp w = (Throw err, w1)
       | Ok [] => Batch.processSession cfg e sp w = (Ok Batch.NoMemories, w1)
       | Ok (m :: ms) =>
           if Batch.dryRun cfg then
             Batch.processSession cfg e sp w
             = (let '(r, w2) := mapM_ Batch.previewMemory (m :: ms)
                                  (say w1 LogDryRunHeader) in
                (match r with
                 | Ok _ => Ok (Batch.DryRunPreview (List.length (m :: ms)))
                 | Throw err => Throw err
                 end, w2))
           else
             Batch.processSession cfg e sp w
             = (let '(r, w2) := Batch.storeAll e (m :: ms) sp 0 0 w1 in
                (match r with
                 | Ok counts => Ok (Batch.Stored (List.length (m :: ms))
                                      (fst counts) (snd counts))
                 | Throw err => Throw err
                 end, w2))
       end.
Proof.
  intros cfg e sp w content H T. unfold Batch.processSession.
  rewrite (bind_Ok _ _ _ _ _ _ _ (log_eq _ _)).
  assert (P : Batch.parseSession e sp (say w (LogProcessing (Batch.basename sp)))
              = (Ok (Batch.parseContent content),
                 say w (LogProcessing (Batch.basename sp)))).
  { unfold Batch.parseSession, bind, lift. now rewrite H. }
  rewrite (bind_Ok _ _ _ _ _ _ _ P).
  destruct (Batch.parseContent content) as [entries tc]. simpl in T. simpl fst.
  assert (T' : (tc <? 3) = false) by (apply Nat.ltb_ge; exact T). rewrite T'.
  destruct (debug_run cfg
              (LogDebugLength (List.length (Batch.formatConversation entries)))
              (say w (LogProcessing (Batch.basename sp)))) as (w0 & D & Q).
  rewrite (bind_Ok _ _ _ _ _ _ _ D).
  assert (Q0 : quiet w w0) by (eapply quiet_trans; [apply quiet_say | exact Q]).
  destruct Q0 as (L0 & P0 & A0).
  pose proof (extractMemories_eq e (Batch.formatConversation entries) w0) as X.
  rewrite A0 in X.
  set (prompt := Batch.extractionPrompt _) in *.
  destruct (extraction (pi e (List.length (prompts w)) prompt)) as [ms|err].
  - rewrite (bind_Ok _ _ _ _ _ _ _ X).
    destruct (debug_run cfg (LogDebugExtracted (List.length ms))
                (asked w0 prompt)) as (w1 & D1 & (L1 & P1 & A1)).
    rewrite (bind_Ok _ _ _ _ _ _ _ D1).
    exists w1.
    split; [simpl in L1; congruence|]. split; [simpl in P1; congruence|].
    destruct ms as [|m ms]; [reflexivity|].
    change (List.length (m :: ms) =? 0) with false. cbv iota.
    destruct (Batch.dryRun cfg).
    + rewrite (bind_Ok _ _ _ _ _ _ _ (log_eq _ _)). unfold bind.
      destruct (mapM_ Batch.previewMemory (m :: ms) (say w1 LogDryRunHeader))
        as [[u|err] w2]; reflexivity.
    + unfold bind.
      destruct (Batch.storeAll e (m :: ms) sp 0 0 w1) as [[c|err] w2];
        reflexivity.
  - rewrite (bind_Throw _ _ _ _ _ _ _ X).
    exists (asked w0 prompt).
    split; [exact L0|]. split; [exact P0|]. reflexivity.
Qed.

(** ** Storing the memories of one session *)

Lemma storeAll_step : forall e m rest sp s f w,
  Batch.storeAll e (m :: rest) sp s f w
  = let '(ok, w') := storeStep e m sp w in
    Batch.storeAll e rest sp (if ok then S s else s) (if ok then f else S f) w'.
Proof.
  intros e m rest sp s f w. simpl. unfold bind at 1, try_catch, storeStep.
  unfold bind at 1.
  destruct (Batch.storeMemory e m sp w) as [[v|err] w']; reflexivity.
Qed.

Lemma counts_total : forall l, successes l + failures l = List.length l.
Proof.
  induction l as [|[|] l IH]; simpl; unfold successes, failures in *; simpl;
    lia.
Qed.

Lemma storeAll_counts : forall e ms sp s f w,
  fst (Batch.storeAll e ms sp s f w)
  = Ok (s + successes (storeOutcomes e ms sp w),
        f + failures (storeOutcomes e ms sp w)).
Proof.
  intros e ms sp. induction ms as [|m rest IH]; intros s f w.
  - simpl. unfold successes, failures. simpl. now rewrite !Nat.add_0_r.
  - rewrite storeAll_step. simpl storeOutcomes.
    destruct (storeStep e m sp w) as [[|] w']; rewrite IH;
      unfold successes, failures; simpl; f_equal; f_equal; lia.
Qed.

Lemma storeOutcomes_length : forall e ms sp w,
  List.length (storeOutcomes e ms sp w) = List.length ms.
Proof.
  intros e ms sp. induction ms as [|m rest IH]; intros w; simpl; [reflexivity|].
  destruct (storeStep e m sp w) as [ok w']. simpl. now rewrite IH.
Qed.

Lemma storeLoop_step : forall cfg e m rest sid sf cwd s f w,
  Live.storeLoop cfg e (m :: rest) sid sf cwd s f w
  = let '(ok, w') := liveStep cfg e m sid sf cwd w in
    Live.storeLoop cfg e rest sid sf cwd
      (if ok then S s else s) (if ok then f else S f) w'.
Proof.
  intros cfg e m rest sid sf cwd s f w. simpl.
  unfold bind at 1, try_catch, liveStep. unfold bind at 1.
  destruct (Live.storeOne cfg e m sid sf cwd w) as [[[|]|err] w'];
    reflexivity.
Qed.

Lemma storeLoop_counts : forall cfg e ms sid sf cwd s f w,
  fst (Live.storeLoop cfg e ms sid sf cwd s f w)
  = Ok (s + successes (liveOutcomes cfg e ms sid sf cwd w),
        f + failures (liveOutcomes cfg e ms sid sf cwd w)).
Proof.
  intros cfg e ms sid sf cwd. induction ms as [|m rest IH]; intros s f w.
  - simpl. unfold successes, failures. simpl. now rewrite !Nat.add_0_r.
  - rewrite storeLoop_step. simpl liveOutcomes.
    destruct (liveStep cfg e m sid sf cwd w) as [[|] w']; rewrite IH;
      unfold successes, failures; simpl; f_equal; f_equal; lia.
Qed.

Lemma liveOutcomes_length : forall cfg e ms sid sf cwd w,
  List.length (liveOutcomes cfg e ms sid sf cwd w) = List.length ms.
Proof.
  intros cfg e ms sid sf cwd.
  induction ms as [|m rest IH]; intros w; simpl; [reflexivity|].
  destruct (liveStep cfg e m sid sf cwd w) as [ok w']. simpl. now rewrite IH.
Qed.

(** A store call that fails, by a network error or by a response that is
    not ok, makes its iteration count as failed. *)
Lemma storeStep_failed : forall e m sp w,
  (forall r, match fetchMemory e (List.length (posts w)) r with
             | Response true _ => False
             | _ => True
             end) ->
  fst (storeStep e m sp w) = false.
Proof.
  intros e m sp w H. unfold storeStep, Batch.storeMemory, bind, lift.
  destruct (prop m "content") as [c|]; [|reflexivity].
  destruct (prop m "type") as [t|]; [|reflexivity].
  destruct (prop m "importance") as [i|]; [|reflexivity].
  destruct (prop m "tags") as [tags|]; [|reflexivity].
  destruct (spread (Batch.orEmpty tags)) as [tags'|]; [|reflexivity].
  unfold postMemory.
  specialize (H (Batch.batchRequest c t i tags' sp)).
  destruct (fetchMemory e (List.length (posts w))
              (Batch.batchRequest c t i tags' sp)) as [err|[|] body];
    [reflexivity | contradiction | reflexivity].
Qed.

Lemma liveStep_failed : forall cfg e m sid sf cwd w,
  (forall r, match fetchMemory e (List.length (posts w)) r with
             | Response true _ => False
             | _ => True
             end) ->
  fst (liveStep cfg e m sid sf cwd w) = false.
Proof.
  intros cfg e m sid sf cwd w H.
  unfold liveStep, Live.storeOne, bind, lift.
  destruct (prop m "content") as [c|]; [|reflexivity].
  destruct (prop m "type") as [t|]; [|reflexivity].
  destruct (prop m "importance") as [i|]; [|reflexivity].
  destruct (prop m "tags") as [tags|]; [|reflexivity].
  destruct (spread tags) as [tags'|]; [|reflexivity].
  unfold Live.automemRequest.
  destruct (Live.falsyArg (Live.AUTOMEM_TOKEN cfg)); [reflexivity|].
  unfold postMemory.
  specialize (H (Live.liveRequest c t i tags' sid sf cwd)).
  destruct (fetchMemory e (List.length (posts w))
              (Live.liveRequest c t i tags' sid sf cwd)) as [err|[|] body];
    [reflexivity | contradiction | reflexivity].
Qed.

(** One iteration of the batch loop: the request it sends, and what makes
    it count as stored. *)
Lemma storeStep_spec : forall e m sp w,
  fst (storeStep e m sp w)
  = match batchBody sp m with
    | Some r => batchStored (fetchMemory e (List.length (posts w)) r)
    | None => false
    end
  /\ posts (snd (storeStep e m sp w))
     = posts w ++ match batchBody sp m with Some r => [r] | None => [] end
  /\ ledger (snd (storeStep e m sp w)) = ledger w
  /\ prompts (snd (storeStep e m sp w)) = prompts w.
Proof.
  intros e m sp w.
  unfold storeStep, Batch.storeMemory, bind, lift, postMemory, throw,
    batchBody, batchStored.
  destruct m as [| |b|n|s0|l|fs]; cbn [prop].
  1, 2: simpl; rewrite app_nil_r; repeat split.
  5: destruct (spread (Batch.orEmpty (lookup (str "tags") fs))) as [tags|err];
       [|simpl; rewrite app_nil_r; repeat split].
  all: cbn [Batch.orEmpty truthy spread];
    match goal with
    | |- context [fetchMemory ?e0 ?n ?r] =>
        destruct (fetchMemory e0 n r) as [err'|[|] body]
    end; cbn [negb]; try destruct (JSON_parse body); simpl; repeat split.
Qed.

Lemma storeAll_posts : forall e sp ms s f w,
  posts (snd (Batch.storeAll e ms sp s f w))
  = posts w ++ bodies (batchBody sp) ms.
Proof.
  intros e sp ms. induction ms as [|m rest IH]; intros s f w.
  - simpl. now rewrite app_nil_r.
  - rewrite storeAll_step.
    destruct (storeStep_spec e m sp w) as (_ & P & _).
    destruct (storeStep e m sp w) as [ok w1]. simpl in P.
    rewrite IH, P, <- app_assoc. reflexivity.
Qed.

(** The same for one iteration of the live loop. *)
Lemma liveStep_spec : forall cfg e m sid sf cwd w,
  fst (liveStep cfg e m sid sf cwd w)
  = match liveBody cfg sid sf cwd m with
    | Some r => liveStored (fetchMemory e (List.length (posts w)) r)
    | None => false
    end
  /\ posts (snd (liveStep cfg e m sid sf cwd w))
     = posts w ++ match liveBody cfg sid sf cwd m with
                  | Some r => [r]
                  | None => []
                  end
  /\ ledger (snd (liveStep cfg e m sid sf cwd w)) = ledger w
  /\ prompts (snd (liveStep cfg e m sid sf cwd w)) = prompts w.
Proof.
  intros cfg e m sid sf cwd w.
  unfold liveStep, Live.storeOne, bind, lift, Live.automemRequest, postMemory,
    throw, liveBody, liveStored.
  destruct m as [| |b|n|s0|l|fs]; cbn [prop spread];
    destruct (Live.falsyArg (Live.AUTOMEM_TOKEN cfg));
    try (simpl; rewrite app_nil_r; repeat split; fail).
  - destruct (spread (lookup (str "tags") fs)); simpl; rewrite app_nil_r;
      repeat split.
  - destruct (spread (lookup (str "tags") fs)) as [tags|err];
      [|simpl; rewrite app_nil_r; repeat split].
    match goal with
    | |- context [fetchMemory ?e0 ?n ?r] =>
        destruct (fetchMemory e0 n r) as [err'|ok body]
    end; simpl; repeat split.
Qed.

Lemma storeLoop_posts : forall cfg e sid sf cwd ms s f w,
  posts (snd (Live.storeLoop cfg e ms sid sf cwd s f w))
  = posts w ++ bodies (liveBody cfg sid sf cwd) ms.
Proof.
  intros cfg e sid sf cwd ms. induction ms as [|m rest IH]; intros s f w.
  - simpl. now rewrite app_nil_r.
  - rewrite storeLoop_step.
    destruct (liveStep_spec cfg e m sid sf cwd w) as (_ & P & _).
    destruct (liveStep cfg e m sid sf cwd w) as [ok w1]. simpl in P.
    rewrite IH, P, <- app_assoc. reflexivity.
Qed.

(** C7, as the code has it.  Each memory goes through its own
    [try]/[catch] and, when a request body can be built from it, through its
    own store call: the requests sent are those of the memories, in order,
    one each; a memory from which no body can be built is not submitted and
    counts as failed.  The loop never throws; a failed store call adds one
    to [failed] and the loop goes on with the next memory, so [stored] and
    [failed] count the successful and the failed iterations and add up to
    the number of memories; with three memories of which the second fails
    the result is [(2, 1)].  The same holds for the loop of the live path,
    and a non-dry-run session whose extraction returned memories ends in a
    result, not in an exception. *)
Theorem store_failures_are_isolated :
  (forall e m sp w,
     fst (storeStep e m sp w)
     = match batchBody sp m with
       | Some r => batchStored (fetchMemory e (List.length (posts w)) r)
       | None => false
       end
     /\ posts (snd (storeStep e m sp w))
        = posts w ++ match batchBody sp m with Some r => [r] | None => [] end)
  /\ (forall e ms sp w,
        posts (snd (Batch.storeAll e ms sp 0 0 w))
        = posts w ++ bodies (batchBody sp) ms)
  /\ (forall cfg e m sid sf cwd w,
        fst (liveStep cfg e m sid sf cwd w)
        = match liveBody cfg sid sf cwd m with
          | Some r => liveStored (fetchMemory e (List.length (posts w)) r)
          | None => false
          end
        /\ posts (snd (liveStep cfg e m sid sf cwd w))
           = posts w ++ match liveBody cfg sid sf cwd m with
                        | Some r => [r]
                        | None => []
                        end)
  /\ (forall cfg e ms sid sf cwd w,
        posts (snd (Live.storeExtractedMemories cfg e ms sid sf cwd w))
        = posts w ++ bodies (liveBody cfg sid sf cwd) ms)
  /\ (forall e ms sp w,
     fst (Batch.storeAll e ms sp 0 0 w)
     = Ok (successes (storeOutcomes e ms sp w),
           failures (storeOutcomes e ms sp w))
     /\ successes (storeOutcomes e ms sp w)
        + failures (storeOutcomes e ms sp w) = List.length ms)
  /\ (forall e m rest sp s f w,
        Batch.storeAll e (m :: rest) sp s f w
        = let '(ok, w') := storeStep e m sp w in
          Batch.storeAll e rest sp
            (if ok then S s else s) (if ok then f else S f) w')
  /\ (forall e m sp w,
        (forall r, match fetchMemory e (List.length (posts w)) r with
                   | Response true _ => False
                   | _ => True
                   end) ->
        fst (storeStep e m sp w) = false)
  /\ (forall e m1 m2 m3 sp w,
        storeOutcomes e [m1; m2; m3] sp w = [true; false; true] ->
        fst (Batch.storeAll e [m1; m2; m3] sp 0 0 w) = Ok (2, 1))
  /\ (forall cfg e sp w content m ms,
        Batch.dryRun cfg = false ->
        readFileSync e sp = Ok content ->
        3 <= snd (Batch.parseContent content) ->
        extraction
          (pi e (List.length (prompts w))
             (Batch.extractionPrompt
                (slice0 15000
                   (Batch.formatConversation
                      (fst (Batch.parseContent content))))))
        = Ok (m :: ms) ->
        exists w1,
          posts w1 = posts w
          /\ fst (Batch.processSession cfg e sp w)
             = Ok (Batch.Stored (List.length (m :: ms))
                     (successes (storeOutcomes e (m :: ms) sp w1))
                     (failures (storeOutcomes e (m :: ms) sp w1)))
          /\ posts (snd (Batch.processSession cfg e sp w))
             = posts w ++ bodies (batchBody sp) (m :: ms))
  /\ (forall cfg e ms sid sf cwd w,
        fst (Live.storeExtractedMemories cfg e ms sid sf cwd w)
        = Ok (successes (liveOutcomes cfg e ms sid sf cwd w),
              failures (liveOutcomes cfg e ms sid sf cwd w))
        /\ successes (liveOutcomes cfg e ms sid sf cwd w)
           + failures (liveOutcomes cfg e ms sid sf cwd w) = List.length ms)
  /\ (forall cfg e m sid sf cwd w,
        (forall r, match fetchMemory e (List.length (posts w)) r with
                   | Response true _ => False
                   | _ => True
                   end) ->
        fst (liveStep cfg e m sid sf cwd w) = false)
  /\ (forall cfg e m1 m2 m3 sid sf cwd w,
        liveOutcomes cfg e [m1; m2; m3] sid sf cwd w = [true; false; true] ->
        fst (Live.storeExtractedMemories cfg e [m1; m2; m3] sid sf cwd w)
        = Ok (2, 1)).
Proof.
  split; [intros e m sp w; destruct (storeStep_spec e m sp w) as (A & B & _);
          now split|].
  split; [intros e ms sp w; apply storeAll_posts|].
  split; [intros cfg e m sid sf cwd w;
          destruct (liveStep_spec cfg e m sid sf cwd w) as (A & B & _);
          now split|].
  split; [intros cfg e ms sid sf cwd w; apply storeLoop_posts|].
  split; [|split; [|split; [|split; [|split; [|split; [|split]]]]]].
  - intros e ms sp w. split.
    + apply (storeAll_counts e ms sp 0 0 w).
    + rewrite counts_total. apply storeOutcomes_length.
  - exact storeAll_step.
  - exact storeStep_failed.
  - intros e m1 m2 m3 sp w H.
    rewrite (storeAll_counts e [m1; m2; m3] sp 0 0 w), H. reflexivity.
  - intros cfg e sp w content m ms D R T X.
    destruct (processSession_long cfg e sp w content R T) as (w1 & L1 & P1 & H).
    rewrite X, D in H. exists w1. split; [exact P1|]. rewrite H.
    pose proof (storeAll_counts e (m :: ms) sp 0 0 w1) as C.
    pose proof (storeAll_posts e sp (m :: ms) 0 0 w1) as Q.
    destruct (Batch.storeAll e (m :: ms) sp 0 0 w1) as [[c|err] w2];
      simpl in C; [|discriminate].
    injection C as ->. simpl in Q. rewrite P1 in Q. split; [reflexivity|].
    exact Q.
  - intros cfg e ms sid sf cwd w. unfold Live.storeExtractedMemories. split.
    + apply (storeLoop_counts cfg e ms sid sf cwd 0 0 w).
    + rewrite counts_total. apply liveOutcomes_length.
  - exact liveStep_failed.
  - intros cfg e m1 m2 m3 sid sf cwd w H.
    unfold Live.storeExtractedMemories.
    rewrite (storeLoop_counts cfg e [m1; m2; m3] sid sf cwd 0 0 w), H.
    reflexivity.
Qed.

Lemma store_failures_are_isolated_witness :
  storeOutcomes Scenario.flakyHost Scenario.threeMemories
    Scenario.sessionPath Scenario.fresh = [true; false; true]
  /\ fst (Batch.storeAll Scenario.flakyHost Scenario.threeMemories
            Scenario.sessionPath 0 0 Scenario.fresh) = Ok (2, 1)
  /\ liveOutcomes Scenario.liveConfig Scenario.flakyHost
       Scenario.threeMemories VUndefined (VStr Scenario.sessionPath)
       (str "/home/dev/proj") Scenario.fresh = [true; false; true]
  /\ fst (Live.storeExtractedMemories Scenario.liveConfig Scenario.flakyHost
            Scenario.threeMemories VUndefined (VStr Scenario.sessionPath)
            (str "/home/dev/proj") Scenario.fresh) = Ok (2, 1).
Proof.
  destruct store_failures_are_isolated
    as (_ & _ & _ & _ & _ & _ & _ & B & _ & _ & _ & L).
  split; [reflexivity|]. split; [apply B; reflexivity|].
  split; [reflexivity|]. apply L; reflexivity.
Defined.

(** C7 as stated fails where it says that each memory is submitted: a
    memory without [tags], which the model may well return, is never
    submitted by the live path, which counts it as failed; on the batch
    path a [null] element is not submitted either. *)
Lemma unsendable_memory_not_submitted :
  Live.storeExtractedMemories Scenario.liveConfig
    (Scenario.host Scenario.transcript Scenario.twoMemories)
    [Scenario.untagged] VUndefined (VStr Scenario.sessionPath)
    (str "/home/dev/proj") Scenario.fresh
  = (Ok (0, 1), Scenario.fresh)
  /\ fst (Batch.storeAll
            (Scenario.host Scenario.transcript Scenario.twoMemories)
            [VNull] Scenario.sessionPath 0 0 Scenario.fresh)
     = Ok (0, 1)
  /\ posts (snd (Batch.storeAll
                   (Scenario.host Scenario.transcript Scenario.twoMemories)
                   [VNull] Scenario.sessionPath 0 0 Scenario.fresh))
     = [].
Proof. vm_compute. repeat split. Qed.

(** ** Sessions that fail, sessions that are skipped *)














(* ================================================================= *)
(** * Part III.  Further properties of the code *)
(* ================================================================= *)

Import Facts.

(** ** The parser *)

Lemma parseLines_acc : forall lines entries tc,
  Batch.parseLines lines entries tc
  = (entries ++ fst (Batch.parseLines lines [] 0),
     tc + snd (Batch.parseLines lines [] 0)).
Proof.
  induction lines as [|line rest IH]; intros entries tc; simpl.
  - now rewrite app_nil_r, Nat.add_0_r.
  - destruct (Batch.parseLine line) as [[en|]|err]; try apply IH.
    rewrite IH.
    rewrite (IH [en] (if Batch.isUser (Batch.role en) then 1 else 0)).
    cbn [fst snd]. rewrite <- app_assoc.
    destruct (Batch.isUser (Batch.role en)); f_equal; lia.
Qed.

Lemma parseLines_app : forall l1 l2,
  Batch.parseLines (l1 ++ l2) [] 0
  = (fst (Batch.parseLines l1 [] 0) ++ fst (Batch.parseLines l2 [] 0),
     snd (Batch.parseLines l1 [] 0) + snd (Batch.parseLines l2 [] 0)).
Proof.
  induction l1 as [|line rest IH]; intros l2; simpl.
  - now destruct (Batch.parseLines l2 [] 0).
  - destruct (Batch.parseLine line) as [[en|]|err]; try apply IH.
    rewrite (parseLines_acc (rest ++ l2)), (parseLines_acc rest), IH.
    cbn [fst snd]. rewrite <- app_assoc. f_equal. lia.
Qed.

(** What one transcript line contributes. *)
Lemma parseLine_entry : forall line en,
  Batch.parseLine line = Ok (Some en) ->
  exists t, Batch.text en = firstn 2000 t /\ nonempty (trim t) = true.
Proof.
  intros line en. unfold Batch.parseLine, andThen.
  destruct (JSON_parse line) as [ent|]; [|discriminate].
  destruct (prop ent "type") as [ty|]; [|discriminate].
  destruct (strictEq ty "message"); [|discriminate].
  destruct (prop ent "message") as [msg|]; [|discriminate].
  destruct (truthy msg); [|discriminate].
  destruct (Batch.messageText msg) as [t|]; [|discriminate].
  destruct (prop msg "role") as [r|]; [|discriminate].
  destruct (nonempty (trim t)) eqn:T; simpl; [|discriminate].
  destruct (_ || _); [|discriminate].
  intros H. injection H as <-. exists t. split; [reflexivity | exact T].
Qed.

Lemma trim_nonempty : forall t, nonempty (trim t) = true -> t <> [].
Proof. intros t H ->. discriminate H. Qed.

Lemma parsed_text_bounds : forall content en,
  In en (fst (Batch.parseContent content)) ->
  1 <= List.length (Batch.text en) <= 2000.
Proof.
  intros content en H. unfold Batch.parseContent in H.
  apply parseLines_from in H.
  destruct H as [[]|(line & _ & P)].
  apply parseLine_entry in P. destruct P as (t & E & T).
  apply trim_nonempty in T. rewrite E, length_firstn.
  destruct t as [|c t]; [congruence|]. simpl List.length. lia.
Qed.

(** X1.  [parseSession] counts a turn exactly for the entries of role
    [user], so [turnCount] never exceeds the number of entries; and every
    entry it produces has a text of at least one and at most 2000 code
    units. *)
Theorem parse_counts_user_entries : forall content,
  snd (Batch.parseContent content)
  = List.length (filter isUserEntry (fst (Batch.parseContent content)))
  /\ snd (Batch.parseContent content)
     <= List.length (fst (Batch.parseContent content))
  /\ forall en, In en (fst (Batch.parseContent content)) ->
       1 <= List.length (Batch.text en) <= 2000.
Proof.
  intros content. unfold Batch.parseContent.
  set (lines := filter nonempty (split LF content)).
  assert (C : snd (Batch.parseLines lines [] 0)
              = List.length (filter isUserEntry
                               (fst (Batch.parseLines lines [] 0)))).
  { induction lines as [|line rest IH]; simpl; [reflexivity|].
    destruct (Batch.parseLine line) as [[en|]|err]; try exact IH.
    rewrite parseLines_acc. simpl. unfold isUserEntry at 1.
    destruct (Batch.isUser (Batch.role en)); simpl; now rewrite IH. }
  split; [exact C|]. split.
  - rewrite C. apply filter_length_le.
  - apply parsed_text_bounds.
Qed.

Lemma parse_counts_user_entries_witness :
  In Scenario.cutEntry (fst (Batch.parseContent Scenario.longTranscript))
  /\ 1 <= List.length (Batch.text Scenario.cutEntry) <= 2000.
Proof.
  assert (H : In Scenario.cutEntry
                (fst (Batch.parseContent Scenario.longTranscript)))
    by (vm_compute; left; reflexivity).
  split; [exact H|].
  exact (proj2 (proj2 (parse_counts_user_entries Scenario.longTranscript))
           Scenario.cutEntry H).
Defined.

Lemma parseContent_sep : forall a b,
  Batch.parseContent (a ++ LF :: b)
  = (fst (Batch.parseContent a) ++ fst (Batch.parseContent b),
     snd (Batch.parseContent a) + snd (Batch.parseContent b)).
Proof.
  intros a b. unfold Batch.parseContent.
  rewrite split_sep, filter_app. apply parseLines_app.
Qed.

(** X2.  [parseSession] works line by line: the parse of two transcripts
    joined by a line feed is the parse of the first followed by the parse
    of the second, with the turn counts added; so text that yields no entry
    (blank lines, malformed or foreign records) can stand between two
    records without changing the result. *)
Theorem parse_is_line_by_line :
  (forall a b,
     Batch.parseContent (a ++ LF :: b)
     = (fst (Batch.parseContent a) ++ fst (Batch.parseContent b),
        snd (Batch.parseContent a) + snd (Batch.parseContent b)))
  /\ (forall a noise b,
        Batch.parseContent noise = ([], 0) ->
        Batch.parseContent (a ++ LF :: noise ++ LF :: b)
        = Batch.parseContent (a ++ LF :: b)).
Proof.
  split; [exact parseContent_sep|].
  intros a noise b H.
  rewrite (parseContent_sep a (noise ++ LF :: b)).
  rewrite (parseContent_sep noise b), H.
  rewrite (parseContent_sep a b). reflexivity.
Qed.

Lemma parse_is_line_by_line_witness :
  Batch.parseContent (str "{not a record" ++ LF :: str "null") = ([], 0)
  /\ Batch.parseContent
       (Scenario.shortTranscript ++ LF
        :: (str "{not a record" ++ LF :: str "null") ++ LF
        :: Scenario.transcript)
     = Batch.parseContent
         (Scenario.shortTranscript ++ LF :: Scenario.transcript).
Proof.
  split; [reflexivity|].
  apply (proj2 parse_is_line_by_line). reflexivity.
Defined.

(** ** Size of what is sent to the model *)

Lemma join_length_le : forall sep k l,
  (forall x, In x l -> List.length x <= k) ->
  List.length (join sep l) <= List.length l * (k + List.length sep).
Proof.
  intros sep k l. induction l as [|a r IH]; intros H; simpl; [lia|].
  assert (Ha : List.length a <= k) by (apply H; now left).
  assert (Hr : List.length (join sep r) <= List.length r * (k + List.length sep))
    by (apply IH; intros x Hx; apply H; now right).
  destruct r as [|b r']; [simpl in *; lia|].
  rewrite !length_app. lia.
Qed.

Lemma upper_length : forall r, List.length (Batch.upper r) <= 9.
Proof. intros [|]; vm_compute; lia. Qed.

(** X3.  The conversation [formatConversation] renders from a parsed
    transcript is bounded by the number of entries: at most 2013 code
    units per entry (role, colon, 2000 units of text, blank line). *)
Theorem conversation_size_bounded : forall content,
  List.length (Batch.formatConversation (fst (Batch.parseContent content)))
  <= List.length (fst (Batch.parseContent content)) * 2013.
Proof.
  intros content. unfold Batch.formatConversation.
  pose proof (parsed_text_bounds content) as B.
  set (entries := fst (Batch.parseContent content)) in *.
  pose proof (join_length_le (nl ++ nl) 2011
                (map (fun en => Batch.upper (Batch.role en) ++ str ": "
                                ++ Batch.text en) entries)) as J.
  rewrite length_map in J. change (List.length (nl ++ nl)) with 2 in J.
  change (2011 + 2) with 2013 in J. apply J.
  intros x Hx. apply in_map_iff in Hx. destruct Hx as (en & <- & Hen).
  rewrite !length_app. change (List.length (str ": ")) with 2.
  pose proof (upper_length (Batch.role en)). specialize (B en Hen). lia.
Qed.



Lemma callGemini_effect : forall cfg e text w,
  ledger (snd (Live.callGeminiForExtraction cfg e text w)) = ledger w
  /\ posts (snd (Live.callGeminiForExtraction cfg e text w)) = posts w
  /\ prompts (snd (Live.callGeminiForExtraction cfg e text w))
     = prompts w
       ++ (if Live.falsyArg (Live.GEMINI_API_KEY cfg) then []
           else [Live.extractionPrompt (slice0 30000 text)]).
Proof.
  intros cfg e text w. unfold Live.callGeminiForExtraction.
  destruct (Live.falsyArg (Live.GEMINI_API_KEY cfg)).
  - simpl. rewrite app_nil_r. auto.
  - set (prompt := Live.extractionPrompt _).
    unfold try_catch, bind, askModel, lift, throw, log, ret.
    destruct (fetchGemini e (List.length (prompts w)) prompt)
      as [err|[|] body]; simpl; auto.
    destruct (JSON_parse body) as [d|err]; simpl; auto.
    destruct (Live.parseReply d); simpl; auto.
Qed.



(** ** Fences and the array scan *)

Lemma firstn_app_exact : forall (A : Type) (a b : list A),
  firstn (List.length a) (a ++ b) = a.
Proof.
  intros A a b. induction a as [|x a IH]; simpl.
  - now destruct b.
  - now rewrite IH.
Qed.

Lemma startsWith_app : forall p s, startsWith p (p ++ s) = true.
Proof.
  induction p as [|a p IH]; intros s; simpl; [reflexivity|].
  now rewrite N.eqb_refl, IH.
Qed.

Lemma endsWith_app : forall p s, endsWith p (s ++ p) = true.
Proof.
  intros p s. unfold endsWith. rewrite rev_app_distr. apply startsWith_app.
Qed.

Lemma stripFenceEnd_closing : forall body,
  Batch.stripFenceEnd (body ++ nl ++ Batch.fence) = body.
Proof.
  intros body. unfold Batch.stripFenceEnd.
  rewrite endsWith_app, length_app.
  change (List.length (nl ++ Batch.fence)) with 4.
  rewrite Nat.add_sub. apply firstn_app_exact.
Qed.

Lemma fromFirst_Some : forall c s r,
  Batch.fromFirst c s = Some r ->
  exists pre rest, s = pre ++ c :: rest /\ r = c :: rest /\ ~ In c pre.
Proof.
  intros c s. induction s as [|x s IH]; intros r H; simpl in H.
  - discriminate.
  - destruct (N.eqb_spec x c) as [->|Ne].
    + injection H as <-. exists [], s. auto.
    + destruct (IH r H) as (pre & rest & -> & -> & Hn).
      exists (x :: pre), rest. repeat split; auto.
      intros [E|Hin]; [congruence | contradiction].
Qed.

Lemma fromFirst_None : forall c s,
  Batch.fromFirst c s = None <-> ~ In c s.
Proof.
  intros c s. induction s as [|x s IH]; simpl.
  - split; auto.
  - destruct (N.eqb_spec x c) as [->|Ne].
    + split; [discriminate|]. intros H. exfalso. apply H. now left.
    + rewrite IH. split.
      * intros H [E|Hin]; [congruence | contradiction].
      * intros H Hin. apply H. now right.
Qed.

Lemma uptoLast_Some : forall c s b,
  Batch.uptoLast c s = Some b ->
  exists body post, s = b ++ post /\ b = body ++ [c] /\ ~ In c post.
Proof.
  intros c s b H. unfold Batch.uptoLast in H.
  destruct (Batch.fromFirst c (rev s)) as [r|] eqn:F; [|discriminate].
  injection H as <-.
  destruct (fromFirst_Some _ _ _ F) as (pre & rest & E & -> & Hn).
  exists (rev rest), (rev pre). split; [|split].
  - rewrite <- (rev_involutive s), E, rev_app_distr. reflexivity.
  - reflexivity.
  - intros Hin. apply Hn. now apply in_rev.
Qed.

Lemma uptoLast_None : forall c s,
  Batch.uptoLast c s = None <-> ~ In c s.
Proof.
  intros c s. unfold Batch.uptoLast.
  destruct (Batch.fromFirst c (rev s)) as [r|] eqn:F.
  - split; [discriminate|]. intros H. exfalso.
    assert (N : Batch.fromFirst c (rev s) <> None) by congruence.
    apply N. apply fromFirst_None. intros Hin. apply H. now apply in_rev.
  - split; [|reflexivity]. intros _ Hin.
    apply fromFirst_None in F. apply F. now rewrite <- in_rev.
Qed.

(** The first occurrence found in front of a later one. *)
Lemma fromFirst_before : forall c pre x r,
  Batch.fromFirst c (pre ++ c :: x) = Some r ->
  exists z, r = c :: z ++ x.
Proof.
  intros c pre x. induction pre as [|a pre IH]; intros r H; simpl in H.
  - rewrite N.eqb_refl in H. injection H as <-. now exists [].
  - destruct (N.eqb_spec a c) as [->|Ne].
    + injection H as <-. exists (pre ++ [c]).
      now rewrite <- app_assoc.
    + now apply IH.
Qed.

(** X6.  The array scan of [extractMemories] returns the stretch of the
    reply from its first opening bracket to its last closing bracket, and
    finds nothing exactly when no closing bracket follows an opening one. *)
Theorem array_scan_is_outermost : forall t,
  (forall m, Batch.matchArray t = Some m ->
     exists pre body post,
       t = pre ++ m ++ post /\ m = 91%N :: body ++ [93%N]
       /\ ~ In 91%N pre /\ ~ In 93%N post)
  /\ (Batch.matchArray t = None <->
      forall pre body post, t <> pre ++ 91%N :: body ++ 93%N :: post).
Proof.
  intros t. split.
  - intros m H. unfold Batch.matchArray in H.
    destruct (Batch.fromFirst 91 t) as [[|open rest]|] eqn:F; try discriminate.
    destruct (Batch.uptoLast 93 rest) as [b|] eqn:U; [|discriminate].
    injection H as <-.
    destruct (fromFirst_Some _ _ _ F) as (pre & rest' & E & R & Hn).
    injection R as -> <-.
    destruct (uptoLast_Some _ _ _ U) as (body & post & E2 & -> & Hp).
    exists pre, body, post. repeat split; auto.
    rewrite E, E2. simpl. now rewrite <- app_assoc.
  - split.
    + intros H pre body post E. unfold Batch.matchArray in H.
      destruct (Batch.fromFirst 91 t) as [r|] eqn:F.
      * rewrite E in F. destruct (fromFirst_before _ _ _ _ F) as (z & ->).
        destruct (Batch.uptoLast 93 (z ++ body ++ 93%N :: post)) eqn:U;
          [discriminate|].
        apply uptoLast_None in U. apply U.
        apply in_or_app. right. apply in_or_app. right. now left.
      * apply fromFirst_None in F. apply F. rewrite E.
        apply in_or_app. right. now left.
    + intros H. unfold Batch.matchArray.
      destruct (Batch.fromFirst 91 t) as [[|open rest]|] eqn:F; try reflexivity.
      destruct (Batch.uptoLast 93 rest) as [b|] eqn:U; [|reflexivity].
      exfalso.
      destruct (fromFirst_Some _ _ _ F) as (pre & rest' & E & R & _).
      injection R as -> <-.
      destruct (uptoLast_Some _ _ _ U) as (body & post & E2 & -> & _).
      apply (H pre body post). rewrite E, E2. now rewrite <- app_assoc.
Qed.

Lemma array_scan_is_outermost_witness :
  Batch.matchArray (str "Sure: [1, [2]] ok]") = Some (str "[1, [2]] ok]")
  /\ exists pre body post,
       str "Sure: [1, [2]] ok]" = pre ++ str "[1, [2]] ok]" ++ post
       /\ str "[1, [2]] ok]" = 91%N :: body ++ [93%N]
       /\ ~ In 91%N pre /\ ~ In 93%N post.
Proof.
  split; [reflexivity|].
  apply (proj1 (array_scan_is_outermost (str "Sure: [1, [2]] ok]"))).
  reflexivity.
Defined.

Lemma matchArray_whole : forall body,
  Batch.matchArray (91%N :: body ++ [93%N]) = Some (91%N :: body ++ [93%N]).
Proof.
  intros body. unfold Batch.matchArray. simpl. unfold Batch.uptoLast.
  rewrite rev_app_distr. simpl. now rewrite rev_involutive.
Qed.


(** *** The scan sees through trimming and fence stripping *)

Lemma fromFirst_skip : forall c pre s,
  ~ In c pre -> Batch.fromFirst c (pre ++ s) = Batch.fromFirst c s.
Proof.
  induction pre as [|a pre IH]; intros s H; simpl; [reflexivity|].
  destruct (N.eqb_spec a c) as [->|_]; [exfalso; apply H; now left|].
  apply IH. intros Hin. apply H. now right.
Qed.

Lemma fromFirst_app : forall c s post,
  Batch.fromFirst c (s ++ post)
  = match Batch.fromFirst c s with
    | Some r => Some (r ++ post)
    | None => Batch.fromFirst c post
    end.
Proof.
  induction s as [|a s IH]; intros post; simpl; [reflexivity|].
  destruct (a =? c)%N; [reflexivity | apply IH].
Qed.

Lemma uptoLast_app : forall c s post,
  ~ In c post -> Batch.uptoLast c (s ++ post) = Batch.uptoLast c s.
Proof.
  intros c s post H. unfold Batch.uptoLast.
  rewrite rev_app_distr, fromFirst_skip; [reflexivity|].
  now rewrite <- in_rev.
Qed.

(** Text without brackets before and after does not change what the scan
    finds. *)
Lemma matchArray_frame : forall pre s post,
  ~ In 91%N pre -> ~ In 91%N post -> ~ In 93%N post ->
  Batch.matchArray (pre ++ s ++ post) = Batch.matchArray s.
Proof.
  intros pre s post H1 H2 H3. unfold Batch.matchArray.
  rewrite fromFirst_skip by assumption. rewrite fromFirst_app.
  destruct (Batch.fromFirst 91 s) as [r|] eqn:F.
  - apply fromFirst_Some in F. destruct F as (p0 & rest & _ & -> & _).
    simpl. now rewrite uptoLast_app.
  - now rewrite (proj2 (fromFirst_None 91%N post) H2).
Qed.

Lemma trimStart_split : forall s,
  exists pre, s = pre ++ trimStart s /\ Forall (fun c => is_space c = true) pre.
Proof.
  induction s as [|c s IH]; [exists []; auto|]. simpl.
  destruct (is_space c) eqn:E.
  - destruct IH as (pre & Hs & Hp). exists (c :: pre).
    split; [simpl; congruence | now constructor].
  - exists []. auto.
Qed.

Lemma spaces_plain : forall l c,
  Forall (fun x => is_space x = true) l -> is_space c = false -> ~ In c l.
Proof.
  intros l c F H Hin. rewrite Forall_forall in F. apply F in Hin. congruence.
Qed.

Lemma matchArray_trim : forall s, Batch.matchArray (trim s) = Batch.matchArray s.
Proof.
  intros s. destruct (trimStart_split s) as (pre & Hs & Hp).
  destruct (trimStart_split (rev (trimStart s))) as (q & Hq & Hq').
  assert (E : s = pre ++ trim s ++ rev q).
  { transitivity (pre ++ trimStart s); [exact Hs|]. f_equal.
    unfold trim, trimEnd. apply (f_equal (@rev N)) in Hq.
    now rewrite rev_involutive, rev_app_distr in Hq. }
  transitivity (Batch.matchArray (pre ++ trim s ++ rev q));
    [|now rewrite <- E].
  symmetry. apply matchArray_frame.
  - now apply spaces_plain.
  - apply spaces_plain; [now apply Forall_rev | reflexivity].
  - apply spaces_plain; [now apply Forall_rev | reflexivity].
Qed.

Lemma startsWith_split : forall p s,
  startsWith p s = true -> s = p ++ skipn (List.length p) s.
Proof.
  induction p as [|a p IH]; intros [|b s] H; simpl in *;
    try reflexivity; try discriminate.
  apply andb_true_iff in H. destruct H as [E H]. apply N.eqb_eq in E.
  subst. f_equal. now apply IH.
Qed.

Lemma endsWith_split : forall p s,
  endsWith p s = true ->
  s = firstn (List.length s - List.length p) s ++ p.
Proof.
  intros p s H. unfold endsWith in H. apply startsWith_split in H.
  rewrite length_rev, skipn_rev in H. apply (f_equal (@rev N)) in H.
  now rewrite rev_involutive, rev_app_distr, !rev_involutive in H.
Qed.

Ltac plain := intros Hin; cbv in Hin; intuition discriminate.

Lemma stripFenceStart_split : forall t,
  startsWith Batch.fence t = true ->
  exists pre, t = pre ++ Batch.stripFenceStart t /\ ~ In 91%N pre.
Proof.
  intros t H. apply startsWith_split in H.
  change (List.length Batch.fence) with 3 in H.
  unfold Batch.stripFenceStart. cbv zeta.
  set (t1 := skipn 3 t) in *.
  destruct (startsWith (str "json") t1) eqn:J.
  - apply startsWith_split in J.
    change (List.length (str "json")) with 4 in J.
    set (t2 := skipn 4 t1) in *.
    destruct (startsWith nl t2) eqn:L.
    + apply startsWith_split in L. change (List.length nl) with 1 in L.
      exists (Batch.fence ++ str "json" ++ nl). split; [|plain].
      rewrite H, J, L at 1. now rewrite <- !app_assoc.
    + exists (Batch.fence ++ str "json"). split; [|plain].
      rewrite H, J at 1. now rewrite <- !app_assoc.
  - destruct (startsWith nl t1) eqn:L.
    + apply startsWith_split in L. change (List.length nl) with 1 in L.
      exists (Batch.fence ++ nl). split; [|plain].
      rewrite H, L at 1. now rewrite <- !app_assoc.
    + exists Batch.fence. split; [exact H | plain].
Qed.

Lemma stripFenceEnd_split : forall u,
  exists post, u = Batch.stripFenceEnd u ++ post
               /\ ~ In 91%N post /\ ~ In 93%N post.
Proof.
  intros u. unfold Batch.stripFenceEnd.
  destruct (endsWith (nl ++ Batch.fence) u) eqn:A.
  - apply endsWith_split in A. exists (nl ++ Batch.fence).
    split; [exact A | split; plain].
  - destruct (endsWith Batch.fence u) eqn:B.
    + apply endsWith_split in B. exists Batch.fence.
      split; [exact B | split; plain].
    + exists []. rewrite app_nil_r. auto.
Qed.

Lemma matchArray_stripFences : forall t,
  Batch.matchArray (Batch.stripFences t) = Batch.matchArray t.
Proof.
  intros t. unfold Batch.stripFences.
  destruct (startsWith Batch.fence t) eqn:F; [|reflexivity].
  destruct (stripFenceStart_split t F) as (pre & Ht & Hp).
  destruct (stripFenceEnd_split (Batch.stripFenceStart t))
    as (post & Hu & Hq1 & Hq2).
  transitivity (Batch.matchArray
                  (pre ++ Batch.stripFenceEnd (Batch.stripFenceStart t)
                       ++ post)).
  - symmetry. now apply matchArray_frame.
  - now rewrite <- Hu, <- Ht.
Qed.

Lemma parseResponse_scan : forall stdout,
  Batch.parseResponse stdout
  = match Batch.matchArray stdout with
    | None => Ok []
    | Some m =>
        andThen (JSON_parse m) (fun memories =>
        Ok (match memories with VArr l => l | _ => [] end))
    end.
Proof.
  intros stdout. unfold Batch.parseResponse. cbv zeta.
  now rewrite matchArray_stripFences, matchArray_trim.
Qed.

(** X5.  What [extractMemories] makes of the model's output depends only
    on the stretch from the first opening to the last closing bracket of
    the raw output: trimming and fence stripping never change the outcome.
    In particular a reply wrapped in a [```json] or a bare [```] fence, each
    on its own line, is stripped to exactly the text between the fences and
    is parsed as that text is, whatever the text. *)
Theorem fence_is_transparent :
  (forall stdout,
     Batch.parseResponse stdout
     = match Batch.matchArray stdout with
       | None => Ok []
       | Some m =>
           andThen (JSON_parse m) (fun memories =>
           Ok (match memories with VArr l => l | _ => [] end))
       end)
  /\ (forall body,
        Batch.stripFences
          (Batch.fence ++ (str "json" ++ nl ++ body ++ nl) ++ Batch.fence)
        = body)
  /\ (forall body,
        Batch.stripFences (Batch.fence ++ (nl ++ body ++ nl) ++ Batch.fence)
        = body)
  /\ (forall body,
        Batch.parseResponse
          (Batch.fence ++ (str "json" ++ nl ++ body ++ nl) ++ Batch.fence)
        = Batch.parseResponse body)
  /\ (forall body,
        Batch.parseResponse
          (Batch.fence ++ (nl ++ body ++ nl) ++ Batch.fence)
        = Batch.parseResponse body).
Proof.
  split; [exact parseResponse_scan|].
  split; [|split; [|split]].
  - intros body. unfold Batch.stripFences. simpl.
    rewrite <- app_assoc. apply stripFenceEnd_closing.
  - intros body. unfold Batch.stripFences. simpl.
    rewrite <- app_assoc. apply stripFenceEnd_closing.
  - intros body. rewrite !parseResponse_scan.
    replace (Batch.fence ++ (str "json" ++ nl ++ body ++ nl) ++ Batch.fence)
      with ((Batch.fence ++ str "json" ++ nl) ++ body ++ (nl ++ Batch.fence))
      by (now rewrite <- !app_assoc).
    rewrite matchArray_frame; [reflexivity | plain | plain | plain].
  - intros body. rewrite !parseResponse_scan.
    replace (Batch.fence ++ (nl ++ body ++ nl) ++ Batch.fence)
      with ((Batch.fence ++ nl) ++ body ++ (nl ++ Batch.fence))
      by (now rewrite <- !app_assoc).
    rewrite matchArray_frame; [reflexivity | plain | plain | plain].
Qed.

(** X7.  On a reply that is one bracketed text (after trimming and fence
    stripping), the two extractors make the same thing of it: the live
    path's parse of the whole text and the batch path's parse of the
    scanned array coincide, result or [SyntaxError]. *)
Theorem extractors_agree_on_arrays : forall data t body,
  Live.candidateText data = Ok (VStr t) ->
  Batch.stripFences (trim t) = 91%N :: body ++ [93%N] ->
  Live.parseReply data = Batch.parseResponse t.
Proof.
  intros data t body C E. unfold Live.parseReply, Batch.parseResponse.
  rewrite C. simpl. rewrite E, matchArray_whole. reflexivity.
Qed.

Lemma extractors_agree_on_arrays_witness :
  Live.candidateText (Scenario.geminiData Scenario.twoMemories)
  = Ok (VStr Scenario.twoMemories)
  /\ Live.parseReply (Scenario.geminiData Scenario.twoMemories)
     = Batch.parseResponse Scenario.twoMemories.
Proof.
  split; [reflexivity|].
  apply (extractors_agree_on_arrays (Scenario.geminiData Scenario.twoMemories)
           Scenario.twoMemories
           (removelast (tl (Batch.stripFences (trim Scenario.twoMemories)))));
    reflexivity.
Defined.

(** ** What one session does to the outside *)

Lemma batchRequest_provenance : forall c t i tags sp,
  batchProvenance sp (Batch.batchRequest c t i tags sp).
Proof. intros. split; [reflexivity | now exists tags]. Qed.

Lemma bodies_provenance : forall sp ms,
  Forall (batchProvenance sp) (bodies (batchBody sp) ms).
Proof.
  intros sp ms. induction ms as [|m rest IH]; simpl; [constructor|].
  apply Forall_app. split; [|exact IH].
  unfold batchBody.
  destruct m as [| |b|n|s0|l|fs]; try constructor;
    try apply batchRequest_provenance; try constructor.
  destruct (spread (Batch.orEmpty (lookup (str "tags") fs)));
    constructor; [apply batchRequest_provenance | constructor].
Qed.

Lemma bodies_length : forall body ms,
  List.length (bodies body ms) <= List.length ms.
Proof.
  intros body ms. induction ms as [|m rest IH]; simpl; [lia|].
  rewrite length_app. destruct (body m); simpl; lia.
Qed.

Lemma storeAll_frame : forall e sp ms s f w,
  ledger (snd (Batch.storeAll e ms sp s f w)) = ledger w
  /\ prompts (snd (Batch.storeAll e ms sp s f w)) = prompts w.
Proof.
  intros e sp ms. induction ms as [|m rest IH]; intros s f w.
  - simpl. auto.
  - rewrite storeAll_step.
    destruct (storeStep_spec e m sp w) as (_ & _ & L & A).
    destruct (storeStep e m sp w) as [ok w1]. simpl in L, A.
    destruct (IH (if ok then S s else s) (if ok then f else S f) w1)
      as (L' & A').
    split; congruence.
Qed.

Lemma storeAll_effect : forall e sp ms s f w,
  ledger (snd (Batch.storeAll e ms sp s f w)) = ledger w
  /\ prompts (snd (Batch.storeAll e ms sp s f w)) = prompts w
  /\ exists extra,
       posts (snd (Batch.storeAll e ms sp s f w)) = posts w ++ extra
       /\ Forall (batchProvenance sp) extra
       /\ List.length extra <= List.length ms.
Proof.
  intros e sp ms s f w. destruct (storeAll_frame e sp ms s f w) as (L & A).
  split; [exact L | split; [exact A|]].
  exists (bodies (batchBody sp) ms).
  split; [apply storeAll_posts|].
  split; [apply bodies_provenance | apply bodies_length].
Qed.

Lemma previewMemory_quiet : forall m w,
  quiet w (snd (Batch.previewMemory m w)).
Proof.
  intros m w. unfold Batch.previewMemory, bind, lift, throw, log, quiet.
  destruct (prop m "type") as [t|]; [|now repeat split].
  destruct (toStringCheck t); [|now repeat split].
  destruct (prop m "content") as [c|]; [|now repeat split].
  destruct (toStringCheck c); [|now repeat split].
  destruct (prop m "importance") as [i|]; [|now repeat split].
  destruct (toStringCheck i); [|now repeat split].
  destruct (prop m "tags") as [tags|]; [|now repeat split].
  destruct (Batch.orEmpty tags); try now repeat split.
  destruct (joinR _ _); now repeat split.
Qed.

Lemma previewAll_quiet : forall ms w,
  quiet w (snd (mapM_ Batch.previewMemory ms w)).
Proof.
  induction ms as [|m rest IH]; intros w; simpl; [apply quiet_refl|].
  unfold bind. pose proof (previewMemory_quiet m w) as Q.
  destruct (Batch.previewMemory m w) as [[u|err] w1]; simpl in Q; [|exact Q].
  eapply quiet_trans; [exact Q | apply IH].
Qed.

(** The effect of a session whose transcript is long enough. *)
Lemma processSession_long_effect : forall cfg e sp w content,
  readFileSync e sp = Ok content ->
  3 <= snd (Batch.parseContent content) ->
  ledger (snd (Batch.processSession cfg e sp w)) = ledger w
  /\ prompts (snd (Batch.processSession cfg e sp w))
     = prompts w
       ++ [batchPrompt (Batch.formatConversation
                          (fst (Batch.parseContent content)))]
  /\ exists extra,
       posts (snd (Batch.processSession cfg e sp w)) = posts w ++ extra
       /\ Forall (batchProvenance sp) extra
       /\ (Batch.dryRun cfg = true -> extra = []).
Proof.
  intros cfg e sp w content H T. unfold Batch.processSession.
  rewrite (bind_Ok _ _ _ _ _ _ _ (log_eq _ _)).
  assert (P : Batch.parseSession e sp (say w (LogProcessing (Batch.basename sp)))
              = (Ok (Batch.parseContent content),
                 say w (LogProcessing (Batch.basename sp)))).
  { unfold Batch.parseSession, bind, lift. now rewrite H. }
  rewrite (bind_Ok _ _ _ _ _ _ _ P).
  destruct (Batch.parseContent content) as [entries tc]. simpl in T. simpl fst.
  assert (T' : (tc <? 3) = false) by (apply Nat.ltb_ge; exact T). rewrite T'.
  destruct (debug_run cfg
              (LogDebugLength (List.length (Batch.formatConversation entries)))
              (say w (LogProcessing (Batch.basename sp)))) as (w0 & D & Q).
  rewrite (bind_Ok _ _ _ _ _ _ _ D).
  assert (Q0 : quiet w w0) by (eapply quiet_trans; [apply quiet_say | exact Q]).
  destruct Q0 as (L0 & P0 & A0).
  pose proof (extractMemories_eq e (Batch.formatConversation entries) w0) as X.
  fold (batchPrompt (Batch.formatConversation entries)) in X.
  set (prompt := batchPrompt _) in *.
  assert (Nil : exists extra : list request,
            posts w = posts w ++ extra /\ Forall (batchProvenance sp) extra
            /\ (Batch.dryRun cfg = true -> extra = [])).
  { exists []. rewrite app_nil_r. auto. }
  destruct (extraction (pi e (List.length (prompts w0)) prompt)) as [ms|err].
  - rewrite (bind_Ok _ _ _ _ _ _ _ X).
    destruct (debug_run cfg (LogDebugExtracted (List.length ms))
                (asked w0 prompt)) as (w1 & D1 & (L1 & P1 & A1)).
    rewrite (bind_Ok _ _ _ _ _ _ _ D1). simpl in L1, P1, A1.
    destruct ms as [|m ms].
    + simpl. rewrite L1, P1, A1, L0, P0, A0. auto.
    + change (List.length (m :: ms) =? 0) with false. cbv iota.
      destruct (Batch.dryRun cfg) eqn:Dry.
      * rewrite (bind_Ok _ _ _ _ _ _ _ (log_eq _ _)). unfold bind.
        pose proof (previewAll_quiet (m :: ms) (say w1 LogDryRunHeader))
          as (L2 & P2 & A2).
        destruct (mapM_ Batch.previewMemory (m :: ms) (say w1 LogDryRunHeader))
          as [[u|err] w2]; simpl in *;
          rewrite L2, P2, A2, L1, P1, A1, L0, P0, A0; auto.
      * unfold bind.
        destruct (storeAll_effect e sp (m :: ms) 0 0 w1)
          as (L2 & A2 & extra & P2 & F2 & _).
        destruct (Batch.storeAll e (m :: ms) sp 0 0 w1) as [[c|err] w2];
          simpl in *; rewrite L2, A2, L1, A1, L0, A0;
          (split; [reflexivity | split; [reflexivity|]]);
          exists extra; rewrite P2, P1, P0;
          (split; [reflexivity | split; [exact F2 | discriminate]]).
  - rewrite (bind_Throw _ _ _ _ _ _ _ X). simpl.
    rewrite L0, P0, A0. auto.
Qed.



(** X9.  The store loop sends exactly the requests of the memories from
    which a request body can be built ([null] and [undefined] give none, nor
    does an object whose [tags] cannot be spread), one each, in the order of
    the memories; each request names the session file and the source
    [compound-review] and ends its tags with [auto-extracted],
    [compound-review]; the loop touches neither the ledger nor the model. *)
Theorem store_requests_carry_provenance : forall e sp ms s f w,
  ledger (snd (Batch.storeAll e ms sp s f w)) = ledger w
  /\ prompts (snd (Batch.storeAll e ms sp s f w)) = prompts w
  /\ posts (snd (Batch.storeAll e ms sp s f w))
     = posts w ++ bodies (batchBody sp) ms
  /\ Forall (batchProvenance sp) (bodies (batchBody sp) ms)
  /\ List.length (bodies (batchBody sp) ms) <= List.length ms.
Proof.
  intros e sp ms s f w. destruct (storeAll_frame e sp ms s f w) as (L & A).
  split; [exact L | split; [exact A|]].
  split; [apply storeAll_posts|].
  split; [apply bodies_provenance | apply bodies_length].
Qed.

(** ** A whole run *)

Lemma checkHealth_spec : forall e w,
  exists w', Batch.checkHealth e w = (Ok (storeHealthy e), w') /\ quiet w w'.
Proof.
  intros e w.
  unfold Batch.checkHealth, storeHealthy, try_catch, bind, lift, throw, log,
    ret, toStringCheck.
  destruct (fetchHealth e) as [err|[|] body]; cbn [negb andb];
    try (eexists; split; [reflexivity | repeat split]).
  destruct (JSON_parse body) as [d|err];
    [|eexists; split; [reflexivity | repeat split]].
  destruct d as [| |b|n|s0|l|fs]; cbn [prop printable];
    try (eexists; split; [reflexivity | repeat split]).
  destruct (printable (lookup (str "status") fs)); cbn [andb];
    [|eexists; split; [reflexivity | repeat split]].
  destruct (printable (lookup (str "memory_count") fs));
    eexists; (split; [reflexivity | repeat split]).
Qed.

Lemma main_result : forall cfg e w,
  fst (Batch.main cfg e w)
  = (if preflight cfg e then
       match ledgerFault e w with
       | Some err => Throw err
       | None => Ok Batch.Returned
       end
     else Ok (Batch.Exit 1)).
Proof.
  intros cfg e w. unfold Batch.main, preflight.
  rewrite (bind_Ok _ _ _ _ _ _ _ (log_eq _ _)).
  destruct (Batch.truthyArg (Batch.AUTOMEM_TOKEN cfg)) as [tok|];
    [|rewrite (bind_Ok _ _ _ _ _ _ _ (log_eq _ _)); reflexivity].
  destruct (piVersion e); cbn [negb andb];
    [|rewrite (bind_Ok _ _ _ _ _ _ _ (log_eq _ _)); reflexivity].
  destruct (checkHealth_spec e (say w LogBanner)) as (wh & Hh & Hq).
  rewrite (bind_Ok _ _ _ _ _ _ _ Hh).
  destruct (storeHealthy e); cbn [negb]; [|reflexivity].
  destruct (selectSessions_spec cfg e wh) as (ws & Hs & Hqs).
  rewrite (bind_Ok _ _ _ _ _ _ _ Hs).
  pose proof (getProcessedSessions_spec e ws) as G.
  assert (L1 : ledger ws = ledger w).
  { destruct Hqs as (A & _). destruct Hq as (B & _). simpl in B. congruence. }
  rewrite L1 in G. unfold ledgerFault.
  destruct (ledger w) as [c|]; [destruct (ledgerUnreadable e) as [err|]|].
  { now rewrite (bind_Throw _ _ _ _ _ _ _ G). }
  all: rewrite (bind_Ok _ _ _ _ _ _ _ G);
    rewrite (bind_Ok _ _ _ _ _ _ _ (log_eq _ _));
    destruct (Batch.toProcess _ _) as [|s rest];
    [ now rewrite (bind_Ok _ _ _ _ _ _ _ (log_eq _ _))
    | destruct (reviewAll_returns cfg e (s :: rest) (0, 0)
                  (say ws (LogNotYetProcessed (List.length (s :: rest)))))
        as (t' & w2 & H2);
      rewrite (bind_Ok _ _ _ _ _ _ _ H2);
      now rewrite (bind_Ok _ _ _ _ _ _ _ (log_eq _ _)) ].
Qed.

(** X10.  The script never ends in an uncaught exception.  [main] exits
    with status 1 when the token is missing or empty, [pi --version] fails,
    or the store does not answer the liveness probe (an ok response whose
    body is JSON other than [null], with a printable [status] and
    [memory_count]); it throws when the ledger file exists and cannot be
    read, and [main().catch] turns that into exit status 1 too; in all these
    cases nothing but the console has changed.  Otherwise [main] returns
    normally. *)
Theorem main_exit_status : forall cfg e w,
  fst (Batch.main cfg e w)
  = (if preflight cfg e then
       match ledgerFault e w with
       | Some err => Throw err
       | None => Ok Batch.Returned
       end
     else Ok (Batch.Exit 1))
  /\ fst (Batch.run cfg e w)
     = Ok (if preflight cfg e then
             match ledgerFault e w with
             | Some _ => Batch.Exit 1
             | None => Batch.Returned
             end
           else Batch.Exit 1)
  /\ (preflight cfg e = false \/ ledgerFault e w <> None ->
      quiet w (snd (Batch.run cfg e w))).
Proof.
  intros cfg e w. pose proof (main_result cfg e w) as A.
  split; [exact A|].
  destruct (main_run cfg e w) as (w1 & Q1 & H).
  unfold Batch.run, try_catch.
  destruct (Batch.main cfg e w) as [[x|err] w'] eqn:M; simpl in A.
  - split.
    + simpl. f_equal.
      destruct (preflight cfg e); [|congruence].
      destruct (ledgerFault e w); congruence.
    + intros C. simpl.
      assert (X : x = Batch.Exit 1).
      { destruct C as [C|C].
        - rewrite C in A. congruence.
        - destruct (preflight cfg e); [|congruence].
          destruct (ledgerFault e w); [discriminate | congruence]. }
      subst x.
      destruct H as [H | [(err & _ & _ & H) | [[_ H]
                    | (t & w2 & w3 & _ & _ & H)]]]; congruence.
  - rewrite (bind_Ok _ _ _ _ _ _ _ (log_eq _ _)). split.
    + simpl. f_equal.
      destruct (preflight cfg e); [|discriminate].
      destruct (ledgerFault e w); [reflexivity | discriminate].
    + intros _. simpl.
      destruct H as [H | [(err' & _ & _ & H) | [[_ H]
                    | (t & w2 & w3 & _ & _ & H)]]]; try congruence.
      injection H as _ <-. eapply quiet_trans; [exact Q1 | apply quiet_say].
Qed.

Lemma main_exit_status_witness :
  (preflight (Scenario.nightly false) Scenario.lateHost = false
   \/ ledgerFault Scenario.lateHost Scenario.fresh <> None)
  /\ quiet Scenario.fresh
       (snd (Batch.run (Scenario.nightly false) Scenario.lateHost
               Scenario.fresh)).
Proof.
  assert (P : preflight (Scenario.nightly false) Scenario.lateHost = false
              \/ ledgerFault Scenario.lateHost Scenario.fresh <> None)
    by (left; reflexivity).
  split; [exact P|].
  exact (proj2 (proj2 (main_exit_status (Scenario.nightly false)
                         Scenario.lateHost Scenario.fresh)) P).
Defined.

(** What one session, and then one iteration of the loop of [main], does
    to the outside. *)
Lemma processSession_effect : forall cfg e sp w,
  ledger (snd (Batch.processSession cfg e sp w)) = ledger w
  /\ (exists extra,
        posts (snd (Batch.processSession cfg e sp w)) = posts w ++ extra
        /\ Forall (batchProvenance sp) extra)
  /\ (exists asked,
        prompts (snd (Batch.processSession cfg e sp w)) = prompts w ++ asked
        /\ List.length asked <= 1).
Proof.
  intros cfg e sp w.
  assert (Q : quiet w (snd (Batch.processSession cfg e sp w)) ->
              ledger (snd (Batch.processSession cfg e sp w)) = ledger w
              /\ (exists extra,
                    posts (snd (Batch.processSession cfg e sp w))
                    = posts w ++ extra
                    /\ Forall (batchProvenance sp) extra)
              /\ (exists asked,
                    prompts (snd (Batch.processSession cfg e sp w))
                    = prompts w ++ asked
                    /\ List.length asked <= 1)).
  { intros (L & P & A). split; [exact L|]. split.
    - exists []. rewrite app_nil_r. auto.
    - exists []. rewrite app_nil_r. auto. }
  destruct (readFileSync e sp) as [content|err] eqn:R.
  - destruct (Nat.lt_ge_cases (snd (Batch.parseContent content)) 3) as [T|T].
    + apply Q.
      destruct (processSession_short cfg e sp w content R T) as (w1 & Qw & E).
      now rewrite E.
    + destruct (processSession_long_effect cfg e sp w content R T)
        as (L & A & extra & P & F & _).
      split; [exact L|]. split.
      * exists extra. auto.
      * eexists. split; [exact A | simpl; lia].
  - apply Q. rewrite (processSession_unreadable cfg e sp w err R).
    apply quiet_say.
Qed.

Lemma appendMarks_app : forall l m1 m2,
  appendMarks (appendMarks l m1) m2 = appendMarks l (m1 ++ m2).
Proof. intros. unfold appendMarks. now rewrite fold_left_app. Qed.

Lemma reviewSession_effect : forall cfg e s totals w,
  (exists marks,
     ledger (snd (Batch.reviewSession cfg e s totals w))
     = appendMarks (ledger w) marks
     /\ (marks = [] \/ marks = [Batch.path s]))
  /\ (exists extra,
        posts (snd (Batch.reviewSession cfg e s totals w)) = posts w ++ extra
        /\ Forall (batchProvenance (Batch.path s)) extra)
  /\ (exists asked,
        prompts (snd (Batch.reviewSession cfg e s totals w))
        = prompts w ++ asked
        /\ List.length asked <= 1).
Proof.
  intros cfg e s totals w.
  destruct (processSession_effect cfg e (Batch.path s) w)
    as (L & (extra & P & F) & (asked & A & N)).
  assert (Same : forall w',
            ledger w' = ledger w -> posts w' = posts w ++ extra ->
            prompts w' = prompts w ++ asked ->
            (exists marks,
               ledger w' = appendMarks (ledger w) marks
               /\ (marks = [] \/ marks = [Batch.path s]))
            /\ (exists extra0,
                  posts w' = posts w ++ extra0
                  /\ Forall (batchProvenance (Batch.path s)) extra0)
            /\ (exists asked0,
                  prompts w' = prompts w ++ asked0
                  /\ List.length asked0 <= 1)).
  { intros w' L' P' A'. split; [|split].
    - exists []. split; [exact L' | now left].
    - exists extra. auto.
    - exists asked. auto. }
  unfold Batch.reviewSession, try_catch, bind.
  destruct (Batch.processSession cfg e (Batch.path s) w) as [[r|err] w1];
    simpl in L, P, A.
  - destruct (negb (Batch.skipped r)); [|now apply Same].
    unfold Batch.markSessionProcessed.
    destruct (negb (Batch.dryRun cfg)); [|now apply Same].
    unfold appendLedger.
    destruct (appendFileSync e (ledger w1) (Batch.path s ++ nl));
      [now apply Same|].
    simpl. split; [|split].
    + exists [Batch.path s]. split; [|now right]. simpl. now rewrite L.
    + exists extra. auto.
    + exists asked. auto.
  - now apply Same.
Qed.

Lemma reviewAll_effect : forall cfg e sessions totals w,
  exists marks extra asked,
    ledger (snd (Batch.reviewAll cfg e sessions totals w))
    = appendMarks (ledger w) marks
    /\ posts (snd (Batch.reviewAll cfg e sessions totals w))
       = posts w ++ extra
    /\ prompts (snd (Batch.reviewAll cfg e sessions totals w))
       = prompts w ++ asked
    /\ incl marks (map Batch.path sessions)
    /\ List.length marks <= List.length sessions
    /\ Forall (fun r => exists s, In s sessions
                                  /\ batchProvenance (Batch.path s) r) extra
    /\ List.length asked <= List.length sessions.
Proof.
  intros cfg e sessions. induction sessions as [|s rest IH]; intros totals w.
  - exists [], [], []. simpl. rewrite !app_nil_r.
    repeat split; auto. intros x [].
  - simpl. unfold bind.
    destruct (reviewSession_effect cfg e s totals w)
      as ((m1 & L1 & M1) & (x1 & P1 & F1) & (a1 & A1 & N1)).
    destruct (reviewSession_returns cfg e s totals w) as (t & w1 & H).
    rewrite H in *. simpl in L1, P1, A1.
    destruct (IH t w1) as (m2 & x2 & a2 & L2 & P2 & A2 & I2 & C2 & F2 & N2).
    exists (m1 ++ m2), (x1 ++ x2), (a1 ++ a2).
    rewrite L2, P2, A2, L1, P1, A1, appendMarks_app, <- !app_assoc.
    repeat split; try reflexivity.
    + intros p Hp. apply in_app_or in Hp. destruct Hp as [Hp|Hp].
      * destruct M1 as [->| ->]; [contradiction|].
        destruct Hp as [<-|[]]. now left.
      * right. now apply I2.
    + rewrite length_app. simpl. destruct M1 as [->| ->]; simpl; lia.
    + apply Forall_app. split.
      * eapply Forall_impl; [|exact F1]. intros r Hr. exists s.
        split; [now left | exact Hr].
      * eapply Forall_impl; [|exact F2]. intros r (s' & Hs' & Hr).
        exists s'. split; [now right | exact Hr].
    + rewrite length_app. simpl. lia.
Qed.

Lemma main_effect : forall cfg e w,
  exists marks extra asked,
    ledger (snd (Batch.main cfg e w)) = appendMarks (ledger w) marks
    /\ posts (snd (Batch.main cfg e w)) = posts w ++ extra
    /\ prompts (snd (Batch.main cfg e w)) = prompts w ++ asked
    /\ incl marks (map Batch.path (planned cfg e w))
    /\ List.length marks <= List.length (planned cfg e w)
    /\ Forall (fun r => exists s, In s (planned cfg e w)
                                  /\ batchProvenance (Batch.path s) r) extra
    /\ List.length asked <= List.length (planned cfg e w).
Proof.
  intros cfg e w.
  assert (Q : forall w', quiet w w' ->
            exists marks extra asked,
              ledger w' = appendMarks (ledger w) marks
              /\ posts w' = posts w ++ extra
              /\ prompts w' = prompts w ++ asked
              /\ incl marks (map Batch.path (planned cfg e w))
              /\ List.length marks <= List.length (planned cfg e w)
              /\ Forall (fun r => exists s, In s (planned cfg e w)
                                   /\ batchProvenance (Batch.path s) r) extra
              /\ List.length asked <= List.length (planned cfg e w)).
  { intros w' (L & P & A). exists [], [], []. rewrite !app_nil_r. simpl.
    repeat split; auto; try lia. intros x []. }
  destruct (main_run cfg e w) as (w1 & Q1 & H).
  destruct H as [H | [(err & _ & _ & H) | [[_ H]
                | (t & w2 & w3 & H2 & Q3 & H)]]];
    rewrite H; simpl; try (now apply Q).
  destruct (reviewAll_effect cfg e (planned cfg e w) (0, 0) w1)
    as (marks & extra & asked & L & P & A & I & C & F & N).
  rewrite H2 in L, P, A. simpl in L, P, A.
  destruct Q1 as (L1 & P1 & A1). destruct Q3 as (L3 & P3 & A3).
  exists marks, extra, asked. rewrite L3, P3, A3, L, P, A, L1, P1, A1.
  repeat split; auto.
Qed.

(** X11.  A run asks the model at most once per session it set out to
    process and never for another; every store request it issues carries
    the provenance of one of those sessions (its path as [session_file],
    the source [compound-review], the two closing tags). *)
Theorem run_is_accounted_for : forall cfg e w,
  exists extra asked,
    posts (snd (Batch.main cfg e w)) = posts w ++ extra
    /\ prompts (snd (Batch.main cfg e w)) = prompts w ++ asked
    /\ List.length asked <= List.length (planned cfg e w)
    /\ Forall (fun r => exists s, In s (planned cfg e w)
                                  /\ batchProvenance (Batch.path s) r) extra.
Proof.
  intros cfg e w.
  destruct (main_effect cfg e w)
    as (marks & extra & asked & L & P & A & I & C & F & N).
  exists extra, asked. auto.
Qed.

Lemma appendMarks_cons : forall l p rest,
  appendMarks l (p :: rest)
  = appendMarks (Some match l with
                      | Some old => old ++ p ++ nl
                      | None => p ++ nl
                      end) rest.
Proof. reflexivity. Qed.



Lemma textLines_mark : forall c p,
  closedText c -> singleLine p -> textLines (c ++ p ++ nl) = textLines c ++ [p].
Proof.
  intros c p Hc [Hne Hlf]. unfold textLines.
  assert (Hp : filter nonempty (split LF (p ++ nl)) = [p]).
  { unfold nl. rewrite split_sep, split_line by assumption.
    simpl. destruct p; [congruence | reflexivity]. }
  destruct Hc as [->|[c' ->]]; [exact Hp|].
  rewrite <- app_assoc. simpl. rewrite split_sep, filter_app, Hp.
  replace (c' ++ [LF]) with (c' ++ LF :: []) by reflexivity.
  rewrite split_sep, filter_app. simpl. now rewrite app_nil_r.
Qed.

Lemma appendMarks_lines : forall marks l,
  match l with Some c => closedText c | None => True end ->
  Forall singleLine marks ->
  match appendMarks l marks with Some c => textLines c | None => [] end
  = match l with Some c => textLines c | None => [] end ++ marks.
Proof.
  induction marks as [|p rest IH]; intros l C S.
  - simpl. now rewrite app_nil_r.
  - inversion S as [|? ? Sp Srest]; subst. rewrite appendMarks_cons.
    rewrite IH; [|destruct l | exact Srest].
    + destruct l as [old|].
      * rewrite (textLines_mark old p C Sp), <- app_assoc. reflexivity.
      * change (p ++ nl) with ([] ++ p ++ nl).
        rewrite (textLines_mark [] p (or_introl eq_refl) Sp). reflexivity.
    + apply closedText_app.
    + apply (closedText_app [] p).
Qed.

(** X13.  Writing and reading the ledger round-trip.  On a ledger that
    is absent, empty or ends in a line feed, after paths that are non-empty
    and hold no line feed have been appended, [getProcessedSessions], when
    the file can be read, returns the set of the lines the file held before
    and of those paths, first occurrences in order; whatever the file
    holds, the set it returns answers [has] as the lines of the file do.
    One call of [markSessionProcessed] outside a dry run either appends
    exactly its path and a line feed, after which the path is looked up with
    success, or throws and leaves everything as it was. *)
Theorem ledger_round_trip :
  (forall e w w' marks,
     closed w -> Forall singleLine marks ->
     ledger w' = appendMarks (ledger w) marks ->
     Batch.getProcessedSessions e w'
     = match ledgerFault e w' with
       | Some err => (Throw err, w')
       | None => (Ok (newSet (ledgerLines w ++ marks)), w')
       end)
  /\ (forall e w processed p,
        fst (Batch.getProcessedSessions e w) = Ok processed ->
        Batch.has processed p = inLedger w p)
  /\ (forall cfg e p w,
        Batch.dryRun cfg = false ->
        match appendFileSync e (ledger w) (p ++ nl) with
        | Some err => Batch.markSessionProcessed cfg e p w = (Throw err, w)
        | None =>
            fst (Batch.markSessionProcessed cfg e p w) = Ok tt
            /\ ledger (snd (Batch.markSessionProcessed cfg e p w))
               = appendMarks (ledger w) [p]
            /\ (closed w -> singleLine p ->
                forall q,
                  inLedger (snd (Batch.markSessionProcessed cfg e p w)) q
                  = inLedger w q || streq q p)
        end).
Proof.
  assert (A : forall w w' marks,
            closed w -> Forall singleLine marks ->
            ledger w' = appendMarks (ledger w) marks ->
            ledgerLines w' = ledgerLines w ++ marks).
  { intros w w' marks C S L. unfold ledgerLines. rewrite L.
    now apply appendMarks_lines. }
  split; [|split].
  - intros e w w' marks C S L. rewrite getProcessedSessions_spec.
    rewrite (A w w' marks C S L). unfold ledgerFault.
    destruct (ledger w'); [destruct (ledgerUnreadable e)|]; reflexivity.
  - intros e w processed p. rewrite getProcessedSessions_spec.
    destruct (ledger w); [destruct (ledgerUnreadable e)|]; simpl;
      try discriminate; intros H; injection H as <-; apply has_newSet.
  - intros cfg e p w D. unfold Batch.markSessionProcessed. rewrite D.
    cbn [negb]. unfold appendLedger.
    destruct (appendFileSync e (ledger w) (p ++ nl)); [reflexivity|].
    split; [reflexivity|]. split; [reflexivity|].
    intros C S q. unfold inLedger.
    erewrite (A w _ [p] C (Forall_cons _ S (Forall_nil _))); [|reflexivity].
    unfold Batch.has. rewrite existsb_app. simpl. now rewrite orb_false_r.
Qed.

Lemma ledger_round_trip_witness :
  closed Scenario.fresh
  /\ Forall singleLine [Scenario.sessionPath]
  /\ fst (Batch.getProcessedSessions
            (Scenario.host Scenario.transcript Scenario.twoMemories)
            (Scenario.withLedger (Scenario.sessionPath ++ nl)))
     = Ok [Scenario.sessionPath].
Proof.
  assert (S : Forall singleLine [Scenario.sessionPath])
    by (constructor; [apply singleLine_check; reflexivity | constructor]).
  split; [exact I | split; [exact S|]].
  rewrite (proj1 ledger_round_trip
             (Scenario.host Scenario.transcript Scenario.twoMemories)
             Scenario.fresh (Scenario.withLedger (Scenario.sessionPath ++ nl))
             [Scenario.sessionPath] I S eq_refl).
  reflexivity.
Defined.

(** ** Discovery on any tree *)

Lemma scanLoop_sound : forall cutoff dir entries,
  Forall (fun d => forall acc s,
            In s (fst (Batch.scanEntry cutoff dir d acc)) ->
            In s acc \/ Listed cutoff dir [d] s) entries ->
  forall acc s,
    In s (Batch.scanLoop (Batch.scanEntry cutoff dir) entries acc) ->
    In s acc \/ Listed cutoff dir entries s.
Proof.
  intros cutoff dir entries H.
  induction H as [|d rest Hd _ IH]; intros acc s; simpl; [now left|].
  specialize (Hd acc s).
  destruct (Batch.scanEntry cutoff dir d acc) as [acc' threw]. simpl in Hd.
  rewrite (Listed_cons cutoff dir d rest).
  destruct threw.
  - intros Hs. destruct (Hd Hs); auto.
  - intros Hs. destruct (IH acc' s Hs) as [Hs'|Hs']; [|auto].
    destruct (Hd Hs'); auto.
Qed.

Lemma scanEntry_sound : forall d cutoff dir acc s,
  In s (fst (Batch.scanEntry cutoff dir d acc)) ->
  In s acc \/ Listed cutoff dir [d] s.
Proof.
  induction d as [nm stat|nm|nm entries IH] using dirent_induction;
    intros cutoff dir acc s.
  - simpl. destruct (endsWith (str ".jsonl") nm) eqn:E; [|now left].
    destruct stat as [m|]; [|now left].
    destruct (Batch.recent cutoff m) eqn:R; [|now left]. simpl.
    rewrite in_app_iff. intros [H|[<-|[]]]; [now left|]. right.
    apply Listed_file. exists m. auto.
  - simpl. destruct (streq nm (str "subagent-artifacts")); now left.
  - simpl. destruct (streq nm (str "subagent-artifacts")) eqn:E; simpl;
      [now left|].
    intros Hs.
    destruct (scanLoop_sound cutoff (Batch.pathJoin dir nm) entries) with
      (acc := acc) (s := s) as [H|H]; auto.
    + rewrite Forall_forall in *. intros d Hd acc0 s0. now apply IH.
    + right. apply Listed_directory. exists entries. auto.
Qed.

Lemma scanDir_sound : forall cutoff dir listing s,
  In s (Batch.scanDir cutoff dir listing []) ->
  exists entries, listing = Some entries /\ Listed cutoff dir entries s.
Proof.
  intros cutoff dir [entries|] s; simpl; [|contradiction].
  intros H. exists entries. split; [reflexivity|].
  destruct (scanLoop_sound cutoff dir entries) with (acc := @nil Batch.session)
    (s := s) as [[]|L]; auto.
  apply Forall_forall. intros d _ acc0 s0. apply scanEntry_sound.
Qed.

Lemma Listed_recent : forall cutoff dir entries s,
  Listed cutoff dir entries s ->
  endsWith (str ".jsonl") (Batch.name s) = true
  /\ exists m, Batch.mtime s = Some m /\ Batch.recent cutoff m = true.
Proof.
  intros cutoff dir entries s H. induction H as [dir entries nm m _ E R|]; auto.
  simpl. split; [exact E|]. exists m. auto.
Qed.

(** X14.  Whatever the tree looks like, failing [statSync] calls and
    unreadable directories included, every session [findRecentSessions]
    reports is a listed entry named [*.jsonl], outside [subagent-artifacts],
    whose modification time is at least the cutoff; when [--hours] is not a
    number ([parseInt] gives [NaN]) nothing is reported at all. *)
Theorem discovery_is_sound :
  (forall e baseDir hoursAgo s,
     In s (Batch.findRecentSessions e baseDir hoursAgo) ->
     (exists entries,
        sessionsListing e = Some entries
        /\ Listed (option_map (fun h => now e - h * 60 * 60 * 1000)%Z hoursAgo)
                  baseDir entries s)
     /\ endsWith (str ".jsonl") (Batch.name s) = true
     /\ exists h m, hoursAgo = Some h /\ Batch.mtime s = Some m
                    /\ (now e - h * 60 * 60 * 1000 <= m)%Z)
  /\ (forall e baseDir, Batch.findRecentSessions e baseDir None = []).
Proof.
  assert (A : forall e baseDir hoursAgo s,
            In s (Batch.findRecentSessions e baseDir hoursAgo) ->
            exists entries,
              sessionsListing e = Some entries
              /\ Listed (option_map (fun h => now e - h * 60 * 60 * 1000)%Z
                           hoursAgo) baseDir entries s).
  { intros e baseDir hoursAgo s H. unfold Batch.findRecentSessions in H.
    rewrite sortSessions_In in H. now apply scanDir_sound. }
  split.
  - intros e baseDir hoursAgo s H.
    destruct (A e baseDir hoursAgo s H) as (entries & L & Hl).
    split; [eauto|].
    destruct (Listed_recent _ _ _ _ Hl) as (E & m & M & R).
    split; [exact E|].
    destruct hoursAgo as [h|]; [|discriminate R].
    exists h, m. repeat split; auto. simpl in R. now apply Z.leb_le.
  - intros e baseDir.
    destruct (Batch.findRecentSessions e baseDir None) as [|s rest] eqn:F;
      [reflexivity|].
    destruct (A e baseDir None s) as (entries & _ & Hl);
      [rewrite F; now left|].
    destruct (Listed_recent _ _ _ _ Hl) as (_ & m & _ & R). discriminate R.
Qed.

Lemma discovery_is_sound_witness :
  In Scenario.s1
    (Batch.findRecentSessions
       (Scenario.host Scenario.transcript Scenario.twoMemories)
       (str "/home/dev/.pi/agent/sessions") (Some 24%Z))
  /\ endsWith (str ".jsonl") (Batch.name Scenario.s1) = true.
Proof.
  assert (H : In Scenario.s1
                (Batch.findRecentSessions
                   (Scenario.host Scenario.transcript Scenario.twoMemories)
                   (str "/home/dev/.pi/agent/sessions") (Some 24%Z)))
    by (left; reflexivity).
  split; [exact H|].
  exact (proj1 (proj2 (proj1 discovery_is_sound _ _ _ _ H))).
Defined.

(** Two scans of the same entry with cutoffs [c1] and [c2], the second no
    later than the first: they stop at the same place, and the second
    collects at least what the first does. *)
Lemma recent_mono : forall c1 c2 m,
  (forall x1, c1 = Some x1 -> exists x2, c2 = Some x2 /\ (x2 <= x1)%Z) ->
  Batch.recent c1 m = true -> Batch.recent c2 m = true.
Proof.
  intros [x1|] c2 m H R; [|discriminate R].
  destruct (H x1 eq_refl) as (x2 & -> & Le). simpl in *.
  apply Z.leb_le in R. apply Z.leb_le. lia.
Qed.

Lemma scanLoop_mono : forall c1 c2 dir entries,
  Forall (fun d => forall acc1 acc2,
            incl acc1 acc2 ->
            snd (Batch.scanEntry c1 dir d acc1)
            = snd (Batch.scanEntry c2 dir d acc2)
            /\ incl (fst (Batch.scanEntry c1 dir d acc1))
                    (fst (Batch.scanEntry c2 dir d acc2))) entries ->
  forall acc1 acc2,
    incl acc1 acc2 ->
    incl (Batch.scanLoop (Batch.scanEntry c1 dir) entries acc1)
         (Batch.scanLoop (Batch.scanEntry c2 dir) entries acc2).
Proof.
  intros c1 c2 dir entries H.
  induction H as [|d rest Hd _ IH]; intros acc1 acc2 I; simpl; [exact I|].
  destruct (Hd acc1 acc2 I) as [T J].
  destruct (Batch.scanEntry c1 dir d acc1) as [a1 t1].
  destruct (Batch.scanEntry c2 dir d acc2) as [a2 t2].
  simpl in T, J. subst t2. destruct t1; [exact J | now apply IH].
Qed.

Lemma scanEntry_mono : forall c1 c2,
  (forall x1, c1 = Some x1 -> exists x2, c2 = Some x2 /\ (x2 <= x1)%Z) ->
  forall d dir acc1 acc2,
    incl acc1 acc2 ->
    snd (Batch.scanEntry c1 dir d acc1) = snd (Batch.scanEntry c2 dir d acc2)
    /\ incl (fst (Batch.scanEntry c1 dir d acc1))
            (fst (Batch.scanEntry c2 dir d acc2)).
Proof.
  intros c1 c2 Hc.
  induction d as [nm stat|nm|nm entries IH] using dirent_induction;
    intros dir acc1 acc2 I.
  - simpl. destruct (endsWith (str ".jsonl") nm); [|now split].
    destruct stat as [m|]; [|now split].
    destruct (Batch.recent c1 m) eqn:R1.
    + rewrite (recent_mono c1 c2 m Hc R1). simpl. split; [reflexivity|].
      intros x Hx. apply in_app_or in Hx. apply in_or_app.
      destruct Hx; [left; now apply I | now right].
    + destruct (Batch.recent c2 m); simpl; (split; [reflexivity|]);
        [|exact I].
      intros x Hx. apply in_or_app. left. now apply I.
  - simpl. destruct (streq nm (str "subagent-artifacts")); now split.
  - simpl. destruct (streq nm (str "subagent-artifacts")); simpl;
      (split; [reflexivity|]); [exact I|].
    apply scanLoop_mono; [|exact I].
    rewrite Forall_forall in *. intros d Hd a1 a2 Ia. now apply IH.
Qed.

(** X15.  Widening the window never loses a session: every session found
    with [--hours h1] is found with any [h2 >= h1], on any tree. *)
Theorem wider_window_finds_more : forall e baseDir h1 h2 s,
  (h1 <= h2)%Z ->
  In s (Batch.findRecentSessions e baseDir (Some h1)) ->
  In s (Batch.findRecentSessions e baseDir (Some h2)).
Proof.
  intros e baseDir h1 h2 s Le. unfold Batch.findRecentSessions.
  rewrite !sortSessions_In. unfold Batch.scanDir.
  destruct (sessionsListing e) as [entries|]; [|auto].
  apply scanLoop_mono; [|intros x []].
  apply Forall_forall. intros d _ acc1 acc2 I.
  apply scanEntry_mono; [|exact I].
  intros x1 E. injection E as <-. eexists. split; [reflexivity|]. lia.
Qed.

Lemma wider_window_finds_more_witness :
  (24 <= 48)%Z
  /\ In Scenario.s1
       (Batch.findRecentSessions
          (Scenario.host Scenario.transcript Scenario.twoMemories)
          (str "/home/dev/.pi/agent/sessions") (Some 48%Z)).
Proof.
  assert (Le : (24 <= 48)%Z) by lia.
  split; [exact Le|].
  apply (wider_window_finds_more
           (Scenario.host Scenario.transcript Scenario.twoMemories)
           (str "/home/dev/.pi/agent/sessions") 24 48 Scenario.s1 Le).
  left. reflexivity.
Defined.

Lemma insertSession_filter : forall m a l,
  filter (modifiedAt m) (Batch.insertSession a l)
  = filter (modifiedAt m) (a :: l).
Proof.
  intros m a l. induction l as [|b r IH]; [reflexivity|].
  simpl Batch.insertSession. destruct (Batch.newer b a) eqn:N; [|reflexivity].
  change (filter (modifiedAt m) (b :: Batch.insertSession a r))
    with (if modifiedAt m b
          then b :: filter (modifiedAt m) (Batch.insertSession a r)
          else filter (modifiedAt m) (Batch.insertSession a r)).
  rewrite IH. simpl. unfold Batch.newer in N. unfold modifiedAt.
  destruct (Batch.mtime b) as [mb|]; [|discriminate N].
  destruct (Batch.mtime a) as [ma|]; [|discriminate N].
  apply Z.ltb_lt in N.
  destruct (Z.eqb_spec mb m); destruct (Z.eqb_spec ma m); try reflexivity.
  lia.
Qed.

(** X16.  The sort of [findRecentSessions] is stable: sessions modified at
    the same instant are reported in the order the scan met them. *)
Theorem equal_times_keep_scan_order : forall e baseDir hoursAgo m,
  filter (modifiedAt m) (Batch.findRecentSessions e baseDir hoursAgo)
  = filter (modifiedAt m)
      (Batch.scanDir
         (option_map (fun h => now e - h * 60 * 60 * 1000)%Z hoursAgo)
         baseDir (sessionsListing e) []).
Proof.
  intros e baseDir hoursAgo m. unfold Batch.findRecentSessions.
  generalize (Batch.scanDir
                (option_map (fun h => now e - h * 60 * 60 * 1000)%Z hoursAgo)
                baseDir (sessionsListing e) []).
  induction l as [|a l IH]; [reflexivity|].
  simpl Batch.sortSessions. rewrite insertSession_filter.
  simpl. now rewrite IH.
Qed.

(** X17.  A transcript whose [statSync] fails ends the scan of its own
    directory, hiding the entries listed after it, and of that directory
    only: the scan of a subdirectory never ends the scan of its parent. *)
Theorem failed_stat_hides_later_siblings :
  (forall cutoff dir pre nm post acc,
     endsWith (str ".jsonl") nm = true ->
     Batch.scanLoop (Batch.scanEntry cutoff dir)
       (pre ++ File nm None :: post) acc
     = Batch.scanLoop (Batch.scanEntry cutoff dir) pre acc)
  /\ (forall cutoff dir nm listing acc,
        snd (Batch.scanEntry cutoff dir (Directory nm listing) acc) = false).
Proof.
  split.
  - intros cutoff dir pre nm post acc E. revert acc.
    induction pre as [|d pre IH]; intros acc; simpl.
    + now rewrite E.
    + destruct (Batch.scanEntry cutoff dir d acc) as [acc' threw].
      destruct threw; [reflexivity | apply IH].
  - intros cutoff dir nm listing acc. simpl.
    destruct (negb (streq nm (str "subagent-artifacts"))); reflexivity.
Qed.

Lemma failed_stat_hides_later_siblings_witness :
  endsWith (str ".jsonl") (str "dangling.jsonl") = true
  /\ Batch.scanLoop
       (Batch.scanEntry (Some 0%Z) (str "/s"))
       ([] ++ File (str "dangling.jsonl") None
           :: [File (str "s1.jsonl") (Some 1699999000000%Z)]) []
     = Batch.scanLoop (Batch.scanEntry (Some 0%Z) (str "/s")) [] [].
Proof.
  split; [reflexivity|].
  apply (proj1 failed_stat_hides_later_siblings). reflexivity.
Defined.

(** ** The live path *)

Lemma startsWith_user : forall en line turn,
  Live.conversationLine en = Ok (Some (line, turn)) ->
  startsWith (str "USER: ") line = turn.
Proof.
  intros en line turn H. apply conversationLine_text in H.
  destruct H as (content & t & _ & _ & ->). destruct turn; reflexivity.
Qed.

Lemma conversationLines_spec : forall entries acc tc ls n,
  Live.conversationLines entries acc tc = Ok (ls, n) ->
  exists new,
    ls = acc ++ new
    /\ n = tc + List.length (filter (startsWith (str "USER: ")) new)
    /\ List.length new <= List.length entries.
Proof.
  induction entries as [|en rest IH]; intros acc tc ls n H; simpl in H.
  - injection H as <- <-. exists []. rewrite app_nil_r. simpl.
    split; [reflexivity | split; lia].
  - unfold andThen in H.
    destruct (Live.conversationLine en) as [[[line turn]|]|err] eqn:C;
      [| |discriminate].
    + apply IH in H. destruct H as (new & -> & -> & L).
      exists (line :: new). rewrite <- app_assoc. split; [reflexivity|].
      pose proof (startsWith_user en line turn C) as U.
      set (f := startsWith (str "USER: ")) in *.
      change (filter f (line :: new))
        with (if f line then line :: filter f new else filter f new).
      rewrite U. destruct turn; simpl; split; lia.
    + apply IH in H. destruct H as (new & -> & -> & L). exists new.
      split; [reflexivity | split; [reflexivity | simpl; lia]].
Qed.

(** X18.  [extractConversationText] returns the lines it kept, joined by
    blank lines, and a turn count that is exactly the number of [USER: ]
    lines among them; it keeps at most one line per session entry. *)
Theorem live_turns_are_user_lines : forall entries text n,
  Live.extractConversationText entries = Ok (text, n) ->
  exists lines,
    text = join (nl ++ nl) lines
    /\ n = List.length (filter (startsWith (str "USER: ")) lines)
    /\ List.length lines <= List.length entries
    /\ n <= List.length entries.
Proof.
  intros entries text n H. unfold Live.extractConversationText, andThen in H.
  destruct (Live.conversationLines entries [] 0) as [[ls k]|err] eqn:C;
    [|discriminate].
  simpl in H. injection H as <- <-.
  apply conversationLines_spec in C. destruct C as (new & -> & -> & L).
  exists new. set (f := startsWith (str "USER: ")) in *.
  pose proof (filter_length_le f new).
  split; [reflexivity|]. split; [reflexivity|]. cbn [snd]. split; lia.
Qed.

Lemma live_turns_are_user_lines_witness :
  Live.extractConversationText
    (Extension.getEntries Scenario2.shortSession)
  = Ok (Scenario2.shortConversation, 2)
  /\ exists lines,
       Scenario2.shortConversation = join (nl ++ nl) lines
       /\ 2 = List.length (filter (startsWith (str "USER: ")) lines)
       /\ List.length lines
          <= List.length (Extension.getEntries Scenario2.shortSession)
       /\ 2 <= List.length (Extension.getEntries Scenario2.shortSession).
Proof.
  split; [reflexivity|].
  apply (live_turns_are_user_lines
           (Extension.getEntries Scenario2.shortSession)).
  reflexivity.
Defined.

(** X19.  [callGeminiForExtraction] sends nothing when no API key is
    set and exactly one prompt otherwise, the instruction text around the
    first 30000 code units of the conversation, whatever the reply and
    however it fails; it touches neither the store nor the ledger.  Without
    a key it returns the empty sequence after one line on the console. *)
Theorem live_extractor_asks_once : forall cfg e text w,
  ledger (snd (Live.callGeminiForExtraction cfg e text w)) = ledger w
  /\ posts (snd (Live.callGeminiForExtraction cfg e text w)) = posts w
  /\ prompts (snd (Live.callGeminiForExtraction cfg e text w))
     = prompts w
       ++ (if Live.falsyArg (Live.GEMINI_API_KEY cfg) then []
           else [Live.extractionPrompt (slice0 30000 text)])
  /\ (Live.falsyArg (Live.GEMINI_API_KEY cfg) = true ->
      Live.callGeminiForExtraction cfg e text w = (Ok [], say w ErrNoGeminiKey)).
Proof.
  intros cfg e text w.
  destruct (callGemini_effect cfg e text w) as (L & P & A).
  split; [exact L | split; [exact P | split; [exact A|]]].
  intros K. unfold Live.callGeminiForExtraction. rewrite K. reflexivity.
Qed.

Lemma live_extractor_asks_once_witness :
  Live.falsyArg (Live.GEMINI_API_KEY
                   {| Live.AUTOMEM_TOKEN := Some (str "secret");
                      Live.GEMINI_API_KEY := None |}) = true
  /\ Live.callGeminiForExtraction
       {| Live.AUTOMEM_TOKEN := Some (str "secret");
          Live.GEMINI_API_KEY := None |}
       Scenario.flakyHost Scenario2.shortConversation Scenario.fresh
     = (Ok [], say Scenario.fresh ErrNoGeminiKey).
Proof.
  split; [reflexivity|].
  apply (live_extractor_asks_once
           {| Live.AUTOMEM_TOKEN := Some (str "secret");
              Live.GEMINI_API_KEY := None |}).
  reflexivity.
Defined.

Lemma liveRequest_provenance : forall c t i tags sid sf cwd,
  liveProvenance sid sf cwd (Live.liveRequest c t i tags sid sf cwd).
Proof. intros. split; [reflexivity | now exists tags]. Qed.

Lemma liveStep_effect : forall cfg e m sid sf cwd w,
  ledger (snd (liveStep cfg e m sid sf cwd w)) = ledger w
  /\ prompts (snd (liveStep cfg e m sid sf cwd w)) = prompts w
  /\ (posts (snd (liveStep cfg e m sid sf cwd w)) = posts w
      \/ (Live.falsyArg (Live.AUTOMEM_TOKEN cfg) = false
          /\ exists r, liveProvenance sid sf cwd r
                       /\ posts (snd (liveStep cfg e m sid sf cwd w))
                          = posts w ++ [r]))
  /\ (Live.falsyArg (Live.AUTOMEM_TOKEN cfg) = true ->
      liveStep cfg e m sid sf cwd w = (false, w)).
Proof.
  intros cfg e m sid sf cwd w. unfold liveStep, Live.storeOne, bind, lift.
  destruct (prop m "content") as [c|]; [|simpl; repeat split; auto].
  destruct (prop m "type") as [t|]; [|simpl; repeat split; auto].
  destruct (prop m "importance") as [i|]; [|simpl; repeat split; auto].
  destruct (prop m "tags") as [tags|]; [|simpl; repeat split; auto].
  destruct (spread tags) as [tags'|]; [|simpl; repeat split; auto].
  unfold Live.automemRequest.
  destruct (Live.falsyArg (Live.AUTOMEM_TOKEN cfg));
    [simpl; repeat split; auto|].
  unfold postMemory.
  destruct (fetchMemory e (List.length (posts w))
              (Live.liveRequest c t i tags' sid sf cwd)) as [err|ok body];
    simpl;
    (split; [reflexivity | split; [reflexivity | split; [|discriminate]]]);
    right; (split; [reflexivity|]); eexists;
    (split; [apply liveRequest_provenance | reflexivity]).
Qed.

Lemma storeLoop_effect : forall cfg e sid sf cwd ms s f w,
  ledger (snd (Live.storeLoop cfg e ms sid sf cwd s f w)) = ledger w
  /\ prompts (snd (Live.storeLoop cfg e ms sid sf cwd s f w)) = prompts w
  /\ (exists extra,
        posts (snd (Live.storeLoop cfg e ms sid sf cwd s f w))
        = posts w ++ extra
        /\ Forall (liveProvenance sid sf cwd) extra
        /\ List.length extra <= List.length ms)
  /\ (Live.falsyArg (Live.AUTOMEM_TOKEN cfg) = true ->
      Live.storeLoop cfg e ms sid sf cwd s f w
      = (Ok (s, f + List.length ms), w)).
Proof.
  intros cfg e sid sf cwd ms. induction ms as [|m rest IH]; intros s f w.
  - simpl. repeat split; auto.
    + exists []. rewrite app_nil_r. auto.
    + intros _. unfold ret. now rewrite Nat.add_0_r.
  - rewrite storeLoop_step.
    destruct (liveStep_effect cfg e m sid sf cwd w) as (L & A & P & T).
    destruct (liveStep cfg e m sid sf cwd w) as [ok w1]. simpl in L, A, P.
    destruct (IH (if ok then S s else s) (if ok then f else S f) w1)
      as (L' & A' & (extra & P' & F' & N') & T').
    split; [congruence | split; [congruence | split]].
    + destruct P as [P|(_ & r & Pr & P)].
      * exists extra. rewrite P', P.
        split; [reflexivity | split; [exact F' | simpl; lia]].
      * exists (r :: extra). rewrite P', P, <- app_assoc.
        split; [reflexivity | split; [now constructor | simpl; lia]].
    + intros K. specialize (T K). injection T as -> ->.
      rewrite (T' K). simpl. now rewrite Nat.add_succ_r.
Qed.

(** X20.  [storeExtractedMemories] sends at most one request per memory,
    each carrying the session id, the session file, the working directory
    and the source [session-extraction], its tags closed by
    [auto-extracted]; it touches neither the ledger nor the model.  Without
    a token nothing is sent and every memory counts as failed. *)
Theorem live_store_effects : forall cfg e ms sid sf cwd w,
  ledger (snd (Live.storeExtractedMemories cfg e ms sid sf cwd w)) = ledger w
  /\ prompts (snd (Live.storeExtractedMemories cfg e ms sid sf cwd w))
     = prompts w
  /\ (exists extra,
        posts (snd (Live.storeExtractedMemories cfg e ms sid sf cwd w))
        = posts w ++ extra
        /\ Forall (liveProvenance sid sf cwd) extra
        /\ List.length extra <= List.length ms)
  /\ (Live.falsyArg (Live.AUTOMEM_TOKEN cfg) = true ->
      Live.storeExtractedMemories cfg e ms sid sf cwd w
      = (Ok (0, List.length ms), w)).
Proof.
  intros cfg e ms sid sf cwd w. unfold Live.storeExtractedMemories.
  apply (storeLoop_effect cfg e sid sf cwd ms 0 0 w).
Qed.

Lemma live_store_effects_witness :
  Live.falsyArg (Live.AUTOMEM_TOKEN
                   {| Live.AUTOMEM_TOKEN := None;
                      Live.GEMINI_API_KEY := Some (str "key") |}) = true
  /\ Live.storeExtractedMemories
       {| Live.AUTOMEM_TOKEN := None; Live.GEMINI_API_KEY := Some (str "key") |}
       Scenario.flakyHost Scenario.threeMemories VUndefined
       (VStr Scenario.sessionPath) (str "/home/dev/proj") Scenario.fresh
     = (Ok (0, List.length Scenario.threeMemories), Scenario.fresh).
Proof.
  split; [reflexivity|].
  apply (live_store_effects
           {| Live.AUTOMEM_TOKEN := None;
              Live.GEMINI_API_KEY := Some (str "key") |}).
  reflexivity.
Defined.

(** X21.  A memory object without [tags] is stored by the batch script,
    with the two closing tags alone, and is counted as failed by the
    extension, which sends nothing for it: only the batch script guards the
    spread with [|| []]. *)
Theorem untagged_memory_batch_and_live : forall fs,
  lookup (str "tags") fs = VUndefined ->
  (forall e sp w,
     exists r,
       posts (snd (storeStep e (VObj fs) sp w)) = posts w ++ [r]
       /\ r_tags r = [VStr (str "auto-extracted");
                      VStr (str "compound-review")])
  /\ (forall cfg e sid sf cwd w,
        liveStep cfg e (VObj fs) sid sf cwd w = (false, w)).
Proof.
  intros fs H. split.
  - intros e sp w.
    unfold storeStep, Batch.storeMemory, bind, lift, postMemory, throw.
    cbn [prop]. rewrite H. cbn [Batch.orEmpty truthy spread].
    match goal with
    | |- context [fetchMemory ?e0 ?n ?r] =>
        destruct (fetchMemory e0 n r) as [err|[|] body]
    end; cbn [negb]; try destruct (JSON_parse body);
      eexists; split; reflexivity.
  - intros cfg e sid sf cwd w.
    unfold liveStep, Live.storeOne, bind, lift. cbn [prop]. rewrite H.
    reflexivity.
Qed.

Lemma untagged_memory_batch_and_live_witness :
  lookup (str "tags") [(str "content", VStr (str "Chose PostgreSQL"))]
  = VUndefined
  /\ liveStep Scenario.liveConfig Scenario.flakyHost
       (VObj [(str "content", VStr (str "Chose PostgreSQL"))])
       VUndefined (VStr Scenario.sessionPath) (str "/home/dev/proj")
       Scenario.fresh
     = (false, Scenario.fresh).
Proof.
  split; [reflexivity|].
  apply (proj2 (untagged_memory_batch_and_live
                  [(str "content", VStr (str "Chose PostgreSQL"))] eq_refl)).
Defined.

(** X22.  The shutdown hook never writes the ledger of the batch script;
    it asks the model at most once; every request it sends carries the
    provenance of the session being shut down.  When the conversation can
    be read, a session below the minimum number of turns, and any session
    when no API key is set, produces no notice and changes nothing; when
    reading the conversation throws, the hook reports that error on the
    console, with or without a key, and changes nothing. *)
Theorem shutdown_hook_effects : forall cfg e sm w,
  ledger (snd (Extension.session_shutdown cfg e sm w)) = ledger w
  /\ (exists asked,
        prompts (snd (Extension.session_shutdown cfg e sm w))
        = prompts w ++ asked
        /\ List.length asked <= 1)
  /\ (exists extra,
        posts (snd (Extension.session_shutdown cfg e sm w)) = posts w ++ extra
        /\ Forall (liveProvenance (Extension.getSessionId sm)
                     (Extension.getSessionFile sm) (Extension.getCwd sm))
                  extra)
  /\ match Live.extractConversationText (Extension.getEntries sm) with
     | Throw err =>
         Extension.session_shutdown cfg e sm w
         = ([Extension.ErrorSessionExtraction err], w)
     | Ok (text, n) =>
         Extension.belowMinimum n (Extension.AUTOMEM_MIN_TURNS cfg) = true
         \/ Live.falsyArg (Live.GEMINI_API_KEY (Extension.base cfg)) = true ->
         Extension.session_shutdown cfg e sm w = ([], w)
     end.
Proof.
  intros cfg e sm w.
  assert (Q : forall (r : list Extension.notice * world),
            snd r = w ->
            ledger (snd r) = ledger w
            /\ (exists asked, prompts (snd r) = prompts w ++ asked
                              /\ List.length asked <= 1)
            /\ (exists extra, posts (snd r) = posts w ++ extra
                  /\ Forall (liveProvenance (Extension.getSessionId sm)
                               (Extension.getSessionFile sm)
                               (Extension.getCwd sm)) extra)).
  { intros r ->. split; [reflexivity|]. split.
    - exists []. rewrite app_nil_r. auto.
    - exists []. rewrite app_nil_r. auto. }
  unfold Extension.session_shutdown.
  destruct (Live.extractConversationText (Extension.getEntries sm))
    as [[text n]|err].
  2:{ destruct (Q ([Extension.ErrorSessionExtraction err], w) eq_refl)
        as (A & B & C).
      repeat split; auto. }
  destruct (Extension.belowMinimum n (Extension.AUTOMEM_MIN_TURNS cfg)) eqn:B.
  { destruct (Q (@nil Extension.notice, w) eq_refl) as (A1 & B1 & C1).
    repeat split; auto. }
  destruct (Live.falsyArg (Live.GEMINI_API_KEY (Extension.base cfg))) eqn:K.
  { destruct (Q (@nil Extension.notice, w) eq_refl) as (A1 & B1 & C1).
    repeat split; auto. }
  assert (G : false = true \/ false = true -> False)
    by (intros [H|H]; discriminate H).
  destruct (callGemini_effect (Extension.base cfg) e text w) as (L1 & P1 & A1).
  rewrite K in A1.
  set (prompt := Live.extractionPrompt _) in A1. clearbody prompt.
  destruct (Live.callGeminiForExtraction (Extension.base cfg) e text w)
    as [[ms|err] w1]; cbn [snd] in L1, P1, A1.
  2:{ simpl. split; [exact L1|]. split; [eexists; split; [exact A1|simpl; lia]|].
      split; [exists []; rewrite app_nil_r; auto|].
      intros H. destruct (G H). }
  destruct (List.length ms =? 0).
  { simpl. split; [exact L1|]. split; [eexists; split; [exact A1|simpl; lia]|].
    split; [exists []; rewrite app_nil_r; auto|].
    intros H. destruct (G H). }
  destruct (storeLoop_effect (Extension.base cfg) e (Extension.getSessionId sm)
              (Extension.getSessionFile sm) (Extension.getCwd sm) ms 0 0 w1)
    as (L2 & A2 & (extra & P2 & F2 & _) & _).
  unfold Live.storeExtractedMemories.
  destruct (Live.storeLoop (Extension.base cfg) e ms (Extension.getSessionId sm)
              (Extension.getSessionFile sm) (Extension.getCwd sm) 0 0 w1)
    as [[[stored failed]|err] w2]; simpl in L2, A2, P2; simpl;
    (split; [congruence|]);
    (split; [eexists; split; [rewrite A2; exact A1 | simpl; lia]|]);
    (split; [exists extra; split; [rewrite P2, P1; reflexivity | exact F2]|]);
    intros H; destruct (G H).
Qed.

Lemma shutdown_hook_effects_witness :
  Extension.belowMinimum 2
    (Extension.AUTOMEM_MIN_TURNS Scenario2.hookConfig) = true
  /\ Extension.session_shutdown Scenario2.hookConfig Scenario.flakyHost
       Scenario2.shortSession Scenario.fresh
     = ([], Scenario.fresh).
Proof.
  split; [reflexivity|].
  destruct (shutdown_hook_effects Scenario2.hookConfig Scenario.flakyHost
              Scenario2.shortSession Scenario.fresh) as (_ & _ & _ & G).
  change (Live.extractConversationText
            (Extension.getEntries Scenario2.shortSession))
    with (@Ok (jsstring * nat) (Scenario2.shortConversation, 2)) in G.
  apply G. left. reflexivity.
Defined.

(** X23.  The [automem_store] tool sends exactly one request, the body
    built from its parameters, when a token is set, and none otherwise; it
    touches neither the ledger nor the model; it reports the memory as
    stored only if the store answered that request with an ok response. *)
Theorem store_tool_effects : forall cfg e p w,
  ledger (snd (Extension.automem_store cfg e p w)) = ledger w
  /\ prompts (snd (Extension.automem_store cfg e p w)) = prompts w
  /\ posts (snd (Extension.automem_store cfg e p w))
     = posts w ++ (if Live.falsyArg (Live.AUTOMEM_TOKEN cfg) then []
                   else [Extension.toolRequest p])
  /\ (forall id ty,
        fst (Extension.automem_store cfg e p w) = Extension.MemoryStored id ty ->
        Live.falsyArg (Live.AUTOMEM_TOKEN cfg) = false
        /\ exists body,
             fetchMemory e (List.length (posts w)) (Extension.toolRequest p)
             = Response true body).
Proof.
  intros cfg e p w. unfold Extension.automem_store, Live.automemRequest.
  destruct (Live.falsyArg (Live.AUTOMEM_TOKEN cfg)).
  - simpl. rewrite app_nil_r. repeat split; auto; discriminate.
  - unfold postMemory.
    destruct (fetchMemory e (List.length (posts w)) (Extension.toolRequest p))
      as [err|[|] body]; cbn [negb].
    + simpl. repeat split; auto; discriminate.
    + destruct (andThen _ _) as [[id ty]|err]; simpl; repeat split; eauto;
        discriminate.
    + simpl. repeat split; auto; discriminate.
Qed.

Lemma store_tool_effects_witness :
  fst (Extension.automem_store Scenario.liveConfig
         (Scenario.host Scenario.transcript Scenario.twoMemories)
         Scenario2.params Scenario.fresh)
  = Extension.MemoryStored VUndefined VUndefined
  /\ Live.falsyArg (Live.AUTOMEM_TOKEN Scenario.liveConfig) = false
  /\ exists body,
       fetchMemory (Scenario.host Scenario.transcript Scenario.twoMemories)
         (List.length (posts Scenario.fresh))
         (Extension.toolRequest Scenario2.params)
       = Response true body.
Proof.
  split; [reflexivity|].
  destruct (store_tool_effects Scenario.liveConfig
              (Scenario.host Scenario.transcript Scenario.twoMemories)
              Scenario2.params Scenario.fresh) as (_ & _ & _ & G).
  apply (G VUndefined VUndefined). reflexivity.
Defined.

(** X24.  The health tool of the extension is the stricter of the two
    probes: it reports the store healthy exactly when the liveness probe of
    the batch script passes ([GET /health] gives an ok response whose body
    is JSON other than [null], with a printable [status] and
    [memory_count]) and the two further fields it prints, [falkordb] and
    [qdrant], can be printed as well. *)
Theorem health_checks_agree : forall cfg e,
  Live.falsyArg (Live.AUTOMEM_TOKEN cfg) = false ->
  ((exists data, Extension.automem_health cfg e = Extension.Healthy data)
   <-> storeHealthy e = true /\ enginesPrintable e = true)
  /\ forall w, fst (Batch.checkHealth e w) = Ok (storeHealthy e).
Proof.
  intros cfg e T. split.
  - unfold Extension.automem_health, storeHealthy, enginesPrintable,
      toStringCheck, andThen.
    rewrite T.
    destruct (fetchHealth e) as [err|[|] body]; cbn [negb andb];
      try (split; [intros [d H]; discriminate H
                  | intros [H _]; discriminate H]).
    destruct (JSON_parse body) as [d|err];
      [|split; [intros [d' H]; discriminate H | intros [H _]; discriminate H]].
    destruct d as [| |b|n|s0|l|fs]; cbn [prop printable];
      try (split; [intros [d' H]; discriminate H
                  | intros [H _]; discriminate H]);
      try (split; [intros _; split; reflexivity
                  | intros _; eexists; reflexivity]).
    destruct (printable (lookup (str "status") fs)),
             (printable (lookup (str "memory_count") fs)),
             (printable (lookup (str "falkordb") fs)),
             (printable (lookup (str "qdrant") fs)); cbn [andb];
      try (split; [intros _; split; reflexivity
                  | intros _; eexists; reflexivity]);
      (split; [intros [d' H]; discriminate H
              | intros [H1 H2]; (discriminate H1 || discriminate H2)]).
  - intros w. destruct (checkHealth_spec e w) as (w' & H & _). now rewrite H.
Qed.

Lemma health_checks_agree_witness :
  Live.falsyArg (Live.AUTOMEM_TOKEN Scenario.liveConfig) = false
  /\ storeHealthy (Scenario.host Scenario.transcript Scenario.twoMemories)
     = true
  /\ enginesPrintable (Scenario.host Scenario.transcript Scenario.twoMemories)
     = true
  /\ exists data,
       Extension.automem_health Scenario.liveConfig
         (Scenario.host Scenario.transcript Scenario.twoMemories)
       = Extension.Healthy data.
Proof.
  split; [reflexivity | split; [reflexivity | split; [reflexivity|]]].
  apply (proj1 (health_checks_agree Scenario.liveConfig
                  (Scenario.host Scenario.transcript Scenario.twoMemories)
                  eq_refl)).
  split; reflexivity.
Defined.

(** ** Names and paths *)

Lemma takeWhile_stop : forall f a c b,
  Forall (fun x => f x = true) a -> f c = false ->
  Batch.takeWhile f (a ++ c :: b) = a.
Proof.
  intros f a c b H Hc. induction H as [|x a Hx _ IH]; simpl.
  - now rewrite Hc.
  - now rewrite Hx, IH.
Qed.

Lemma basename_join : forall dir nm,
  nm <> [] -> ~ In 47%N nm -> Batch.basename (Batch.pathJoin dir nm) = nm.
Proof.
  intros dir nm Hne Hs. unfold Batch.basename, Batch.pathJoin.
  rewrite !rev_app_distr. simpl rev. rewrite <- app_assoc. simpl app.
  assert (F : Forall (fun x => negb (Batch.is_slash x) = true) (rev nm)).
  { apply Forall_forall. intros x Hx. apply in_rev in Hx.
    unfold Batch.is_slash. destruct (N.eqb_spec x 47); [subst; tauto|].
    reflexivity. }
  assert (D : Batch.dropWhile Batch.is_slash (rev nm ++ 47%N :: rev dir)
              = rev nm ++ 47%N :: rev dir).
  { destruct (rev nm) as [|x r] eqn:E.
    - apply (f_equal (@rev N)) in E. rewrite rev_involutive in E.
      simpl in E. congruence.
    - inversion F as [|? ? Hx _]; subst. simpl.
      apply negb_true_iff in Hx. now rewrite Hx. }
  rewrite D, (takeWhile_stop _ _ _ _ F); [apply rev_involutive | reflexivity].
Qed.

Lemma Listed_name : forall cutoff dir entries s,
  Listed cutoff dir entries s ->
  exists dir', Batch.path s = Batch.pathJoin dir' (Batch.name s).
Proof.
  intros cutoff dir entries s H.
  induction H as [dir entries nm m _ _ _|]; [|assumption].
  exists dir. reflexivity.
Qed.

(** X25.  The name a session is logged under is the last component of its
    path, whether the session was discovered (for the directory entries a
    file system lists: non-empty names without a slash) or named with
    [--session]; so the [Processing:] line and the [Error processing] line
    of one session show the same name. *)
Theorem session_name_is_basename :
  (forall e baseDir hoursAgo s,
     In s (Batch.findRecentSessions e baseDir hoursAgo) ->
     Batch.name s <> [] -> ~ In 47%N (Batch.name s) ->
     Batch.basename (Batch.path s) = Batch.name s)
  /\ (forall p, Batch.basename (Batch.path (named p)) = Batch.name (named p)).
Proof.
  split; [|reflexivity].
  intros e baseDir hoursAgo s H Hne Hs.
  unfold Batch.findRecentSessions in H. rewrite sortSessions_In in H.
  apply scanDir_sound in H. destruct H as (entries & _ & L).
  apply Listed_name in L. destruct L as (dir' & ->).
  now apply basename_join.
Qed.

Lemma session_name_is_basename_witness :
  In Scenario.s1
    (Batch.findRecentSessions
       (Scenario.host Scenario.transcript Scenario.twoMemories)
       (str "/home/dev/.pi/agent/sessions") (Some 24%Z))
  /\ Batch.basename (Batch.path Scenario.s1) = Batch.name Scenario.s1.
Proof.
  assert (H : In Scenario.s1
                (Batch.findRecentSessions
                   (Scenario.host Scenario.transcript Scenario.twoMemories)
                   (str "/home/dev/.pi/agent/sessions") (Some 24%Z)))
    by (left; reflexivity).
  split; [exact H|].
  apply (proj1 session_name_is_basename _ _ _ _ H).
  - discriminate.
  - intros Hin. vm_compute in Hin. intuition discriminate.
Defined.
